(** * Slab and pool allocators: a shallow embedding and its properties

    The development follows the C sources of the repository:
    - [pool_alloc.c] / [pool_alloc.h]: a pool of regions with bump
      allocation, a first-fit free list with splitting, and coalescing;
    - [slab_alloc.c] / [slab_alloc.h]: a slab of equal cells with an
      intrusive free list; the repository carries two variants, one on
      [VirtualAlloc] (module [Slab]) and one on a file mapping (module
      [SlabMap]).

    Addresses and sizes are 64-bit unsigned integers, modelled as [Z] with
    the wrap-around written out.  Memory is a byte map together with the
    list of regions the operating system has mapped; an access outside a
    mapped region ends the run with [Crash].  The code is sequential here:
    the critical sections and the spin lock are not modelled. *)

From Stdlib Require Import ZArith List Lia Bool.
From stdpp Require Import base decidable option numbers list gmap.

Local Open Scope Z_scope.

(** ** Machine words *)

Definition WORD : Z := 2 ^ 64.

Definition wrap (x : Z) : Z := x mod WORD.
Definition wadd (x y : Z) : Z := wrap (x + y).
Definition wsub (x y : Z) : Z := wrap (x - y).
Definition wmul (x y : Z) : Z := wrap (x * y).
(** [~x] on a 64-bit word. *)
Definition wnot (x : Z) : Z := WORD - 1 - x.
(** [x & y] of two words. *)
Definition wand (x y : Z) : Z := Z.land x y.

(** ** Outcomes of a run *)

Inductive error : Type :=
| Segfault (addr : Z)      (* access outside every mapped region *)
| Misaligned (addr : Z)    (* aligned vector store at an unaligned address *)
| DivideByZero             (* [x % 0] *)
| OutOfFuel.               (* a pointer-chasing loop did not end within the fuel *)

Inductive outcome (A : Type) : Type :=
| Ok (a : A)
| Crash (e : error).
Arguments Ok {A} a.
Arguments Crash {A} e.

(** ** Memory *)

(** [contents] holds the bytes that were written (an absent byte reads 0,
    as freshly mapped pages do); [mapped] lists the regions acquired from
    the operating system as (base, requested bytes), newest first. *)
Record Memory : Type := mkMemory {
  contents : gmap Z Z;
  mapped : list (Z * Z)
}.

Definition empty_memory : Memory := mkMemory ∅ [].

Definition PAGE_SIZE : Z := 4096.
Definition ALLOCATION_GRANULARITY : Z := 65536.
Definition USER_SPACE_END : Z := 2 ^ 47.

(** The operating system maps whole pages. *)
Definition page_round (bytes : Z) : Z := (bytes + (PAGE_SIZE - 1)) / PAGE_SIZE * PAGE_SIZE.

Definition in_region (a n : Z) (r : Z * Z) : bool :=
  (fst r <=? a) && (a + n <=? fst r + page_round (snd r)).

(** [n] bytes at [a] lie inside one mapped region. *)
Definition valid (m : Memory) (a n : Z) : bool := existsb (in_region a n) (mapped m).

Definition byte_at (h : gmap Z Z) (a : Z) : Z := default 0 (h !! a).

(** Little-endian integers of [n] bytes. *)
Fixpoint load_le (n : nat) (h : gmap Z Z) (a : Z) : Z :=
  match n with
  | O => 0
  | S n' => byte_at h a + 256 * load_le n' h (a + 1)
  end.

Fixpoint store_le (n : nat) (a v : Z) (h : gmap Z Z) : gmap Z Z :=
  match n with
  | O => h
  | S n' => <[a := v mod 256]> (store_le n' (a + 1) (v / 256) h)
  end.

(** [n] copies of one byte, as [memset] and the vector store write them. *)
Fixpoint fill (n : nat) (a b : Z) (h : gmap Z Z) : gmap Z Z :=
  match n with
  | O => h
  | S n' => <[a := b]> (fill n' (a + 1) b h)
  end.

(** ** The monad of the embedding: state passing over [Memory], with crashes *)

Definition M (A : Type) : Type := Memory → outcome (A * Memory).

Definition ret {A} (a : A) : M A := λ m, Ok (a, m).

Definition bind {A B} (c : M A) (f : A → M B) : M B :=
  λ m, match c m with
       | Ok (a, m') => f a m'
       | Crash e => Crash e
       end.

Definition crash {A} (e : error) : M A := λ _, Crash e.

Notation "'do' x <- c1 ; c2" := (bind c1 (λ x, c2))
  (at level 10, x pattern, c1 at level 100, c2 at level 200,
   format "'[v' 'do'  x  <-  c1 ; '/' c2 ']'").
Notation "'run' c1 ; c2" := (bind c1 (λ _, c2))
  (at level 10, c1 at level 100, c2 at level 200,
   format "'[v' 'run'  c1 ; '/' c2 ']'").

(** [*(uint64_t* )a] *)
Definition load64 (a : Z) : M Z :=
  λ m, if valid m a 8 then Ok (load_le 8 (contents m) a, m) else Crash (Segfault a).

(** [*(uint64_t* )a = v] *)
Definition store64 (a v : Z) : M unit :=
  λ m, if valid m a 8
       then Ok (tt, mkMemory (store_le 8 a v (contents m)) (mapped m))
       else Crash (Segfault a).

(** [memset(p, value, n)]: [n] bytes, each [(unsigned char)value]. *)
Definition memset (p value n : Z) : M unit :=
  λ m, if n =? 0 then Ok (tt, m)
       else if valid m p n
       then Ok (tt, mkMemory (fill (Z.to_nat n) p (value mod 256) (contents m)) (mapped m))
       else Crash (Segfault p).

(** [_mm256_store_si256((__m256i* )p, _mm256_set1_epi8((char)value))]:
    32 bytes at a 32-byte aligned address. *)
Definition mm256_store_si256 (p value : Z) : M unit :=
  λ m, if negb (p mod 32 =? 0) then Crash (Misaligned p)
       else if valid m p 32
       then Ok (tt, mkMemory (fill 32 p (value mod 256) (contents m)) (mapped m))
       else Crash (Segfault p).

(** *** The bulk-set utility

    [simd_memset] is a static function that every C file of the repository
    repeats word for word; it is embedded once. *)

(** The vector loop of [simd_memset]: [count] stores from index [i]. *)
Fixpoint simd_store_loop (count : nat) (i p value : Z) : M unit :=
  match count with
  | O => ret tt
  | S count' =>
      run mm256_store_si256 (wadd p (wmul i 32)) value;
      simd_store_loop count' (i + 1) p value
  end.

Definition simd_memset (ptr value size : Z) : M unit :=
  let misalignment := ptr mod 32 in
  do (p, size) <-
    (if negb (misalignment =? 0) then
       let align_bytes := wsub 32 misalignment in
       let align_bytes := if align_bytes >? size then size else align_bytes in
       run memset ptr value align_bytes;
       ret (wadd ptr align_bytes, wsub size align_bytes)
     else ret (ptr, size));
  run simd_store_loop (Z.to_nat (size / 32)) 0 p value;
  let remaining := size mod 32 in
  if negb (remaining =? 0)
  then memset (wadd p (wsub size remaining)) value remaining
  else ret tt.

(** *** The region provider

    [VirtualAlloc(NULL, bytes, MEM_COMMIT | MEM_RESERVE, PAGE_READWRITE)].
    [os] is the address the operating system picks for this request, 0
    when it refuses.  The system never maps zero bytes, only hands out
    addresses on its allocation granularity, inside the user address
    space and disjoint from what is mapped; the pages read zero. *)
Definition region_free (m : Memory) (os len : Z) : bool :=
  forallb (λ r, (os + len <=? fst r) || (fst r + page_round (snd r) <=? os)) (mapped m).

Definition os_grants (m : Memory) (os bytes : Z) : bool :=
  (0 <? bytes) && (0 <? os) && (os mod ALLOCATION_GRANULARITY =? 0)
  && (os + page_round bytes <=? USER_SPACE_END)
  && region_free m os (page_round bytes).

Definition fresh_pages (os len : Z) (h : gmap Z Z) : gmap Z Z :=
  filter (λ kv, ¬ (os ≤ kv.1 < os + len)) h.

Definition VirtualAlloc (os bytes : Z) : M Z :=
  λ m, if os_grants m os bytes
       then Ok (os, mkMemory (fresh_pages os (page_round bytes) (contents m))
                             ((os, bytes) :: mapped m))
       else Ok (0, m).

(** Every mapped region lies in the user address space; [VirtualAlloc]
    keeps it so. *)
Definition user_space (m : Memory) : bool :=
  forallb (λ r, (0 <=? fst r) && (fst r + page_round (snd r) <=? USER_SPACE_END)) (mapped m).

(** ** The slab allocator on [VirtualAlloc] *)

Module Slab.

Definition HEADER_SIZE : Z := 32.

(** [struct Slab]; the lock is left out. *)
Record Slab : Type := mkSlab {
  memory : Z;
  object_size : Z;
  total_objects : Z;
  free_list : Z
}.

(** [(size + 15) & ~((size_t)15)] *)
Definition align_size (size : Z) : Z := wand (wadd size 15) (wnot 15).

(** The loop shared by [slab_init] and [slab_reset]:
    [for (i = 0; i < total_objects - 1; i++) *cell(i) = cell(i+1)]. *)
Fixpoint link_objects (count : nat) (i mem osz : Z) : M unit :=
  match count with
  | O => ret tt
  | S count' =>
      let current_obj := wadd mem (wmul i osz) in
      let next_obj := wadd mem (wmul (i + 1) osz) in
      run store64 current_obj next_obj;
      link_objects count' (i + 1) mem osz
  end.

(** A null handle is [None].  The call returns the success bit and the
    slab structure as the call leaves it. *)
Definition slab_init (slab : option Slab) (total_objects object_size os : Z)
  : M (Z * option Slab) :=
  match slab with
  | None => ret (0, None)
  | Some s =>
      if (total_objects =? 0) || (object_size <? 8) then ret (0, slab)
      else
        let osz := align_size object_size in
        let slab_memory_size := wmul osz total_objects in
        do mem <- VirtualAlloc os slab_memory_size;
        if mem =? 0 then ret (0, Some (mkSlab mem osz total_objects (free_list s)))
        else
          run link_objects (Z.to_nat (wsub total_objects 1)) 0 mem osz;
          let last_obj := wadd mem (wmul (wsub total_objects 1) osz) in
          run store64 last_obj 0;
          ret (1, Some (mkSlab mem osz total_objects mem))
  end.

(** The pop is written in assembly: [rax] is the head, [rbx] its link. *)
Definition slab_alloc (slab : option Slab) : M (Z * option Slab) :=
  match slab with
  | None => ret (0, None)
  | Some s =>
      let rax := free_list s in
      if rax =? 0 then ret (0, slab)
      else
        do rbx <- load64 rax;
        let result := rax in
        ret (if negb (result =? 0) then wadd result HEADER_SIZE else 0,
             Some (mkSlab (memory s) (object_size s) (total_objects s) rbx))
  end.

(** The push is written in assembly as well.  Its template names the
    register [%rcx]: [movq %rax, (%rcx)] and [movq %rcx, free_list].  The
    operand list binds [obj] as [[rcx] "r" (obj)], which only gives the
    operand the name [rcx] and lets the compiler keep [obj] in any
    general register; the template never refers to that operand.  The
    address the head is stored to, and the new head, is therefore what
    [%rcx] holds when the statement runs: the argument [rcx] here.  It is
    [obj] in a build whose compiler picks [%rcx] for the operand. *)
Definition slab_free (rcx : Z) (slab : option Slab) (ptr : Z) : M (option Slab) :=
  match slab with
  | None => ret None
  | Some s =>
      if ptr =? 0 then ret slab
      else
        let obj := wsub ptr HEADER_SIZE in
        let rax := free_list s in
        run store64 rcx rax;
        ret (Some (mkSlab (memory s) (object_size s) (total_objects s) rcx))
  end.

Definition slab_reset (slab : option Slab) : M (option Slab) :=
  match slab with
  | None => ret None
  | Some s =>
      let mem := memory s in
      let osz := object_size s in
      run link_objects (Z.to_nat (wsub (total_objects s) 1)) 0 mem osz;
      let last_obj := wadd mem (wmul (wsub (total_objects s) 1) osz) in
      run store64 last_obj 0;
      run simd_memset mem 0 (wmul osz (total_objects s));
      ret (Some (mkSlab mem osz (total_objects s) mem))
  end.

End Slab.

(** ** The slab allocator on a file mapping ([Slab_allocate/slab_alloc.c]) *)

Module SlabMap.

Definition HEADER_SIZE : Z := 32.

Record Slab : Type := mkSlab {
  memory : Z;
  object_size : Z;
  total_objects : Z;
  free_list : Z;
  mappingHandle : Z
}.

Definition align_size (size : Z) : Z := wand (wadd size 15) (wnot 15).

(** [CreateFileMapping(INVALID_HANDLE_VALUE, NULL, PAGE_READWRITE, 0, low, NULL)]:
    [hmap] is the handle the system would give; a mapping of zero bytes
    is refused. *)
Definition CreateFileMapping (hmap low : Z) : M Z :=
  if low =? 0 then ret 0 else ret hmap.

(** [MapViewOfFile(h, FILE_MAP_ALL_ACCESS, 0, 0, bytes)] on a mapping of
    [mapping_size] bytes: a view cannot be larger than its mapping. *)
Definition MapViewOfFile (os mapping_size bytes : Z) : M Z :=
  if bytes >? mapping_size then ret 0 else VirtualAlloc os bytes.

(** [for (i = 0; i < total_objects; i++) *cell(i) = i < total_objects - 1 ? cell(i+1) : NULL] *)
Fixpoint link_objects (count : nat) (i mem osz total : Z) : M unit :=
  match count with
  | O => ret tt
  | S count' =>
      let current_obj := wadd mem (wmul i osz) in
      let next_obj := if i <? wsub total 1 then wadd mem (wmul (i + 1) osz) else 0 in
      run store64 current_obj next_obj;
      link_objects count' (i + 1) mem osz total
  end.

Definition slab_init (slab : option Slab) (total_objects object_size hmap os : Z)
  : M (Z * option Slab) :=
  match slab with
  | None => ret (0, None)
  | Some s =>
      if (total_objects =? 0) || (object_size <? 8) then ret (0, slab)
      else
        let osz := align_size object_size in
        let slab_memory_size := wmul osz total_objects in
        let low := slab_memory_size mod 2 ^ 32 in
        do h <- CreateFileMapping hmap low;
        if h =? 0 then ret (0, Some (mkSlab (memory s) osz total_objects (free_list s) h))
        else
          do mem <- MapViewOfFile os low slab_memory_size;
          if mem =? 0 then ret (0, Some (mkSlab mem osz total_objects (free_list s) h))
          else
            run link_objects (Z.to_nat total_objects) 0 mem osz total_objects;
            ret (1, Some (mkSlab mem osz total_objects mem h))
  end.

Definition slab_alloc (slab : option Slab) : M (Z * option Slab) :=
  match slab with
  | None => ret (0, None)
  | Some s =>
      let rax := free_list s in
      if rax =? 0 then ret (0, slab)
      else
        do rbx <- load64 rax;
        let result := rax in
        ret (if negb (result =? 0) then wadd result HEADER_SIZE else 0,
             Some (mkSlab (memory s) (object_size s) (total_objects s) rbx
                          (mappingHandle s)))
  end.

(** The same assembly as in the other variant: the store goes through
    [%rcx], whose content is the argument [rcx]; [obj] is bound to a
    register of the compiler's choice and not referred to. *)
Definition slab_free (rcx : Z) (slab : option Slab) (ptr : Z) : M (option Slab) :=
  match slab with
  | None => ret None
  | Some s =>
      if ptr =? 0 then ret slab
      else
        let obj := wsub ptr HEADER_SIZE in
        let rax := free_list s in
        run store64 rcx rax;
        ret (Some (mkSlab (memory s) (object_size s) (total_objects s) rcx
                          (mappingHandle s)))
  end.

Definition slab_reset (slab : option Slab) : M (option Slab) :=
  match slab with
  | None => ret None
  | Some s =>
      let mem := memory s in
      let osz := object_size s in
      run link_objects (Z.to_nat (total_objects s)) 0 mem osz (total_objects s);
      run simd_memset mem 0 (wmul osz (total_objects s));
      ret (Some (mkSlab mem osz (total_objects s) mem (mappingHandle s)))
  end.

End SlabMap.

(** ** The pool allocator *)

Module Pool.

Definition HEADER_SIZE : Z := 32.
Definition MIN_SPLIT_THRESHOLD : Z := 16.
(** [sizeof(PoolBlock)] *)
Definition SIZEOF_POOLBLOCK : Z := 32.

(** [struct Pool]; the critical section and the spin lock are left out. *)
Record Pool : Type := mkPool {
  block_head : Z;
  free_list : Z;
  initial_block_size : Z
}.

(** Field offsets of [struct BlockHeader] and [struct PoolBlock]. *)
Definition hdr_size (h : Z) : Z := h.
Definition hdr_padding (h : Z) : Z := wadd h 8.
Definition hdr_next_free (h : Z) : Z := wadd h 16.
Definition blk_base (b : Z) : Z := b.
Definition blk_size (b : Z) : Z := wadd b 8.
Definition blk_offset (b : Z) : Z := wadd b 16.
Definition blk_next (b : Z) : Z := wadd b 24.

(** The [while (current)] loop of [remove_free_block]. *)
Fixpoint remove_free_block_loop (fuel : nat) (pool : Pool) (prev current : Z)
    (alloc_size alignment : Z) : M (Z * Pool) :=
  match fuel with
  | O => crash OutOfFuel
  | S fuel' =>
      if current =? 0 then ret (0, pool)
      else
        let candidate_user_ptr := wadd current HEADER_SIZE in
        if alignment =? 0 then crash DivideByZero
        else
          do fits <-
            (if candidate_user_ptr mod alignment =? 0
             then do size <- load64 (hdr_size current); ret (size >=? alloc_size)
             else ret false);
          if (fits : bool) then
            do next_free <- load64 (hdr_next_free current);
            do pool1 <-
              (if prev =? 0
               then ret (mkPool (block_head pool) next_free (initial_block_size pool))
               else run store64 (hdr_next_free prev) next_free; ret pool);
            do size <- load64 (hdr_size current);
            do pool2 <-
              (if size >=? wadd (wadd alloc_size HEADER_SIZE) MIN_SPLIT_THRESHOLD then
                 let original_size := size in
                 run store64 (hdr_size current) alloc_size;
                 let leftover_addr := wadd (wadd current HEADER_SIZE) alloc_size in
                 let leftover_size := wsub (wsub original_size alloc_size) HEADER_SIZE in
                 run store64 (hdr_size leftover_addr) leftover_size;
                 run store64 (hdr_padding leftover_addr) 0;
                 run store64 (hdr_next_free leftover_addr) (free_list pool1);
                 ret (mkPool (block_head pool1) leftover_addr (initial_block_size pool1))
               else ret pool1);
            ret (wadd current HEADER_SIZE, pool2)
          else
            do next <- load64 (hdr_next_free current);
            remove_free_block_loop fuel' pool current next alloc_size alignment
  end.

Definition remove_free_block (fuel : nat) (pool : Pool) (alloc_size alignment : Z)
  : M (Z * Pool) :=
  remove_free_block_loop fuel pool 0 (free_list pool) alloc_size alignment.

(** The bump allocation is written in assembly; the registers keep
    their names. *)
Definition alloc_from_block (block_ptr alloc_size alignment : Z) : M Z :=
  do rax <- load64 (blk_offset block_ptr);
  let r12 := rax in
  do rdx <- load64 (blk_base block_ptr);
  let rax := wadd rax rdx in
  let rcx := rax in
  let rax := wadd rax 32 in
  let rbx := alignment in
  let r8 := wsub rbx 1 in
  let rax := wadd rax r8 in
  let r8 := wnot r8 in
  let rax := wand rax r8 in
  let r9 := rax in
  let r10 := wadd rcx 32 in
  let r11 := wsub r9 r10 in
  let r8 := wadd 32 r11 in
  let r8 := wadd r8 alloc_size in
  let r12 := wadd r12 r8 in
  do rdi <- load64 (blk_size block_ptr);
  if r12 >? rdi then ret 0
  else
    run store64 (blk_offset block_ptr) r12;
    let r10 := wsub r9 32 in
    run store64 (hdr_size r10) alloc_size;
    run store64 (hdr_padding r10) r11;
    run store64 (hdr_next_free r10) 0;
    ret r9.

(** First pass of [coalesce_free_list]: count the blocks. *)
Fixpoint count_free (fuel : nat) (cur count : Z) : M Z :=
  match fuel with
  | O => crash OutOfFuel
  | S fuel' =>
      if cur =? 0 then ret count
      else do next <- load64 (hdr_next_free cur); count_free fuel' next (count + 1)
  end.

(** Second pass: their addresses, in list order. *)
Fixpoint collect_free (fuel : nat) (cur : Z) : M (list Z) :=
  match fuel with
  | O => crash OutOfFuel
  | S fuel' =>
      if cur =? 0 then ret []
      else
        do next <- load64 (hdr_next_free cur);
        do rest <- collect_free fuel' next;
        ret (cur :: rest)
  end.

(** The comparison given to [qsort]. *)
Definition cmp (ua ub : Z) : Z := if ua <? ub then -1 else if ua >? ub then 1 else 0.

Fixpoint qsort_insert (x : Z) (l : list Z) : list Z :=
  match l with
  | [] => [x]
  | y :: l' => if cmp x y <=? 0 then x :: y :: l' else y :: qsort_insert x l'
  end.

(** [qsort(arr, count, sizeof(uintptr_t), cmp)]: the array in the order of [cmp]. *)
Definition qsort (l : list Z) : list Z := foldr qsort_insert [] l.

(** [for (i = 0; i < count - 1; i++)]: merge [arr[i+1]] into [arr[i]]
    when it starts where [arr[i]] ends. *)
Fixpoint merge_loop (count : nat) (i : nat) (arr : list Z) : M (list Z) :=
  match count with
  | O => ret arr
  | S count' =>
      let a := default 0 (arr !! i) in
      let b := default 0 (arr !! S i) in
      do a_size <- load64 (hdr_size a);
      let a_end := wadd (wadd a HEADER_SIZE) a_size in
      do arr' <-
        (if a_end =? b then
           do a_size' <- load64 (hdr_size a);
           do b_size <- load64 (hdr_size b);
           run store64 (hdr_size a) (wadd (wadd a_size' HEADER_SIZE) b_size);
           ret (<[S i := 0]> arr)
         else ret arr);
      merge_loop count' (S i) arr'
  end.

(** [for (i = 0; i < count; i++)]: chain the surviving entries. *)
Fixpoint rebuild_loop (arr : list Z) (new_free_list prev : Z) : M (Z * Z) :=
  match arr with
  | [] => ret (new_free_list, prev)
  | x :: rest =>
      if negb (x =? 0) then
        let cur_block := x in
        if new_free_list =? 0 then rebuild_loop rest cur_block cur_block
        else
          run store64 (hdr_next_free prev) cur_block;
          rebuild_loop rest new_free_list cur_block
      else rebuild_loop rest new_free_list prev
  end.

(** [malloc_ok] tells whether [malloc] gives the auxiliary array. *)
Definition coalesce_free_list (fuel : nat) (malloc_ok : bool) (pool : Pool) : M Pool :=
  do count <- count_free fuel (free_list pool) 0;
  if count =? 0 then ret pool
  else if negb malloc_ok then ret pool
  else
    do arr <- collect_free fuel (free_list pool);
    let arr := qsort arr in
    do arr <- merge_loop (Z.to_nat (count - 1)) 0 arr;
    do (new_free_list, prev) <- rebuild_loop arr 0 0;
    run (if negb (prev =? 0) then store64 (hdr_next_free prev) 0 else ret tt);
    ret (mkPool (block_head pool) new_free_list (initial_block_size pool)).

Definition pool_init (pool : option Pool) (pool_size os : Z) : M (Z * option Pool) :=
  match pool with
  | None => ret (0, None)
  | Some _ =>
      if pool_size =? 0 then ret (0, pool)
      else
        let block_total_size := wadd pool_size SIZEOF_POOLBLOCK in
        do block <- VirtualAlloc os block_total_size;
        if block =? 0 then ret (0, pool)
        else
          let base := wadd block SIZEOF_POOLBLOCK in
          let aligned_base := wand (wadd base 15) (wnot 15) in
          run store64 (blk_base block) aligned_base;
          run store64 (blk_size block) pool_size;
          run store64 (blk_offset block) 0;
          run store64 (blk_next block) 0;
          ret (1, Some (mkPool block 0 pool_size))
  end.

(** [while (block_ptr != 0)]: bump in the first region that has room. *)
Fixpoint bump_loop (fuel : nat) (block_ptr alloc_size alignment : Z) : M Z :=
  match fuel with
  | O => crash OutOfFuel
  | S fuel' =>
      if block_ptr =? 0 then ret 0
      else
        do result <- alloc_from_block block_ptr alloc_size alignment;
        if negb (result =? 0) then ret result
        else
          do next <- load64 (blk_next block_ptr);
          bump_loop fuel' next alloc_size alignment
  end.

(** [while (last->next != 0) last = last->next] *)
Fixpoint last_block (fuel : nat) (last : Z) : M Z :=
  match fuel with
  | O => crash OutOfFuel
  | S fuel' =>
      do next <- load64 (blk_next last);
      if next =? 0 then ret last else last_block fuel' next
  end.

Definition pool_alloc (fuel : nat) (pool : option Pool) (alloc_size alignment os : Z)
  : M (Z * option Pool) :=
  match pool with
  | None => ret (0, None)
  | Some p =>
      if (alloc_size =? 0) || negb (wand alignment (wsub alignment 1) =? 0)
      then ret (0, pool)
      else
        do (result, p) <- remove_free_block fuel p alloc_size alignment;
        if negb (result =? 0) then ret (result, Some p)
        else
          do result <- bump_loop fuel (block_head p) alloc_size alignment;
          if negb (result =? 0) then ret (result, Some p)
          else
            let new_block_size := initial_block_size p in
            let new_block_size :=
              if new_block_size <? wadd alloc_size HEADER_SIZE
              then wadd alloc_size HEADER_SIZE else new_block_size in
            let total_new_block_size := wadd new_block_size SIZEOF_POOLBLOCK in
            do new_block <- VirtualAlloc os total_new_block_size;
            if new_block =? 0 then ret (0, Some p)
            else
              run store64 (blk_base new_block)
                    (wand (wadd (wadd new_block SIZEOF_POOLBLOCK) 15) (wnot 15));
              run store64 (blk_size new_block) new_block_size;
              run store64 (blk_offset new_block) 0;
              run store64 (blk_next new_block) 0;
              do p <-
                (if block_head p =? 0
                 then ret (mkPool new_block (free_list p) (initial_block_size p))
                 else
                   do last <- last_block fuel (block_head p);
                   run store64 (blk_next last) new_block;
                   ret p);
              do result <- alloc_from_block new_block alloc_size alignment;
              ret (result, Some p)
  end.

Definition pool_free (fuel : nat) (malloc_ok : bool) (pool : option Pool) (ptr : Z)
  : M (option Pool) :=
  match pool with
  | None => ret None
  | Some p =>
      if ptr =? 0 then ret pool
      else
        let header_addr := wsub ptr HEADER_SIZE in
        run store64 (hdr_next_free header_addr) (free_list p);
        let p := mkPool (block_head p) header_addr (initial_block_size p) in
        do p <- coalesce_free_list fuel malloc_ok p;
        ret (Some p)
  end.

(** [while (block_ptr != 0)] of [pool_reset]. *)
Fixpoint reset_loop (fuel : nat) (block_ptr : Z) : M unit :=
  match fuel with
  | O => crash OutOfFuel
  | S fuel' =>
      if block_ptr =? 0 then ret tt
      else
        run store64 (blk_offset block_ptr) 0;
        do base <- load64 (blk_base block_ptr);
        do size <- load64 (blk_size block_ptr);
        run simd_memset base 0 size;
        do next <- load64 (blk_next block_ptr);
        reset_loop fuel' next
  end.

Definition pool_reset (fuel : nat) (pool : option Pool) : M (option Pool) :=
  match pool with
  | None => ret None
  | Some p =>
      let p := mkPool (block_head p) 0 (initial_block_size p) in
      run reset_loop fuel (block_head p);
      ret (Some p)
  end.

End Pool.

(** ** Observations and scenarios used in the statements *)

(** The memory a run left (the empty memory if it crashed). *)
Definition memory_after {A} (o : outcome (A * Memory)) : Memory :=
  match o with
  | Ok (_, m) => m
  | Crash _ => empty_memory
  end.

(** What a run returned, without the memory it left. *)
Definition returned {A} (o : outcome (A * Memory)) : outcome A :=
  match o with
  | Ok (a, _) => Ok a
  | Crash e => Crash e
  end.

Module SlabRuns.
Import Slab.

(** [n] calls of [slab_alloc] in a row; the pointers in call order. *)
Fixpoint alloc_many (n : nat) (slab : option Slab) : M (list Z * option Slab) :=
  match n with
  | O => ret ([], slab)
  | S n' =>
      do (p, slab) <- slab_alloc slab;
      do (ps, slab) <- alloc_many n' slab;
      ret (p :: ps, slab)
  end.

(** A client of one slab: it allocates, frees the pointer that its
    [k]-th allocation returned, or resets. *)
Inductive slab_op : Type :=
| OpAlloc
| OpFree (k : nat)
| OpReset.

(** What [%rcx] holds at the push of [slab_free] in a build that keeps
    [obj] in that register. *)
Definition obj_in_rcx (obj : Z) : Z := obj.

(** Runs the operations in order and collects what the allocations
    returned.  [rcx_of obj] is what [%rcx] holds at the push of a
    [slab_free] whose object address is [obj]. *)
Fixpoint run_ops (rcx_of : Z → Z) (ops : list slab_op) (slab : option Slab) (got : list Z)
  : M (list Z) :=
  match ops with
  | [] => ret got
  | OpAlloc :: ops' =>
      do (p, slab) <- slab_alloc slab;
      run_ops rcx_of ops' slab (got ++ [p])
  | OpFree k :: ops' =>
      let ptr := default 0 (got !! k) in
      do slab <- slab_free (rcx_of (wsub ptr HEADER_SIZE)) slab ptr;
      run_ops rcx_of ops' slab got
  | OpReset :: ops' =>
      do slab <- slab_reset slab;
      run_ops rcx_of ops' slab got
  end.

(** The address of cell [i]. *)
Definition cell (s : Slab) (i : Z) : Z := memory s + i * object_size s.

(** The link word of every cell holds the address of the next cell, the
    one of the last cell holds null: the free list [slab_init] builds. *)
Definition links_ascending (s : Slab) (m : Memory) : Prop :=
  ∀ j, 0 ≤ j < total_objects s →
    valid m (cell s j) 8 = true ∧
    load_le 8 (contents m) (cell s j) =
      (if j + 1 <? total_objects s then cell s (j + 1) else 0).

(** The slab with its free-list head at cell [i] (null from [total_objects] on). *)
Definition with_head_at (s : Slab) (i : Z) : Slab :=
  mkSlab (memory s) (object_size s) (total_objects s)
         (if i <? total_objects s then cell s i else 0).

(** The slab with another free-list head. *)
Definition set_head (s : Slab) (head : Z) : Slab :=
  mkSlab (memory s) (object_size s) (total_objects s) head.

(** [a] is null or the address of a cell. *)
Definition null_or_cell (s : Slab) (a : Z) : Prop :=
  a = 0 ∨ ∃ j, 0 ≤ j < total_objects s ∧ a = cell s j.

(** [p] is null or the user pointer of a cell. *)
Definition null_or_object (s : Slab) (p : Z) : Prop :=
  p = 0 ∨ ∃ j, 0 ≤ j < total_objects s ∧ p = cell s j + HEADER_SIZE.

(** The geometry of an initialised slab: its region is mapped, lies in
    the address space, starts on a 32-byte boundary and is cut into
    cells of a multiple of 16 bytes. *)
Record slab_shape (s : Slab) (m : Memory) : Prop := mkShape {
  shape_mapped : In (memory s, object_size s * total_objects s) (mapped m);
  shape_base : 0 < memory s;
  shape_end : memory s + object_size s * total_objects s ≤ USER_SPACE_END;
  shape_aligned : memory s mod 32 = 0;
  shape_cell : 16 ≤ object_size s ∧ object_size s mod 16 = 0;
  shape_count : 1 ≤ total_objects s
}.

(** The free-list head and every cell's link word are null or a cell. *)
Record slab_links (s : Slab) (m : Memory) : Prop := mkLinks {
  links_head : null_or_cell s (free_list s);
  links_cells : ∀ j, 0 ≤ j < total_objects s →
                  null_or_cell s (load_le 8 (contents m) (cell s j))
}.

Definition unused_slab : Slab := mkSlab 0 0 0 0.

(** Fill a slab of [n] objects of [size] bytes, reset it, and allocate
    [n] times again: the pointers before and after the reset. *)
Definition fill_reset_fill (n : nat) (size os : Z) : M (list Z * list Z) :=
  do (_, slab) <- slab_init (Some unused_slab) (Z.of_nat n) size os;
  do (before, slab) <- alloc_many n slab;
  do slab <- slab_reset slab;
  do (after, slab) <- alloc_many n slab;
  ret (before, after).

(** A slab of 3 objects of 64 bytes is filled, a fourth allocation finds
    it empty, the first pointer is freed while [%rcx] holds [rcx], and
    two more allocations follow: the pointers before and after the free. *)
Definition fill_free_alloc (rcx : Z) : M (list Z * list Z) :=
  do (_, slab) <- slab_init (Some unused_slab) 3 64 65536;
  do (before, slab) <- alloc_many 4 slab;
  do slab <- slab_free rcx slab (default 0 (before !! 0%nat));
  do (after, slab) <- alloc_many 2 slab;
  ret (before, after).

End SlabRuns.

Module SlabMapRuns.
Import SlabMap.

Fixpoint alloc_many (n : nat) (slab : option Slab) : M (list Z * option Slab) :=
  match n with
  | O => ret ([], slab)
  | S n' =>
      do (p, slab) <- slab_alloc slab;
      do (ps, slab) <- alloc_many n' slab;
      ret (p :: ps, slab)
  end.

Definition unused_slab : Slab := mkSlab 0 0 0 0 0.

Definition fill_reset_fill (n : nat) (size hmap os : Z) : M (list Z * list Z) :=
  do (_, slab) <- slab_init (Some unused_slab) (Z.of_nat n) size hmap os;
  do (before, slab) <- alloc_many n slab;
  do slab <- slab_reset slab;
  do (after, slab) <- alloc_many n slab;
  ret (before, after).
End SlabMapRuns.

Module PoolRuns.
Import Pool.

(** The region chain as (PoolBlock address, base, size, bump offset). *)
Fixpoint region_chain (fuel : nat) (block_ptr : Z) : M (list (Z * Z * Z * Z)) :=
  match fuel with
  | O => crash OutOfFuel
  | S fuel' =>
      if block_ptr =? 0 then ret []
      else
        do base <- load64 (blk_base block_ptr);
        do size <- load64 (blk_size block_ptr);
        do offset <- load64 (blk_offset block_ptr);
        do next <- load64 (blk_next block_ptr);
        do rest <- region_chain fuel' next;
        ret ((block_ptr, base, size, offset) :: rest)
  end.

(** The free list as (header address, payload size), from the head. *)
Fixpoint free_blocks (fuel : nat) (cur : Z) : M (list (Z * Z)) :=
  match fuel with
  | O => crash OutOfFuel
  | S fuel' =>
      if cur =? 0 then ret []
      else
        do size <- load64 (hdr_size cur);
        do next <- load64 (hdr_next_free cur);
        do rest <- free_blocks fuel' next;
        ret ((cur, size) :: rest)
  end.

(** What a caller can observe of a pool: the handle's fields, the
    region chain and the free list. *)
Definition observe (fuel : nat) (pool : option Pool) : M (option Pool * list (Z * Z * Z * Z) * list (Z * Z)) :=
  match pool with
  | None => ret (None, [], [])
  | Some p =>
      do chain <- region_chain fuel (block_head p);
      do frees <- free_blocks fuel (free_list p);
      ret (pool, chain, frees)
  end.

Definition unused_pool : Pool := mkPool 0 0 0.

(** A fresh pool of 4096 bytes whose region the system put at 0x10000. *)
Definition fresh_pool : M (option Pool) :=
  do (_, pool) <- pool_init (Some unused_pool) 4096 65536;
  ret pool.

(** One [pool_alloc] on the fresh pool, the system offering 0x20000 for a
    new region: the result and the pool observed before and after. *)
Definition alloc_on_fresh_pool (alloc_size alignment : Z) :=
  do pool <- fresh_pool;
  do before <- observe 8 pool;
  do (result, pool) <- pool_alloc 8 pool alloc_size alignment 131072;
  do after <- observe 8 pool;
  ret (result, before, after).

(** Three neighbouring blocks, freed first, last, middle. *)
Definition free_first_last_middle : M (list (Z * Z)) :=
  do pool <- fresh_pool;
  do (a, pool) <- pool_alloc 8 pool 64 16 0;
  do (b, pool) <- pool_alloc 8 pool 64 16 0;
  do (c, pool) <- pool_alloc 8 pool 64 16 0;
  do pool <- pool_free 8 true pool a;
  do pool <- pool_free 8 true pool c;
  do pool <- pool_free 8 true pool b;
  do (_, _, frees) <- observe 8 pool;
  ret frees.

(** The same three blocks with only the first and the last freed. *)
Definition free_first_last : M (list (Z * Z)) :=
  do pool <- fresh_pool;
  do (a, pool) <- pool_alloc 8 pool 64 16 0;
  do (b, pool) <- pool_alloc 8 pool 64 16 0;
  do (c, pool) <- pool_alloc 8 pool 64 16 0;
  do pool <- pool_free 8 true pool a;
  do pool <- pool_free 8 true pool c;
  do (_, _, frees) <- observe 8 pool;
  ret frees.

(** Two neighbouring blocks, freed in allocation order. *)
Definition free_two_neighbours : M (list (Z * Z)) :=
  do pool <- fresh_pool;
  do (a, pool) <- pool_alloc 8 pool 64 16 0;
  do (b, pool) <- pool_alloc 8 pool 64 16 0;
  do pool <- pool_free 8 true pool a;
  do pool <- pool_free 8 true pool b;
  do (_, _, frees) <- observe 8 pool;
  ret frees.

(** [pool_alloc] on a pool that has one block on its free list. *)
Definition alloc_with_free_block (alloc_size alignment : Z) : M Z :=
  do pool <- fresh_pool;
  do (a, pool) <- pool_alloc 8 pool 64 16 0;
  do pool <- pool_free 8 true pool a;
  do (result, _) <- pool_alloc 8 pool alloc_size alignment 131072;
  ret result.

(** [alignment] is one of 1, 2, 4, ..., 2^63. *)
Definition power_of_two (alignment : Z) : Prop := ∃ k, 0 ≤ k < 64 ∧ alignment = 2 ^ k.
End PoolRuns.

(** Every stored value is a byte. *)
Definition bytes_ok (m : Memory) : Prop :=
  map_Forall (λ _ b, 0 ≤ b < 256) (contents m).

(** Two neighbouring blocks of 64 bytes on a fresh pool, the first one
    freed: the memory in which the second is about to be freed. *)
Definition free_first_neighbour : M (option Pool.Pool) :=
  do pool <- PoolRuns.fresh_pool;
  do (a, pool) <- Pool.pool_alloc 8 pool 64 16 0;
  do (b, pool) <- Pool.pool_alloc 8 pool 64 16 0;
  Pool.pool_free 8 true pool a.

(** A region of a pool as [PoolRuns.region_chain] reports it: the
    address of its [PoolBlock], its base, its size and its bump offset. *)
Definition region : Type := Z * Z * Z * Z.

(** [x] lies in the region: in its [PoolBlock] or in its usable bytes. *)
Definition inside_region (x : Z) (r : region) : Prop :=
  let '(b, _, size, _) := r in b ≤ x < b + 32 + size.

(** [x] is one of the usable bytes of the region. *)
Definition in_usable (x : Z) (r : region) : Prop :=
  let '(_, base, size, _) := r in base ≤ x < base + size.

Definition zero_offset (r : region) : region :=
  let '(b, base, size, _) := r in (b, base, size, 0).

(** Two regions that do not overlap. *)
Definition apart (r r' : region) : Prop :=
  let '(b, _, size, _) := r in
  let '(b', _, size', _) := r' in
  b + 32 + size ≤ b' ∨ b' + 32 + size' ≤ b.

(** The regions as [pool_init] and [pool_alloc] lay them out: each is one
    mapping of the system, headed by its [PoolBlock], the usable bytes
    following 32 bytes in; no two overlap. *)
Fixpoint chain_ok (m : Memory) (l : list region) : Prop :=
  match l with
  | [] => True
  | r :: rest =>
      (let '(b, base, size, _) := r in
       0 < b ∧ base = b + 32 ∧ 0 ≤ size ∧ In (b, size + 32) (mapped m)) ∧
      Forall (apart r) rest ∧
      chain_ok m rest
  end.

(** [VirtualFree(addr, 0, MEM_RELEASE)]: releases the region that starts
    at [addr]; any other address is refused and nothing changes. *)
Definition VirtualFree (addr : Z) : M Z :=
  λ m, if existsb (λ r, fst r =? addr) (mapped m)
       then Ok (1, mkMemory (contents m)
                            (List.filter (λ r, negb (fst r =? addr)) (mapped m)))
       else Ok (0, m).

Module SlabDestroy.
Import Slab.


End SlabDestroy.

Module PoolDestroy.
Import Pool.

(** [while (block_ptr != 0)] of [pool_destroy]: the link is read before
    the region is released. *)
Fixpoint destroy_loop (fuel : nat) (block_ptr : Z) : M unit :=
  match fuel with
  | O => crash OutOfFuel
  | S fuel' =>
      if block_ptr =? 0 then ret tt
      else
        do next <- load64 (blk_next block_ptr);
        run VirtualFree block_ptr;
        destroy_loop fuel' next
  end.

Definition pool_destroy (fuel : nat) (pool : option Pool) : M (option Pool) :=
  match pool with
  | None => ret None
  | Some p =>
      run destroy_loop fuel (block_head p);
      ret (Some (mkPool 0 0 (initial_block_size p)))
  end.

End PoolDestroy.

(** The two slab variants differ in how the region is obtained and in
    the mapping handle that the file-mapping variant keeps. *)
Module SlabVariants.

Definition forget (s : SlabMap.Slab) : Slab.Slab :=
  Slab.mkSlab (SlabMap.memory s) (SlabMap.object_size s) (SlabMap.total_objects s)
              (SlabMap.free_list s).

Definition with_handle (h : Z) (s : Slab.Slab) : SlabMap.Slab :=
  SlabMap.mkSlab (Slab.memory s) (Slab.object_size s) (Slab.total_objects s)
                 (Slab.free_list s) h.

(** An outcome of the [VirtualAlloc] variant, read as one of the
    file-mapping variant whose handle is [h]. *)
Definition lift_slab (h : Z) (o : outcome (option Slab.Slab * Memory))
  : outcome (option SlabMap.Slab * Memory) :=
  match o with
  | Ok (s, m) => Ok (with_handle h <$> s, m)
  | Crash e => Crash e
  end.

Definition lift_result (h : Z) (o : outcome (Z * option Slab.Slab * Memory))
  : outcome (Z * option SlabMap.Slab * Memory) :=
  match o with
  | Ok (r, s, m) => Ok (r, with_handle h <$> s, m)
  | Crash e => Crash e
  end.

End SlabVariants.

(** The pointer a bump allocation in the region returns: the first
    multiple of [alignment] at or after [base + offset + 32]. *)
Definition bump_pointer (alignment : Z) (r : region) : Z :=
  let '(_, base, _, off) := r in
  (base + off + 32 + alignment - 1) / alignment * alignment.

(** The request, placed at the bump pointer, ends inside the region. *)
Definition has_room (size alignment : Z) (r : region) : Prop :=
  let '(_, base, rsize, _) := r in
  bump_pointer alignment r + size ≤ base + rsize.

(** The region after the bump: its offset is at the end of the request. *)
Definition bumped (size alignment : Z) (r : region) : region :=
  let '(b, base, rsize, _) := r in
  (b, base, rsize, bump_pointer alignment r + size - base).

(** Every bump offset lies inside its region. *)
Definition offsets_ok (l : list region) : Prop :=
  Forall (λ r : region, let '(_, _, rsize, off) := r in 0 ≤ off ≤ rsize) l.

(** A client that only allocates from a pool. *)
Module PoolClient.
Import Pool.

(** A request: the size, the alignment, and the address the system
    would offer should the pool have to grow. *)
Definition request : Type := Z * Z * Z.

Definition request_ok (q : request) : Prop :=
  let '(size, alignment, _) := q in
  PoolRuns.power_of_two alignment ∧ 0 < size ∧ alignment + size < 2 ^ 62.

(** The requests served in order; the pointers in call order. *)
Fixpoint alloc_all (fuel : nat) (reqs : list request) (pool : option Pool) : M (list Z) :=
  match reqs with
  | [] => ret []
  | (size, alignment, os) :: rest =>
      do (r, pool) <- pool_alloc fuel pool size alignment os;
      do rs <- alloc_all fuel rest pool;
      ret (r :: rs)
  end.

(** [x] lies in the part of a region that the bump offset has passed. *)
Definition used (l : list region) (x : Z) : Prop :=
  ∃ b base rsize off, In (b, base, rsize, off) l ∧ base ≤ x < base + off.

(** The state of a pool that has served allocations only: no free list,
    and a chain of well-placed regions that [region_chain] reads back. *)
Definition pool_inv (p : Pool) (m : Memory) (l : list region) : Prop :=
  free_list p = 0 ∧ 0 ≤ initial_block_size p < 2 ^ 62 ∧
  user_space m = true ∧ chain_ok m l ∧ offsets_ok l ∧
  PoolRuns.region_chain (S (length l)) (block_head p) m = Ok (l, m).

(** The blocks [(pointer, size)] that are not null do not overlap. *)
Fixpoint blocks_apart (blocks : list (Z * Z)) : Prop :=
  match blocks with
  | [] => True
  | (r, size) :: rest =>
      Forall (λ b' : Z * Z, r ≠ 0 → b'.1 ≠ 0 → r + size ≤ b'.1 ∨ b'.1 + b'.2 ≤ r) rest ∧
      blocks_apart rest
  end.

End PoolClient.

(** * Properties *)

(** ** The monad *)

Lemma bind_Ok {A B} (c : M A) (f : A → M B) m b m' :
  bind c f m = Ok (b, m') → ∃ a m1, c m = Ok (a, m1) ∧ f a m1 = Ok (b, m').
Proof.
  unfold bind. destruct (c m) as [[a m1]|e]; [eauto | discriminate].
Qed.

Lemma bind_step {A B} (c : M A) (f : A → M B) m a m1 :
  c m = Ok (a, m1) → bind c f m = f a m1.
Proof. unfold bind. now intros ->. Qed.

Lemma ret_Ok {A} (a b : A) m m' : ret a m = Ok (b, m') → a = b ∧ m = m'.
Proof. unfold ret. intros H. injection H. auto. Qed.

(** Splits a hypothesis [bind c f m = Ok _] into the two runs. *)
Ltac inv_bind H :=
  let a := fresh "a" in
  let m := fresh "m" in
  let H1 := fresh "Hrun" in
  apply bind_Ok in H as (a & m & H1 & H).

(** ** Words *)

Lemma WORD_eq : WORD = 18446744073709551616.
Proof. reflexivity. Qed.

(** [lia] with the value of [WORD]. *)
Ltac word_lia := pose proof WORD_eq; lia.

Lemma wrap_small x : 0 ≤ x < WORD → wrap x = x.
Proof. intros. unfold wrap. now apply Z.mod_small. Qed.

Lemma wrap_unique x q r : x = WORD * q + r → 0 ≤ r < WORD → wrap x = r.
Proof. intros Hx Hr. unfold wrap. symmetry. apply Z.mod_unique with q; lia. Qed.

Lemma wadd_small x y : 0 ≤ x + y < WORD → wadd x y = x + y.
Proof. apply wrap_small. Qed.

Lemma wsub_small x y : 0 ≤ x - y < WORD → wsub x y = x - y.
Proof. apply wrap_small. Qed.

Lemma wmul_small x y : 0 ≤ x * y < WORD → wmul x y = x * y.
Proof. apply wrap_small. Qed.

(** Clearing the low [k] bits of a word leaves a multiple of [2^k]. *)
Lemma wand_wnot_mask k x :
  0 ≤ k < 64 → wand x (wnot (2 ^ k - 1)) mod 2 ^ k = 0.
Proof.
  intros Hk. unfold wand, wnot.
  rewrite <- Z.land_ones by lia.
  rewrite <- Z.land_assoc.
  replace (Z.land (WORD - 1 - (2 ^ k - 1)) (Z.ones k)) with 0; [apply Z.land_0_r |].
  rewrite Z.land_ones by lia.
  replace (WORD - 1 - (2 ^ k - 1)) with ((2 ^ (64 - k) - 1) * 2 ^ k).
  - now rewrite Z.mod_mul by lia.
  - unfold WORD. replace 64 with ((64 - k) + k) at 2 by lia.
    rewrite Z.pow_add_r by lia. lia.
Qed.

(** [x & ~15] is [x] rounded down to a multiple of 16. *)
Lemma wand_wnot_15 x : 0 ≤ x < WORD → wand x (wnot 15) = 16 * (x / 16).
Proof.
  intros Hx. unfold wand, wnot.
  change (WORD - 1 - 15) with (Z.shiftl (Z.ones 60) 4).
  apply Z.bits_inj'. intros n Hn.
  rewrite Z.land_spec, Z.shiftl_spec by lia.
  replace (16 * (x / 16)) with (Z.shiftl (Z.shiftr x 4) 4)
    by (rewrite Z.shiftl_mul_pow2, Z.shiftr_div_pow2 by lia; change (2 ^ 4) with 16; lia).
  rewrite Z.shiftl_spec by lia.
  destruct (Z.lt_ge_cases n 4) as [Hlt | Hge].
  - rewrite (Z.testbit_neg_r (Z.ones 60)), (Z.testbit_neg_r (Z.shiftr x 4)) by lia.
    apply andb_false_r.
  - rewrite Z.shiftr_spec by lia. replace (n - 4 + 4) with n by lia.
    destruct (Z.lt_ge_cases n 64) as [Hlt | Hge'].
    + rewrite Z.ones_spec_low by lia. apply andb_true_r.
    + rewrite Z.ones_spec_high by lia. rewrite andb_false_r.
      symmetry. apply Z.bits_above_log2; [lia |].
      destruct (Z.eq_dec x 0) as [-> | Hx0]; [simpl; lia |].
      apply Z.log2_lt_pow2; [lia |].
      apply Z.lt_le_trans with (2 ^ 64); [apply Hx |].
      apply Z.pow_le_mono_r; lia.
Qed.

(** ** Memory *)

Lemma byte_at_insert_eq h a b : byte_at (<[a := b]> h) a = b.
Proof. unfold byte_at. now rewrite lookup_insert_eq. Qed.

Lemma byte_at_insert_ne h a b x : a ≠ x → byte_at (<[a := b]> h) x = byte_at h x.
Proof. intros. unfold byte_at. now rewrite lookup_insert_ne. Qed.

Lemma byte_at_store_le n : ∀ a v h x,
  byte_at (store_le n a v h) x =
  if decide (a ≤ x < a + Z.of_nat n) then (v / 256 ^ (x - a)) mod 256 else byte_at h x.
Proof.
  induction n as [|n IH]; intros a v h x.
  - simpl. case_decide; [lia | reflexivity].
  - cbn [store_le]. destruct (decide (a = x)) as [<- | Hne].
    + rewrite byte_at_insert_eq. rewrite decide_True by lia.
      now rewrite Z.sub_diag, Z.pow_0_r, Z.div_1_r.
    + rewrite byte_at_insert_ne by exact Hne. rewrite IH.
      destruct (decide (a ≤ x < a + Z.of_nat (S n))) as [Hin | Hout].
      * rewrite decide_True by lia.
        rewrite Z.div_div by lia.
        replace (256 * 256 ^ (x - (a + 1))) with (256 ^ (x - a)); [reflexivity |].
        replace (x - a) with (1 + (x - (a + 1))) by lia.
        rewrite Z.pow_add_r by lia. reflexivity.
      * rewrite decide_False by lia. reflexivity.
Qed.

Lemma byte_at_fill n : ∀ a b h x,
  byte_at (fill n a b h) x =
  if decide (a ≤ x < a + Z.of_nat n) then b else byte_at h x.
Proof.
  induction n as [|n IH]; intros a b h x.
  - simpl. case_decide; [lia | reflexivity].
  - cbn [fill]. destruct (decide (a = x)) as [<- | Hne].
    + rewrite byte_at_insert_eq. now rewrite decide_True by lia.
    + rewrite byte_at_insert_ne by exact Hne. rewrite IH.
      destruct (decide (a ≤ x < a + Z.of_nat (S n))).
      * now rewrite decide_True by lia.
      * now rewrite decide_False by lia.
Qed.

Lemma load_le_ext n : ∀ h h' a,
  (∀ x, a ≤ x < a + Z.of_nat n → byte_at h x = byte_at h' x) →
  load_le n h a = load_le n h' a.
Proof.
  induction n as [|n IH]; intros h h' a Hext; [reflexivity |].
  cbn [load_le]. rewrite (Hext a) by lia. f_equal. f_equal.
  apply IH. intros x Hx. apply Hext. lia.
Qed.

Lemma load_le_bytes n : ∀ h a v,
  (∀ x, a ≤ x < a + Z.of_nat n → byte_at h x = (v / 256 ^ (x - a)) mod 256) →
  load_le n h a = v mod 256 ^ Z.of_nat n.
Proof.
  induction n as [|n IH]; intros h a v Hb.
  - simpl. now rewrite Z.mod_1_r.
  - cbn [load_le]. rewrite (Hb a) by lia.
    rewrite Z.sub_diag, Z.pow_0_r, Z.div_1_r.
    rewrite (IH h (a + 1) (v / 256)).
    + rewrite Nat2Z.inj_succ, Z.pow_succ_r by lia.
      rewrite (Z.rem_mul_r v 256 (256 ^ Z.of_nat n)) by lia. reflexivity.
    + intros x Hx. rewrite Hb by lia.
      rewrite Z.div_div by lia.
      replace (x - a) with (1 + (x - (a + 1))) by lia.
      rewrite Z.pow_add_r by lia. reflexivity.
Qed.

Lemma load_le_zero n : ∀ h a,
  (∀ x, a ≤ x < a + Z.of_nat n → byte_at h x = 0) → load_le n h a = 0.
Proof.
  induction n as [|n IH]; intros h a Hz; [reflexivity |].
  cbn [load_le]. rewrite (Hz a) by lia. rewrite IH; [lia |].
  intros x Hx. apply Hz. lia.
Qed.

Lemma load_store_same a v h : 0 ≤ v < WORD → load_le 8 (store_le 8 a v h) a = v.
Proof.
  intros Hv. rewrite (load_le_bytes 8 _ a v).
  - apply Z.mod_small. exact Hv.
  - intros x Hx. rewrite byte_at_store_le. now rewrite decide_True by lia.
Qed.

Lemma load_store_other a v h a' :
  a' + 8 ≤ a ∨ a + 8 ≤ a' → load_le 8 (store_le 8 a v h) a' = load_le 8 h a'.
Proof.
  intros Hd. apply load_le_ext. intros x Hx.
  rewrite byte_at_store_le. now rewrite decide_False by lia.
Qed.

Lemma load64_Ok a m : valid m a 8 = true → load64 a m = Ok (load_le 8 (contents m) a, m).
Proof. unfold load64. now intros ->. Qed.

Lemma store64_Ok a v m :
  valid m a 8 = true →
  store64 a v m = Ok (tt, mkMemory (store_le 8 a v (contents m)) (mapped m)).
Proof. unfold store64. now intros ->. Qed.

Lemma load64_inv a m v m' : load64 a m = Ok (v, m') → m' = m ∧ v = load_le 8 (contents m) a.
Proof.
  unfold load64. destruct (valid m a 8); [|discriminate].
  intros H. injection H. auto.
Qed.

Lemma page_round_ge n : n ≤ page_round n.
Proof.
  unfold page_round, PAGE_SIZE.
  pose proof (Z.div_mod (n + (4096 - 1)) 4096 ltac:(lia)).
  pose proof (Z.mod_pos_bound (n + (4096 - 1)) 4096 ltac:(lia)). lia.
Qed.

Lemma store64_inv a v m u m' :
  store64 a v m = Ok (u, m') →
  valid m a 8 = true ∧ m' = mkMemory (store_le 8 a v (contents m)) (mapped m).
Proof.
  unfold store64. destruct (valid m a 8); [|discriminate].
  intros H. injection H. auto.
Qed.

Lemma store64_mapped a v m u m' : store64 a v m = Ok (u, m') → mapped m' = mapped m.
Proof. intros H. apply store64_inv in H as [_ ->]. reflexivity. Qed.

(** ** Freeing a null pointer *)

(** C10: [slab_free] with a null object pointer and [pool_free] with user
    pointer 0 return at once and change nothing: the handle (with its
    free-list head) and the whole memory, which holds the region chain,
    every bump offset and the free-list links, are as before.  Both
    variants of the slab allocator are covered, whatever [%rcx] holds. *)
Theorem free_null_changes_nothing :
  (∀ rcx slab m, Slab.slab_free rcx slab 0 m = Ok (slab, m)) ∧
  (∀ rcx slab m, SlabMap.slab_free rcx slab 0 m = Ok (slab, m)) ∧
  (∀ fuel malloc_ok pool m, Pool.pool_free fuel malloc_ok pool 0 m = Ok (pool, m)).
Proof.
  repeat split.
  - intros rcx [s|] m; reflexivity.
  - intros rcx [s|] m; reflexivity.
  - intros fuel malloc_ok [p|] m; reflexivity.
Qed.

(** ** The cell size chosen by [slab_init] *)

Section SlabInit.
Import Slab.

Lemma link_objects_mapped count : ∀ i mem osz m u m',
  link_objects count i mem osz m = Ok (u, m') → mapped m' = mapped m.
Proof.
  induction count as [|count IH]; intros i mem osz m u m' H.
  - apply ret_Ok in H as [_ ->]. reflexivity.
  - cbn [link_objects] in H. inv_bind H.
    apply store64_mapped in Hrun. apply IH in H. congruence.
Qed.

Lemma align_size_round osz :
  0 ≤ osz → osz + 15 < WORD → align_size osz = 16 * ((osz + 15) / 16).
Proof.
  intros H0 H1. unfold align_size. rewrite wadd_small by lia.
  apply wand_wnot_15. lia.
Qed.

Lemma align_size_overflow osz :
  osz < WORD → WORD ≤ osz + 15 → align_size osz = 0.
Proof.
  intros H0 H1. unfold align_size, wadd, wrap.
  replace ((osz + 15) mod WORD) with (osz + 15 - WORD).
  - rewrite wand_wnot_15 by word_lia. rewrite Z.div_small by word_lia. reflexivity.
  - apply Z.mod_unique with 1; word_lia.
Qed.

Lemma VirtualAlloc_inv os bytes m r m' :
  VirtualAlloc os bytes m = Ok (r, m') →
  (r = 0 ∧ m' = m) ∨
  (r = os ∧ os_grants m os bytes = true ∧
   m' = mkMemory (fresh_pages os (page_round bytes) (contents m)) ((os, bytes) :: mapped m)).
Proof.
  unfold VirtualAlloc. destruct (os_grants m os bytes) eqn:Hg; intros H; injection H; auto.
Qed.

Lemma os_grants_facts m os bytes :
  os_grants m os bytes = true →
  0 < bytes ∧ 0 < os ∧ os mod ALLOCATION_GRANULARITY = 0 ∧
  os + page_round bytes ≤ USER_SPACE_END.
Proof.
  unfold os_grants. rewrite !andb_true_iff.
  intros ((((H1 & H2) & H3) & H4) & _).
  apply Z.ltb_lt in H1, H2. apply Z.eqb_eq in H3. apply Z.leb_le in H4. auto.
Qed.

(** What a successful [slab_init] leaves: the slab structure and the
    memory after the links were written. *)
Lemma slab_init_success s0 N osz os m slab m1 :
  1 ≤ N < WORD → 8 ≤ osz < WORD →
  slab_init (Some s0) N osz os m = Ok ((1, slab), m1) →
  let csz := align_size osz in
  let m0 := mkMemory (fresh_pages os (page_round (wmul csz N)) (contents m))
                     ((os, wmul csz N) :: mapped m) in
  slab = Some (mkSlab os csz N os) ∧
  os_grants m os (wmul csz N) = true ∧
  ∃ m0', link_objects (Z.to_nat (wsub N 1)) 0 os csz m0 = Ok (tt, m0') ∧
         store64 (wadd os (wmul (wsub N 1) csz)) 0 m0' = Ok (tt, m1).
Proof.
  intros HN Hosz H. cbn zeta. unfold slab_init in H.
  replace (N =? 0) with false in H by (symmetry; apply Z.eqb_neq; lia).
  replace (osz <? 8) with false in H by (symmetry; apply Z.ltb_ge; lia).
  cbn [orb] in H. inv_bind H.
  apply VirtualAlloc_inv in Hrun as [[-> ->] | (-> & Hg & ->)].
  - cbn in H. apply ret_Ok in H as [H _]. discriminate.
  - pose proof (os_grants_facts _ _ _ Hg) as (_ & Hos & _).
    replace (os =? 0) with false in H by (symmetry; apply Z.eqb_neq; lia).
    inv_bind H. inv_bind H. apply ret_Ok in H as [H <-].
    injection H as <-. destruct a, a0. eauto.
Qed.

Lemma valid_user_space m a n :
  user_space m = true → valid m a n = true → 0 ≤ a ∧ a + n ≤ USER_SPACE_END.
Proof.
  unfold user_space, valid. intros Hu Hv.
  apply existsb_exists in Hv as (r & Hin & Hr).
  rewrite forallb_forall in Hu. specialize (Hu r Hin).
  unfold in_region in Hr.
  apply andb_true_iff in Hu as [H1 H2]. apply andb_true_iff in Hr as [H3 H4].
  apply Z.leb_le in H1, H2, H3, H4. lia.
Qed.

Lemma valid_mapped m m' a n : mapped m' = mapped m → valid m' a n = valid m a n.
Proof. unfold valid. now intros ->. Qed.

Lemma link_objects_valid count : ∀ i mem csz m u m',
  link_objects count i mem csz m = Ok (u, m') →
  ∀ j, i ≤ j < i + Z.of_nat count → valid m (wadd mem (wmul j csz)) 8 = true.
Proof.
  induction count as [|count IH]; intros i mem csz m u m' H j Hj; [lia |].
  cbn [link_objects] in H. inv_bind H.
  pose proof (store64_inv _ _ _ _ _ Hrun) as [Hvalid ->].
  destruct (Z.eq_dec j i) as [-> | Hne]; [exact Hvalid |].
  rewrite <- (valid_mapped m (mkMemory (store_le 8 (wadd mem (wmul i csz)) (wadd mem (wmul (i + 1) csz)) (contents m)) (mapped m))) by reflexivity.
  apply (IH _ _ _ _ _ _ H). lia.
Qed.

Lemma slab_init_guard s0 N osz os m slab m1 :
  slab_init (Some s0) N osz os m = Ok ((1, slab), m1) → N ≠ 0 ∧ 8 ≤ osz.
Proof.
  unfold slab_init. intros H.
  destruct (Z.eqb_spec N 0) as [-> | HN]; cbn [orb] in H.
  { apply ret_Ok in H as [H _]. discriminate. }
  destruct (Z.ltb_spec osz 8) as [Hlt | Hge].
  { apply ret_Ok in H as [H _]. discriminate. }
  auto.
Qed.

Lemma user_space_VirtualAlloc m os bytes h :
  user_space m = true → os_grants m os bytes = true →
  user_space (mkMemory h ((os, bytes) :: mapped m)) = true.
Proof.
  intros Hu Hg. apply os_grants_facts in Hg as (_ & Hos & _ & Hend).
  unfold user_space. cbn [mapped forallb fst snd].
  apply andb_true_iff. split; [| exact Hu].
  apply andb_true_iff. split; apply Z.leb_le; lia.
Qed.

Lemma slab_init_fits s0 N osz os m slab m1 :
  1 ≤ N < WORD → 8 ≤ osz < WORD → user_space m = true →
  slab_init (Some s0) N osz os m = Ok ((1, slab), m1) →
  align_size osz * N < WORD.
Proof.
  intros HN Hosz Huser Hinit.
  apply slab_init_success in Hinit as (_ & Hg & m0' & Hlink & Hlast); [|lia..].
  pose proof (os_grants_facts _ _ _ Hg) as (Hbytes & Hos & _ & Hend).
  set (csz := align_size osz) in *.
  assert (Hcsz : 16 ≤ csz < WORD).
  { subst csz. destruct (Z.lt_ge_cases (osz + 15) WORD).
    - rewrite align_size_round by lia.
      pose proof (Z.div_mod (osz + 15) 16 ltac:(lia)).
      pose proof (Z.mod_pos_bound (osz + 15) 16 ltac:(lia)). lia.
    - rewrite align_size_overflow in Hbytes by lia.
      unfold wmul, wrap in Hbytes. rewrite Z.mul_0_l in Hbytes.
      change (0 mod WORD) with 0 in Hbytes. lia. }
  set (m0 := mkMemory _ _) in Hlink.
  assert (Hu0 : user_space m0 = true) by (apply user_space_VirtualAlloc; assumption).
  assert (Hcells : ∀ j, 0 ≤ j < N → wadd os (wmul j csz) + 8 ≤ USER_SPACE_END).
  { intros j Hj. apply (valid_user_space m0); [exact Hu0 |].
    destruct (Z.eq_dec j (N - 1)) as [-> | Hne].
    - apply store64_inv in Hlast as [Hv _].
      rewrite wsub_small in Hv by lia.
      rewrite <- (valid_mapped m0 m0'); [exact Hv |].
      exact (link_objects_mapped _ _ _ _ _ _ _ Hlink).
    - apply (link_objects_valid _ _ _ _ _ _ _ Hlink).
      rewrite wsub_small by lia. lia. }
  pose proof (page_round_ge (wmul csz N)) as Hpr.
  unfold USER_SPACE_END in *. change (2 ^ 47) with 140737488355328 in *.
  pose proof WORD_eq as HW.
  destruct (Z.lt_ge_cases (csz * N) WORD) as [Hlt | Hover]; [exact Hlt | exfalso].
  destruct (Z.lt_ge_cases csz 140737488355328) as [Hsmall | Hbig].
  - (* the cells climb past the end of the user space *)
    pose proof (Z.div_mod (140737488355328 - os - 1) csz ltac:(lia)) as Hdm.
    pose proof (Z.mod_pos_bound (140737488355328 - os - 1) csz ltac:(lia)) as Hr.
    set (q := (140737488355328 - os - 1) / csz) in *.
    assert (Hq : 0 ≤ q) by (apply Z.div_pos; lia).
    assert (Hq1 : (q + 1) * csz = csz * q + csz) by ring.
    assert (HqN : q + 1 < N).
    { destruct (Z.lt_ge_cases (q + 1) N) as [? | Hge]; [assumption |].
      assert (csz * N ≤ csz * (q + 1)) by (apply Z.mul_le_mono_nonneg_l; lia).
      replace (csz * (q + 1)) with (csz * q + csz) in * by ring. lia. }
    specialize (Hcells (q + 1) ltac:(lia)).
    rewrite wmul_small, wadd_small in Hcells by lia. lia.
  - (* the second cell wraps around *)
    assert (HN2 : 2 ≤ N).
    { destruct (Z.lt_ge_cases N 2); [| assumption].
      replace N with 1 in * by lia. lia. }
    pose proof (Hcells 1 ltac:(lia)) as H1.
    rewrite wmul_small in H1 by lia.
    destruct (Z.lt_ge_cases (os + csz) WORD) as [Hnw | Hw].
    { rewrite wadd_small in H1 by lia. lia. }
    assert (Hd : ∃ d, d = WORD - csz) by eauto. destruct Hd as (d & Hd).
    pose proof (Z.div_mod os d ltac:(lia)) as Hdm.
    pose proof (Z.mod_pos_bound os d ltac:(lia)) as Hr.
    set (k := os / d) in *.
    assert (Hk : 0 ≤ k) by (apply Z.div_pos; lia).
    assert (Hk1 : (k + 1) * d = d * k + d) by ring.
    destruct (Z.lt_ge_cases (k + 1) N) as [Hin | Hout].
    + specialize (Hcells (k + 1) ltac:(lia)).
      unfold wmul in Hcells.
      rewrite (wrap_unique ((k + 1) * csz) k (WORD - (k + 1) * d)) in Hcells;
        [| subst d; ring | lia].
      rewrite wadd_small in Hcells by lia. lia.
    + assert (HNd : N * d ≤ (k + 1) * d) by (apply Z.mul_le_mono_nonneg_r; lia).
      assert (HNd0 : 2 * d ≤ N * d) by (apply Z.mul_le_mono_nonneg_r; lia).
      assert (Hw' : wmul csz N = WORD - N * d)
        by (apply (wrap_unique _ (N - 1)); [subst d; ring | lia]).
      rewrite Hw' in Hpr, Hend. lia.
Qed.

(** C6 (amended): after a successful [slab_init(capacity, object_size)]
    with [capacity >= 1] and [object_size >= 8] (the machine word), the
    cell size is [object_size] rounded up to a multiple of 16 and is at
    least 16 bytes (the claim says 32), and the region acquired is exactly
    [cell_size * capacity] bytes. *)
Theorem slab_init_cell_size s0 N osz os m s m1 :
  1 ≤ N < WORD → 8 ≤ osz < WORD → user_space m = true →
  slab_init (Some s0) N osz os m = Ok ((1, Some s), m1) →
  object_size s = 16 * ((osz + 15) / 16) ∧
  16 ≤ object_size s ∧
  mapped m1 = (memory s, object_size s * N) :: mapped m.
Proof.
  intros HN Hosz Huser H.
  pose proof (slab_init_fits _ _ _ _ _ _ _ HN Hosz Huser H) as Hfit.
  apply slab_init_success in H as (Hs & Hg & m0' & Hlink & Hlast); [|lia..].
  injection Hs as ->. cbn [object_size memory].
  apply link_objects_mapped in Hlink. apply store64_mapped in Hlast.
  cbn [mapped] in Hlink. rewrite Hlast, Hlink.
  apply os_grants_facts in Hg as (Hbytes & _).
  destruct (Z.lt_ge_cases (osz + 15) WORD) as [Hlt | Hover].
  - rewrite align_size_round in * by lia.
    pose proof (Z.div_mod (osz + 15) 16 ltac:(lia)).
    pose proof (Z.mod_pos_bound (osz + 15) 16 ltac:(lia)).
    split; [reflexivity |]. split; [lia |].
    rewrite wmul_small by nia. reflexivity.
  - rewrite align_size_overflow in Hbytes by lia.
    unfold wmul, wrap in Hbytes. rewrite Z.mul_0_l in Hbytes.
    change (0 mod WORD) with 0 in Hbytes. lia.
Qed.

Lemma slab_init_cell_size_witness :
  ∃ s m1,
    slab_init (Some SlabRuns.unused_slab) 3 64 65536 empty_memory = Ok ((1, Some s), m1) ∧
    object_size s = 16 * ((64 + 15) / 16) ∧
    16 ≤ object_size s ∧
    mapped m1 = (memory s, object_size s * 3) :: mapped empty_memory.
Proof.
  eexists. eexists. split; [vm_compute; reflexivity |].
  apply (slab_init_cell_size SlabRuns.unused_slab 3 64 65536 empty_memory).
  - word_lia.
  - word_lia.
  - reflexivity.
  - vm_compute. reflexivity.
Defined.

(** C6 as stated fails: [slab_init(1, 8)] succeeds with 16-byte cells,
    which is less than the 32 bytes the claim promises. *)
Lemma slab_init_cell_below_32 :
  ∃ s m1,
    slab_init (Some SlabRuns.unused_slab) 1 8 65536 empty_memory = Ok ((1, Some s), m1) ∧
    object_size s = 16 ∧ ¬ (32 ≤ object_size s).
Proof.
  eexists. eexists. split; [vm_compute; reflexivity |].
  cbn [object_size]. split; [reflexivity | lia].
Qed.
End SlabInit.

(** ** Runs that show a defect *)

(** Two scenarios of the specification, as a check of the embedding:
    two neighbouring blocks freed one after the other end as one free
    block of [64 + 32 + 64] bytes, and a request larger than the first
    region is served from a second region. *)
Example two_neighbours_are_merged :
  returned (PoolRuns.free_two_neighbours empty_memory) = Ok [(65568, 160)].
Proof. vm_compute; reflexivity. Qed.

Example large_request_grows_the_pool :
  returned (PoolRuns.alloc_on_fresh_pool 5000 16 empty_memory) =
    Ok (131136,
        (Some (Pool.mkPool 65536 0 4096), [(65536, 65568, 4096, 0)], []),
        (Some (Pool.mkPool 65536 0 4096),
         [(65536, 65568, 4096, 0); (131072, 131104, 5032, 5032)], [])).
Proof. vm_compute; reflexivity. Qed.

(** C1: a slab of capacity 3 is filled and reset.  The claim expects three
    more successful allocations; the code hands out one object and then
    reports empty, because [slab_reset] zeroes the region after it has
    written the links.  Both variants behave alike. *)
Theorem slab_reset_leaves_one_object :
  returned (SlabRuns.fill_reset_fill 3 64 65536 empty_memory)
    = Ok ([65568; 65632; 65696], [65568; 0; 0]) ∧
  returned (SlabMapRuns.fill_reset_fill 3 64 1 65536 empty_memory)
    = Ok ([65568; 65632; 65696], [65568; 0; 0]).
Proof. split; vm_compute; reflexivity. Qed.

(** C2: three neighbouring blocks are freed first, last, middle.  Before
    the third [pool_free] the free list holds the first and the last
    block.  In the third call the coalescing loop merges the middle block
    into the first, marks its array slot 0, and in the next round reads
    the size field through that slot: a null dereference.  The claim
    expects a coalesced, sorted free list after the call. *)
Theorem coalesce_reads_merged_slot :
  returned (PoolRuns.free_first_last empty_memory) = Ok [(65568, 64); (65760, 64)] ∧
  returned (PoolRuns.free_first_last_middle empty_memory) = Crash (Segfault 0).
Proof. split; vm_compute; reflexivity. Qed.

(** C3: [pool_alloc(5000, 128)] on a fresh pool of 4096 bytes returns 0,
    yet the region chain has grown by a region: the failed call did not
    leave the pool as it was. *)
Theorem failed_alloc_keeps_new_region :
  returned (PoolRuns.alloc_on_fresh_pool 5000 128 empty_memory) =
    Ok (0,
        (Some (Pool.mkPool 65536 0 4096), [(65536, 65568, 4096, 0)], []),
        (Some (Pool.mkPool 65536 0 4096),
         [(65536, 65568, 4096, 0); (131072, 131104, 5032, 0)], [])).
Proof. vm_compute; reflexivity. Qed.

(** C4: on a fresh pool of 4096 bytes, [pool_alloc(5000, 128)] finds no
    free block and no room in the existing region, the system grants the
    new region of [max(4096, 5000 + 32)] usable bytes, and the call still
    returns 0: the region is sized without the alignment padding. *)
Theorem growth_ignores_alignment_padding :
  ∃ p m0,
    PoolRuns.fresh_pool empty_memory = Ok (Some p, m0) ∧
    Pool.remove_free_block 8 p 5000 128 m0 = Ok ((0, p), m0) ∧
    Pool.bump_loop 8 (Pool.block_head p) 5000 128 m0 = Ok (0, m0) ∧
    returned (VirtualAlloc 131072 (Z.max 4096 (5000 + 32) + 32) m0) = Ok 131072 ∧
    returned (Pool.pool_alloc 8 (Some p) 5000 128 131072 m0) = Ok (0, Some p).
Proof.
  eexists. eexists. split; [vm_compute; reflexivity |].
  repeat split; vm_compute; reflexivity.
Qed.

(** C7: [alignment == 0] passes the power-of-two test of [pool_alloc].
    On a fresh pool [pool_alloc(16, 0)] returns 0 but has appended a
    region to the chain; with a block on the free list the first-fit walk
    divides by zero. *)
Theorem alignment_zero_is_accepted :
  returned (PoolRuns.alloc_on_fresh_pool 16 0 empty_memory) =
    Ok (0,
        (Some (Pool.mkPool 65536 0 4096), [(65536, 65568, 4096, 0)], []),
        (Some (Pool.mkPool 65536 0 4096),
         [(65536, 65568, 4096, 0); (131072, 131104, 4096, 0)], [])) ∧
  returned (PoolRuns.alloc_with_free_block 16 0 empty_memory) = Crash DivideByZero.
Proof. split; vm_compute; reflexivity. Qed.

(** C5: a slab of capacity 3 serves three allocations and then reports
    empty.  What [slab_free] of the first pointer does next depends on
    what [%rcx] holds, which the source leaves to the compiler.  With
    [obj] in [%rcx] the freed object is handed out once more and the slab
    is empty again, as the claim expects.  With 0 in [%rcx] the push
    stores through a null address.  With the address of the second cell
    in [%rcx] the next allocation returns the second object, which is
    still in use. *)
Theorem slab_free_stores_through_rcx :
  returned (SlabRuns.fill_free_alloc 65536 empty_memory)
    = Ok ([65568; 65632; 65696; 0], [65568; 0]) ∧
  returned (SlabRuns.fill_free_alloc 0 empty_memory) = Crash (Segfault 0) ∧
  returned (SlabRuns.fill_free_alloc 65600 empty_memory)
    = Ok ([65568; 65632; 65696; 0], [65632; 0]).
Proof. repeat split; vm_compute; reflexivity. Qed.


(** ** A fresh slab hands out its cells in ascending order *)

Section FreshSlab.
Import Slab SlabRuns.

Lemma valid_of_region m b len a n :
  In (b, len) (mapped m) → b ≤ a → a + n ≤ b + len → valid m a n = true.
Proof.
  intros Hin H1 H2. unfold valid. apply existsb_exists.
  exists (b, len). split; [exact Hin |].
  unfold in_region. cbn [fst snd]. pose proof (page_round_ge len).
  apply andb_true_iff. split; apply Z.leb_le; lia.
Qed.

(** The link loop writes the address of cell [j+1] into cell [j] for the
    cells [i .. i+count-1] and touches nothing else. *)
Lemma link_objects_spec count : ∀ i mem csz len m,
  In (mem, len) (mapped m) → 0 ≤ i → 8 ≤ csz → 0 < mem →
  (i + Z.of_nat count) * csz ≤ len → mem + len < WORD →
  ∃ m', link_objects count i mem csz m = Ok (tt, m') ∧
        mapped m' = mapped m ∧
        (∀ j, i ≤ j < i + Z.of_nat count →
           load_le 8 (contents m') (mem + j * csz) = mem + (j + 1) * csz) ∧
        (∀ x, ¬ (mem + i * csz ≤ x < mem + (i + Z.of_nat count) * csz) →
           byte_at (contents m') x = byte_at (contents m) x).
Proof.
  induction count as [|count IH]; intros i mem csz len m Hin Hi Hcsz Hmem Hlen Hword.
  - exists m. split; [reflexivity |]. split; [reflexivity |].
    split; [intros; lia | reflexivity].
  - cbn [link_objects].
    assert (Hc : 0 ≤ i * csz ∧ (i + 1) * csz = i * csz + csz) by nia.
    assert (He : (i + Z.of_nat (S count)) * csz = (i + 1 + Z.of_nat count) * csz) by (f_equal; lia).
    assert (Hn : (i + 1) * csz ≤ (i + 1 + Z.of_nat count) * csz) by nia.
    rewrite He in Hlen.
    rewrite (wmul_small i csz), (wmul_small (i + 1) csz) by lia.
    rewrite (wadd_small mem (i * csz)), (wadd_small mem ((i + 1) * csz)) by lia.
    rewrite (bind_step _ _ _ _ _ (store64_Ok _ _ _
               (valid_of_region m mem len (mem + i * csz) 8 Hin ltac:(lia) ltac:(lia)))).
    set (m1 := mkMemory _ _).
    destruct (IH (i + 1) mem csz len m1) as (m' & Hrun & Hmap & Hload & Hframe);
      [exact Hin | lia | lia | lia | lia | lia |].
    exists m'. split; [exact Hrun |]. split; [exact Hmap |]. split.
    + intros j Hj. destruct (Z.eq_dec j i) as [-> | Hne].
      * rewrite (load_le_ext 8 _ (contents m1)).
        -- subst m1. cbn [contents]. apply load_store_same. lia.
        -- intros x Hx. apply Hframe. change (Z.of_nat 8) with 8 in Hx. lia.
      * apply Hload. lia.
    + intros x Hx. rewrite Hframe by lia.
      subst m1. cbn [contents]. rewrite byte_at_store_le.
      rewrite decide_False; [reflexivity |]. change (Z.of_nat 8) with 8. lia.
Qed.

Section Initialised.
Variables (s0 : Slab) (N osz os : Z) (m : Memory) (slab : option Slab) (m1 : Memory).
Hypothesis HN : 1 ≤ N < WORD.
Hypothesis Hosz : 8 ≤ osz < WORD.
Hypothesis Huser : user_space m = true.
Hypothesis Hinit : slab_init (Some s0) N osz os m = Ok ((1, slab), m1).

(** A slab whose byte size overflows cannot be initialised: its cells
    would leave the user address space. *)
Lemma fresh_slab_fits : align_size osz * N < WORD.
Proof. exact (slab_init_fits _ _ _ _ _ _ _ HN Hosz Huser Hinit). Qed.

Let s : Slab := mkSlab os (align_size osz) N os.

Lemma fresh_slab_is : slab = Some s.
Proof. apply slab_init_success in Hinit as (H & _); [exact H | lia..]. Qed.

Lemma fresh_slab_shape : slab_shape s m1.
Proof.
  pose proof fresh_slab_fits as Hfit.
  pose proof Hinit as H.
  apply slab_init_success in H as (_ & Hg & m0' & Hlink & Hlast); [|lia..].
  pose proof (os_grants_facts _ _ _ Hg) as (Hbytes & Hos & Hgran & Hend).
  assert (Hcsz : align_size osz = 16 * ((osz + 15) / 16)).
  { destruct (Z.lt_ge_cases (osz + 15) WORD); [apply align_size_round; lia |].
    rewrite align_size_overflow in Hbytes by lia.
    unfold wmul, wrap in Hbytes. rewrite Z.mul_0_l in Hbytes.
    change (0 mod WORD) with 0 in Hbytes. lia. }
  assert (Hcsz16 : 16 ≤ align_size osz).
  { rewrite Hcsz. pose proof (Z.div_mod (osz + 15) 16 ltac:(lia)).
    pose proof (Z.mod_pos_bound (osz + 15) 16 ltac:(lia)). lia. }
  rewrite (wmul_small _ N) in * by nia.
  apply link_objects_mapped in Hlink. apply store64_mapped in Hlast.
  cbn [mapped] in Hlink.
  pose proof (page_round_ge (align_size osz * N)).
  constructor; cbn [memory object_size total_objects s].
  - rewrite Hlast, Hlink. now left.
  - exact Hos.
  - lia.
  - unfold ALLOCATION_GRANULARITY in Hgran.
    rewrite <- (Z.mod_mod_divide os 65536 32) by (exists 2048; lia).
    now rewrite Hgran.
  - split; [exact Hcsz16 |]. rewrite Hcsz, Z.mul_comm. now apply Z.mod_mul.
  - lia.
Qed.

Lemma fresh_slab_links : links_ascending s m1.
Proof.
  pose proof fresh_slab_fits as Hfit.
  pose proof fresh_slab_shape as Hshape.
  destruct Hshape as [Hmapped Hbase Hend _ [Hcsz _] _].
  cbn [memory object_size total_objects s] in *.
  pose proof Hinit as H.
  apply slab_init_success in H as (_ & Hg & m0' & Hlink & Hlast); [|lia..].
  rewrite (wmul_small _ N) in * by nia.
  set (m0 := mkMemory _ _) in Hlink.
  assert (Hend' : os + align_size osz * N < WORD)
    by (unfold USER_SPACE_END in Hend; word_lia).
  destruct (link_objects_spec (Z.to_nat (wsub N 1)) 0 os (align_size osz)
              (align_size osz * N) m0)
    as (m' & Hrun & Hmap & Hload & _);
    [now left | lia | lia | lia | | lia |].
  { rewrite wsub_small by lia. nia. }
  rewrite Hrun in Hlink. injection Hlink as <-.
  rewrite wsub_small in * by lia. rewrite Z2Nat.id in Hload by lia.
  rewrite wmul_small in Hlast by nia.
  rewrite wadd_small in Hlast by nia.
  apply store64_inv in Hlast as [Hvalid ->].
  intros j Hj. unfold cell. cbn [memory object_size total_objects s contents] in *.
  split.
  - apply valid_of_region with os (align_size osz * N);
      [cbn [mapped]; rewrite Hmap; now left | nia | nia].
  - destruct (Z.ltb_spec (j + 1) N) as [Hlt | Hge].
    + rewrite load_store_other by nia. apply Hload. lia.
    + replace j with (N - 1) by lia. apply load_store_same. word_lia.
Qed.
End Initialised.

Section Ascending.
Variables (s : Slab) (m : Memory).
Hypothesis Hshape : slab_shape s m.
Hypothesis Hlinks : links_ascending s m.

Lemma cell_range j :
  0 ≤ j < total_objects s →
  memory s ≤ cell s j ∧ cell s j + object_size s ≤ memory s + object_size s * total_objects s.
Proof.
  destruct Hshape as [_ _ _ _ [Hcsz _] _]. unfold cell. intros Hj. nia.
Qed.

Lemma cell_word j : 0 ≤ j < total_objects s → 0 < cell s j ∧ cell s j + HEADER_SIZE < WORD.
Proof.
  intros Hj. pose proof (cell_range j Hj).
  destruct Hshape as [_ Hbase Hend _ [Hcsz _] _].
  unfold USER_SPACE_END in Hend. unfold HEADER_SIZE. word_lia.
Qed.

Lemma slab_alloc_at i :
  0 ≤ i < total_objects s →
  slab_alloc (Some (with_head_at s i)) m
    = Ok ((cell s i + HEADER_SIZE, Some (with_head_at s (i + 1))), m).
Proof.
  intros Hi. pose proof (cell_word i Hi) as [Hpos Hword].
  destruct (Hlinks i Hi) as [Hvalid Hload].
  unfold slab_alloc, with_head_at. cbn [free_list memory object_size total_objects].
  destruct (Z.ltb_spec i (total_objects s)) as [_ | ?]; [|lia].
  destruct (Z.eqb_spec (cell s i) 0) as [? | _]; [lia |].
  rewrite (bind_step _ _ _ _ _ (load64_Ok _ _ Hvalid)).
  cbn [negb]. unfold HEADER_SIZE in *. rewrite wadd_small by lia.
  rewrite Hload. reflexivity.
Qed.

Lemma slab_alloc_empty i :
  total_objects s ≤ i →
  slab_alloc (Some (with_head_at s i)) m = Ok ((0, Some (with_head_at s i)), m).
Proof.
  intros Hi. unfold slab_alloc, with_head_at. cbn [free_list].
  destruct (Z.ltb_spec i (total_objects s)) as [? | _]; [lia |]. reflexivity.
Qed.

(** From the head at cell [i], [n] allocations return the cells
    [i .. i+n-1] and leave the memory alone. *)
Lemma alloc_many_ascending n : ∀ i,
  0 ≤ i → i + Z.of_nat n ≤ total_objects s →
  alloc_many n (Some (with_head_at s i)) m
    = Ok (((λ j, cell s j + HEADER_SIZE) <$> seqZ i (Z.of_nat n),
           Some (with_head_at s (i + Z.of_nat n))), m).
Proof.
  induction n as [|n IH]; intros i Hi Hn.
  - cbn. now rewrite Z.add_0_r.
  - cbn [alloc_many]. rewrite (bind_step _ _ _ _ _ (slab_alloc_at i ltac:(lia))).
    rewrite (bind_step _ _ _ _ _ (IH (i + 1) ltac:(lia) ltac:(lia))).
    rewrite (seqZ_cons i (Z.of_nat (S n))) by lia.
    replace (Z.pred (Z.of_nat (S n))) with (Z.of_nat n) by lia.
    replace (Z.succ i) with (i + 1) by lia.
    replace (i + 1 + Z.of_nat n) with (i + Z.of_nat (S n)) by lia.
    reflexivity.
Qed.
End Ascending.

Lemma alloc_many_snoc n : ∀ slab m ps slab' m' q slab'' m'',
  alloc_many n slab m = Ok ((ps, slab'), m') →
  slab_alloc slab' m' = Ok ((q, slab''), m'') →
  alloc_many (n + 1) slab m = Ok ((ps ++ [q], slab''), m'').
Proof.
  induction n as [|n IH]; intros slab m ps slab' m' q slab'' m'' Hmany Hone.
  - apply ret_Ok in Hmany as [H <-]. injection H as <- <-.
    cbn [Nat.add alloc_many]. rewrite (bind_step _ _ _ _ _ Hone). reflexivity.
  - cbn [Nat.add alloc_many] in *. inv_bind Hmany. destruct a as [p slab1].
    inv_bind Hmany. destruct a as [ps1 slab2].
    apply ret_Ok in Hmany as [H <-]. injection H as <- <-.
    rewrite (bind_step _ _ _ _ _ Hrun).
    rewrite (bind_step _ _ _ _ _ (IH _ _ _ _ _ _ _ _ Hrun0 Hone)). reflexivity.
Qed.
End FreshSlab.

Section SlabCapacity.
Import Slab SlabRuns.

Lemma fresh_slab_head s : 1 ≤ total_objects s → free_list s = memory s →
  s = with_head_at s 0.
Proof.
  intros HN Hhead. destruct s as [mem osz n fl]. cbn in *. subst fl.
  unfold with_head_at, cell. cbn [memory object_size total_objects].
  destruct (Z.ltb_spec 0 n) as [_ | ?]; [|lia].
  now rewrite Z.mul_0_l, Z.add_0_r.
Qed.

(** C9: right after [slab_init] of a slab of capacity [N], with no
    [slab_free] in between, the [k]-th [slab_alloc] (for every
    [1 <= k <= N]) returns [base + (k-1) * cell_size + 32]: the cells go
    out in ascending address order. *)
Theorem slab_alloc_ascending s0 N osz os m slab m1 k :
  0 ≤ N < WORD → 0 ≤ osz < WORD → user_space m = true →
  slab_init (Some s0) N osz os m = Ok ((1, slab), m1) →
  1 ≤ k ≤ N →
  ∃ s ptrs slab',
    slab = Some s ∧
    alloc_many (Z.to_nat k) slab m1 = Ok ((ptrs, slab'), m1) ∧
    ptrs !! Z.to_nat (k - 1) = Some (memory s + (k - 1) * object_size s + 32).
Proof.
  intros HN0 Hosz0 Huser Hinit Hk.
  pose proof (slab_init_guard _ _ _ _ _ _ _ Hinit) as [HN1 Hosz8].
  assert (HN : 1 ≤ N < WORD) by lia. assert (Hosz : 8 ≤ osz < WORD) by lia.
  pose proof (fresh_slab_is s0 N osz os m slab m1 HN Hosz Hinit) as ->.
  pose proof (fresh_slab_shape s0 N osz os m _ m1 HN Hosz Huser Hinit) as Hshape.
  pose proof (fresh_slab_links s0 N osz os m _ m1 HN Hosz Huser Hinit) as Hlinks.
  set (s := mkSlab os (align_size osz) N os) in *.
  assert (Hs : s = with_head_at s 0) by (apply fresh_slab_head; [cbn; lia | reflexivity]).
  pose proof (alloc_many_ascending s m1 Hshape Hlinks (Z.to_nat k) 0 ltac:(lia)) as Hmany.
  rewrite Z2Nat.id, Z.add_0_l in Hmany by lia.
  specialize (Hmany ltac:(cbn; lia)). rewrite <- Hs in Hmany.
  eexists s, _, _. split; [reflexivity |]. split; [exact Hmany |].
  rewrite list_lookup_fmap, lookup_seqZ_lt by lia.
  cbn [fmap option_fmap option_map]. rewrite Z2Nat.id by lia.
  unfold cell, HEADER_SIZE. rewrite Z.add_0_l. reflexivity.
Qed.

Lemma slab_alloc_ascending_witness :
  ∃ slab m1,
    slab_init (Some unused_slab) 3 64 65536 empty_memory = Ok ((1, slab), m1) ∧
    ∃ s ptrs slab',
      slab = Some s ∧
      alloc_many (Z.to_nat 2) slab m1 = Ok ((ptrs, slab'), m1) ∧
      ptrs !! Z.to_nat (2 - 1) = Some (memory s + (2 - 1) * object_size s + 32).
Proof.
  eexists. eexists. split; [vm_compute; reflexivity |].
  apply (slab_alloc_ascending unused_slab 3 64 65536 empty_memory).
  - word_lia.
  - word_lia.
  - vm_compute. reflexivity.
  - vm_compute. reflexivity.
  - lia.
Defined.
End SlabCapacity.

(** ** The bulk-set utility on an aligned buffer *)

Section BulkSet.

Lemma simd_store_loop_spec count : ∀ i p v m b len,
  In (b, len) (mapped m) → p mod 32 = 0 → 0 ≤ i → 0 ≤ b ≤ p →
  p + (i + Z.of_nat count) * 32 ≤ b + len → b + len < WORD →
  ∃ m', simd_store_loop count i p v m = Ok (tt, m') ∧
        mapped m' = mapped m ∧
        (∀ x, p + i * 32 ≤ x < p + (i + Z.of_nat count) * 32 →
           byte_at (contents m') x = v mod 256) ∧
        (∀ x, ¬ (p + i * 32 ≤ x < p + (i + Z.of_nat count) * 32) →
           byte_at (contents m') x = byte_at (contents m) x).
Proof.
  induction count as [|count IH]; intros i p v m b len Hin Hal Hi Hb Hlen Hword.
  - exists m. split; [reflexivity |]. split; [reflexivity |].
    split; [intros; lia | reflexivity].
  - cbn [simd_store_loop].
    rewrite (wmul_small i 32), (wadd_small p (i * 32)) by lia.
    assert (Hstore : mm256_store_si256 (p + i * 32) v m
              = Ok (tt, mkMemory (fill 32 (p + i * 32) (v mod 256) (contents m)) (mapped m))).
    { unfold mm256_store_si256. rewrite Z.mod_add by lia. rewrite Hal. cbn [Z.eqb negb].
      now rewrite (valid_of_region m b len) by (exact Hin || lia). }
    rewrite (bind_step _ _ _ _ _ Hstore). set (m1 := mkMemory _ _).
    destruct (IH (i + 1) p v m1 b len) as (m' & Hrun & Hmap & Hset & Hframe);
      [exact Hin | exact Hal | lia | lia | lia | lia |].
    exists m'. split; [exact Hrun |]. split; [exact Hmap |]. split.
    + intros x Hx. destruct (Z.lt_ge_cases x (p + (i + 1) * 32)) as [Hlt | Hge].
      * rewrite Hframe by lia. subst m1. cbn [contents]. rewrite byte_at_fill.
        rewrite decide_True; [reflexivity |]. change (Z.of_nat 32) with 32. lia.
      * apply Hset. lia.
    + intros x Hx. rewrite Hframe by lia. subst m1. cbn [contents].
      rewrite byte_at_fill. rewrite decide_False; [reflexivity |].
      change (Z.of_nat 32) with 32. lia.
Qed.

(** On a 32-byte aligned buffer inside a mapped region [simd_memset]
    returns and every byte of the buffer holds the value. *)
Lemma simd_memset_aligned p v size m b len :
  In (b, len) (mapped m) → p mod 32 = 0 → 0 ≤ size → 0 ≤ b ≤ p →
  p + size ≤ b + len → b + len < WORD →
  ∃ m', simd_memset p v size m = Ok (tt, m') ∧
        mapped m' = mapped m ∧
        (∀ x, p ≤ x < p + size → byte_at (contents m') x = v mod 256).
Proof.
  intros Hin Hal Hsize Hb Hlen Hword. unfold simd_memset.
  rewrite Hal. cbn [Z.eqb negb].
  rewrite (bind_step _ _ _ (p, size) m eq_refl).
  pose proof (Z.div_mod size 32 ltac:(lia)) as Hdm.
  pose proof (Z.mod_pos_bound size 32 ltac:(lia)) as Hrem.
  assert (Hq : 0 ≤ size / 32) by (apply Z.div_pos; lia).
  destruct (simd_store_loop_spec (Z.to_nat (size / 32)) 0 p v m b len)
    as (m1 & Hrun & Hmap & Hset & _); [exact Hin | exact Hal | lia | lia | lia | lia |].
  rewrite Z2Nat.id in Hset by lia.
  rewrite (bind_step _ _ _ _ _ Hrun).
  destruct (Z.eqb_spec (size mod 32) 0) as [Hz | Hnz]; cbn [negb].
  - exists m1. split; [reflexivity |]. split; [exact Hmap |].
    intros x Hx. apply Hset. lia.
  - rewrite (wsub_small size), (wadd_small p) by lia.
    unfold memset. destruct (Z.eqb_spec (size mod 32) 0) as [? | _]; [lia |].
    rewrite (valid_of_region m1 b len) by (rewrite ?Hmap; exact Hin || lia).
    eexists. split; [reflexivity |]. split; [exact Hmap |].
    intros x Hx. cbn [contents]. rewrite byte_at_fill.
    destruct (Z.lt_ge_cases x (p + (size - size mod 32))) as [Hlt | Hge].
    + rewrite decide_False by lia. apply Hset. lia.
    + rewrite decide_True; [reflexivity |]. rewrite Z2Nat.id by lia. lia.
Qed.
End BulkSet.

(** ** The slab's free list stays inside its cells *)

Section SlabLinks.
Import Slab SlabRuns.

Lemma slab_shape_set_head s m head : slab_shape s m → slab_shape (set_head s head) m.
Proof. intros [H1 H2 H3 H4 H5 H6]. constructor; assumption. Qed.

Lemma null_or_cell_word s m a :
  slab_shape s m → null_or_cell s a → 0 ≤ a < WORD.
Proof.
  intros Hshape [-> | (j & Hj & ->)]; [word_lia |].
  pose proof (cell_word s m Hshape j Hj). unfold HEADER_SIZE in *. lia.
Qed.

Lemma object_aligned s m p :
  slab_shape s m → null_or_object s p → p ≠ 0 → p mod 16 = 0.
Proof.
  intros [_ _ _ Hal [_ Hcsz] _] [-> | (j & Hj & ->)] Hp; [congruence |].
  unfold cell, HEADER_SIZE.
  apply Z.mod_divide; [lia |].
  apply Z.mod_divide in Hcsz; [|lia].
  assert (Hmem : (16 | memory s)).
  { apply Z.mod_divide; [lia |].
    rewrite <- (Z.mod_mod_divide (memory s) 32 16) by (exists 2; lia).
    now rewrite Hal. }
  apply Z.divide_add_r; [apply Z.divide_add_r |].
  - exact Hmem.
  - now apply Z.divide_mul_r.
  - exists 2. lia.
Qed.

(** [slab_alloc] returns null or an object and keeps the links inside the cells. *)
Lemma slab_alloc_links s m :
  slab_shape s m → slab_links s m →
  ∃ p head, slab_alloc (Some s) m = Ok ((p, Some (set_head s head)), m) ∧
            null_or_object s p ∧ slab_links (set_head s head) m.
Proof.
  intros Hshape [Hhead Hcells]. unfold slab_alloc.
  destruct (Z.eqb_spec (free_list s) 0) as [Hz | Hnz].
  - exists 0, (free_list s). split; [destruct s; reflexivity |].
    split; [now left |]. constructor; assumption.
  - destruct Hhead as [? | (j & Hj & Hfl)]; [contradiction |].
    pose proof (cell_word s m Hshape j Hj) as [Hpos Hword].
    pose proof (cell_range s m Hshape j Hj) as [Hlo Hhi].
    assert (Hvalid : valid m (free_list s) 8 = true).
    { destruct Hshape as [Hmapped _ _ _ [Hcsz _] _].
      rewrite Hfl. eapply valid_of_region; [exact Hmapped | lia | lia]. }
    rewrite (bind_step _ _ _ _ _ (load64_Ok _ _ Hvalid)). cbn [negb].
    exists (cell s j + HEADER_SIZE), (load_le 8 (contents m) (free_list s)).
    split; [| split].
    + rewrite Hfl. unfold HEADER_SIZE in *. rewrite wadd_small by lia. reflexivity.
    + right. exists j. auto.
    + constructor; [| exact Hcells].
      cbn [set_head free_list]. rewrite Hfl. exact (Hcells j Hj).
Qed.

(** [slab_free] of null or of an object, with [obj] in [%rcx], keeps the
    links inside the cells. *)
Lemma slab_free_links s m p :
  slab_shape s m → slab_links s m → null_or_object s p →
  ∃ head m', slab_free (obj_in_rcx (wsub p HEADER_SIZE)) (Some s) p m
               = Ok (Some (set_head s head), m') ∧
             slab_shape (set_head s head) m' ∧ slab_links (set_head s head) m'.
Proof.
  intros Hshape Hlinks Hp. unfold slab_free, obj_in_rcx.
  destruct Hp as [-> | (j & Hj & ->)].
  - exists (free_list s), m. cbn [Z.eqb].
    split; [destruct s; reflexivity |].
    destruct s; split; assumption.
  - pose proof (cell_word s m Hshape j Hj) as [Hpos Hword].
    pose proof (cell_range s m Hshape j Hj) as [Hlo Hhi].
    pose proof (null_or_cell_word s m _ Hshape (links_head s m Hlinks)) as Hfl.
    destruct Hlinks as [Hhead Hcells].
    pose proof Hshape as [Hmapped Hbase Hend Hal [Hcsz Hcsz16] Hcount].
    unfold HEADER_SIZE in *.
    destruct (Z.eqb_spec (cell s j + 32) 0) as [? | _]; [lia |].
    rewrite wsub_small by lia. replace (cell s j + 32 - 32) with (cell s j) by lia.
    assert (Hvalid : valid m (cell s j) 8 = true)
      by (eapply valid_of_region; [exact Hmapped | lia | lia]).
    rewrite (bind_step _ _ _ _ _ (store64_Ok _ _ _ Hvalid)).
    eexists (cell s j), _. split; [reflexivity |]. split.
    + constructor; cbn [set_head memory object_size total_objects mapped]; auto.
    + constructor.
      * right. exists j. split; [exact Hj | reflexivity].
      * intros i Hi. cbn [contents]. change (cell (set_head s (cell s j)) i) with (cell s i).
        destruct (Z.eq_dec i j) as [-> | Hne].
        -- rewrite load_store_same by lia. exact Hhead.
        -- rewrite load_store_other; [exact (Hcells i Hi) |].
           unfold cell. nia.
Qed.

(** [slab_reset] returns and leaves the head at cell 0 and every link null. *)
Lemma slab_reset_links s m :
  slab_shape s m →
  ∃ m', slab_reset (Some s) m = Ok (Some (set_head s (memory s)), m') ∧
        slab_shape (set_head s (memory s)) m' ∧
        slab_links (set_head s (memory s)) m' ∧
        (∀ x, memory s ≤ x < memory s + object_size s * total_objects s →
           byte_at (contents m') x = 0).
Proof.
  intros Hshape.
  pose proof Hshape as [Hmapped Hbase Hend Hal [Hcsz Hcsz16] Hcount].
  assert (Hword : memory s + object_size s * total_objects s < WORD)
    by (unfold USER_SPACE_END in Hend; word_lia).
  assert (HNw : total_objects s ≤ object_size s * total_objects s) by nia.
  unfold slab_reset.
  rewrite (wsub_small (total_objects s) 1) by lia.
  destruct (link_objects_spec (Z.to_nat (total_objects s - 1)) 0 (memory s) (object_size s)
              (object_size s * total_objects s) m)
    as (m1 & Hrun & Hmap1 & _); [exact Hmapped | lia | lia | lia | nia | lia |].
  rewrite (bind_step _ _ _ _ _ Hrun).
  rewrite (wmul_small (total_objects s - 1)), wadd_small by nia.
  assert (Hvalid : valid m1 (memory s + (total_objects s - 1) * object_size s) 8 = true)
    by (eapply valid_of_region; [rewrite Hmap1; exact Hmapped | nia | nia]).
  rewrite (bind_step _ _ _ _ _ (store64_Ok _ _ _ Hvalid)). set (m2 := mkMemory _ _).
  rewrite (wmul_small (object_size s)) by nia.
  destruct (simd_memset_aligned (memory s) 0 (object_size s * total_objects s) m2
              (memory s) (object_size s * total_objects s))
    as (m3 & Hset & Hmap3 & Hzero);
    [cbn [mapped m2]; rewrite Hmap1; exact Hmapped | exact Hal | nia | lia | lia | lia |].
  rewrite (bind_step _ _ _ _ _ Hset).
  exists m3. split; [reflexivity |].
  assert (Hmap : mapped m3 = mapped m) by (rewrite Hmap3; exact Hmap1).
  split; [| split].
  - constructor; cbn [set_head memory object_size total_objects]; auto.
    rewrite Hmap. exact Hmapped.
  - constructor.
    + right. exists 0. unfold cell. cbn [set_head memory object_size total_objects free_list].
      lia.
    + intros j Hj. left. change (cell (set_head s (memory s)) j) with (cell s j).
      cbn [set_head total_objects] in Hj.
      apply load_le_zero. intros x Hx. change (Z.of_nat 8) with 8 in Hx.
      pose proof (cell_range s m Hshape j Hj). apply Hzero. lia.
  - exact Hzero.
Qed.

(** Whatever the capacity, after [slab_reset] the first allocation returns
    the first object and the second one finds the free list empty: the
    bulk zeroing has erased the links. *)
Lemma slab_reset_then_two_allocs s m :
  slab_shape s m →
  ∃ m', slab_reset (Some s) m = Ok (Some (set_head s (memory s)), m') ∧
        alloc_many 2 (Some (set_head s (memory s))) m'
          = Ok (([memory s + HEADER_SIZE; 0], Some (set_head s 0)), m').
Proof.
  intros Hshape.
  destruct (slab_reset_links s m Hshape) as (m' & Hrun & Hshape' & _ & Hzero).
  exists m'. split; [exact Hrun |].
  pose proof Hshape' as [Hmapped Hbase Hend Hal [Hcsz _] Hcount].
  cbn [set_head memory object_size total_objects] in *.
  assert (Hbytes : 16 ≤ object_size s * total_objects s) by nia.
  assert (Hvalid : valid m' (memory s) 8 = true)
    by (eapply valid_of_region; [exact Hmapped | lia | lia]).
  assert (Hload : load_le 8 (contents m') (memory s) = 0).
  { apply load_le_zero. intros x Hx. change (Z.of_nat 8) with 8 in Hx. apply Hzero. lia. }
  assert (Hfirst : slab_alloc (Some (set_head s (memory s))) m'
                   = Ok ((memory s + HEADER_SIZE, Some (set_head s 0)), m')).
  { unfold slab_alloc. cbn [set_head free_list].
    destruct (Z.eqb_spec (memory s) 0) as [? | _]; [lia |].
    rewrite (bind_step _ _ _ _ _ (load64_Ok _ _ Hvalid)). rewrite Hload.
    cbn [negb memory object_size total_objects].
    unfold USER_SPACE_END in Hend. unfold HEADER_SIZE.
    rewrite wadd_small by word_lia. reflexivity. }
  cbn [alloc_many]. rewrite (bind_step _ _ _ _ _ Hfirst). reflexivity.
Qed.

(** With [obj] in [%rcx], any client run on a slab with well-formed links
    ends, and every pointer it got is null or an object of the slab. *)
Lemma run_ops_objects ops : ∀ s m got,
  slab_shape s m → slab_links s m → Forall (null_or_object s) got →
  ∃ ptrs m', run_ops obj_in_rcx ops (Some s) got m = Ok (ptrs, m') ∧
             Forall (null_or_object s) ptrs.
Proof.
  induction ops as [|op ops IH]; intros s m got Hshape Hlinks Hgot.
  - exists got, m. split; [reflexivity | exact Hgot].
  - destruct op as [| k |]; cbn [run_ops].
    + destruct (slab_alloc_links s m Hshape Hlinks) as (p & head & Hrun & Hp & Hlinks').
      rewrite (bind_step _ _ _ _ _ Hrun).
      apply (IH (set_head s head) m (got ++ [p]));
        [now apply slab_shape_set_head | exact Hlinks' |].
      apply Forall_app. split; [exact Hgot | now constructor].
    + assert (Hp : null_or_object s (default 0 (got !! k))).
      { destruct (got !! k) as [p|] eqn:Hk; [| now left].
        exact (proj1 (Forall_lookup _ _) Hgot k p Hk). }
      destruct (slab_free_links s m _ Hshape Hlinks Hp) as (head & m' & Hrun & Hshape' & Hlinks').
      rewrite (bind_step _ _ _ _ _ Hrun).
      exact (IH (set_head s head) m' got Hshape' Hlinks' Hgot).
    + destruct (slab_reset_links s m Hshape) as (m' & Hrun & Hshape' & Hlinks' & _).
      rewrite (bind_step _ _ _ _ _ Hrun).
      exact (IH (set_head s (memory s)) m' got Hshape' Hlinks' Hgot).
Qed.

(** The links a fresh slab carries are inside its cells. *)
Lemma links_ascending_links s m :
  free_list s = memory s → slab_shape s m → links_ascending s m → slab_links s m.
Proof.
  intros Hhead Hshape Hasc. constructor.
  - right. exists 0. split; [destruct Hshape; lia |].
    rewrite Hhead. unfold cell. lia.
  - intros j Hj. destruct (Hasc j Hj) as [_ ->].
    destruct (Z.ltb_spec (j + 1) (total_objects s)); [right; exists (j + 1); split; [lia | reflexivity] | now left].
Qed.
End SlabLinks.

(** ** Alignment of the pointers handed out *)

Section PoolAlignment.
Import Pool PoolRuns.

Variable alignment : Z.
Hypothesis Hpow : power_of_two alignment.

Lemma power_of_two_word : ∃ k, 0 ≤ k < 64 ∧ alignment = 2 ^ k ∧ 1 ≤ alignment < WORD.
Proof.
  destruct Hpow as (k & Hk & ->). exists k. split; [exact Hk |]. split; [reflexivity |].
  split.
  - pose proof (Z.pow_pos_nonneg 2 k ltac:(lia) ltac:(lia)). lia.
  - unfold WORD. apply Z.pow_lt_mono_r; lia.
Qed.

(** The bump path: the pointer is the raw payload address rounded up
    to the alignment. *)
Lemma alloc_from_block_aligned b size m r m' :
  alloc_from_block b size alignment m = Ok (r, m') → r = 0 ∨ r mod alignment = 0.
Proof.
  intros H. unfold alloc_from_block in H.
  inv_bind H. cbv zeta in H. inv_bind H. cbv zeta in H. inv_bind H.
  destruct (_ >? _).
  - apply ret_Ok in H as [<- _]. now left.
  - do 4 inv_bind H. apply ret_Ok in H as [<- _]. right.
    destruct power_of_two_word as (k & Hk & Heq & Hrange).
    rewrite (wsub_small alignment 1) by lia. rewrite Heq.
    now apply wand_wnot_mask.
Qed.

(** The first-fit path: a block is taken only when its payload address
    is a multiple of the alignment. *)
Lemma remove_free_block_loop_aligned fuel : ∀ pool prev current size m r pool' m',
  remove_free_block_loop fuel pool prev current size alignment m = Ok ((r, pool'), m') →
  r = 0 ∨ r mod alignment = 0.
Proof.
  induction fuel as [|fuel IH]; intros pool prev current size m r pool' m' H.
  - discriminate H.
  - cbn [remove_free_block_loop] in H.
    destruct (current =? 0).
    { apply ret_Ok in H as [H _]. injection H as <- _. now left. }
    destruct (alignment =? 0).
    { discriminate H. }
    inv_bind H. destruct a as [|].
    + destruct (Z.eqb_spec (wadd current HEADER_SIZE mod alignment) 0) as [Hal | _].
      * do 4 inv_bind H. apply ret_Ok in H as [H _]. injection H as <- _. now right.
      * apply ret_Ok in Hrun as [Hf _]. discriminate.
    + inv_bind H. exact (IH _ _ _ _ _ _ _ _ H).
Qed.

Lemma bump_loop_aligned fuel : ∀ block_ptr size m r m',
  bump_loop fuel block_ptr size alignment m = Ok (r, m') → r = 0 ∨ r mod alignment = 0.
Proof.
  induction fuel as [|fuel IH]; intros block_ptr size m r m' H.
  - discriminate H.
  - cbn [bump_loop] in H. destruct (block_ptr =? 0).
    { apply ret_Ok in H as [<- _]. now left. }
    inv_bind H. destruct (Z.eqb_spec a 0) as [-> | Hnz]; cbn [negb] in H.
    + inv_bind H. exact (IH _ _ _ _ _ H).
    + apply ret_Ok in H as [<- _]. exact (alloc_from_block_aligned _ _ _ _ _ Hrun).
Qed.

Lemma pool_alloc_aligned fuel pool size os m r pool' m' :
  pool_alloc fuel pool size alignment os m = Ok ((r, pool'), m') →
  r = 0 ∨ r mod alignment = 0.
Proof.
  intros H. unfold pool_alloc in H. destruct pool as [p|].
  2: { apply ret_Ok in H as [H _]. injection H as <- _. now left. }
  destruct (_ || _).
  { apply ret_Ok in H as [H _]. injection H as <- _. now left. }
  inv_bind H. destruct a as [result p1].
  destruct (Z.eqb_spec result 0) as [-> | Hnz]; cbn [negb] in H.
  2: { apply ret_Ok in H as [H _]. injection H as <- _.
       exact (remove_free_block_loop_aligned _ _ _ _ _ _ _ _ _ Hrun). }
  inv_bind H. destruct (Z.eqb_spec a 0) as [-> | Hnz]; cbn [negb] in H.
  2: { apply ret_Ok in H as [H _]. injection H as <- _.
       exact (bump_loop_aligned _ _ _ _ _ _ Hrun0). }
  cbv zeta in H. inv_bind H. destruct (a =? 0).
  { apply ret_Ok in H as [H _]. injection H as <- _. now left. }
  do 6 inv_bind H. apply ret_Ok in H as [H _]. injection H as <- _.
  eapply alloc_from_block_aligned. eassumption.
Qed.
End PoolAlignment.

(** ** What a failed [pool_alloc] leaves behind *)

Section PoolFailure.
Import Pool.

(** The precondition check of [pool_alloc]: a null handle, a zero size and
    an alignment that fails the bit test are turned down at once, with
    nothing touched. *)
Lemma pool_alloc_rejects fuel pool size alignment os m :
  pool = None ∨ size = 0 ∨ wand alignment (wsub alignment 1) ≠ 0 →
  pool_alloc fuel pool size alignment os m = Ok ((0, pool), m).
Proof.
  intros H. unfold pool_alloc. destruct pool as [p|]; [| reflexivity].
  destruct H as [H | [-> | H]]; [discriminate | reflexivity |].
  destruct (Z.eqb_spec (wand alignment (wsub alignment 1)) 0) as [? | _]; [contradiction |].
  now rewrite orb_true_r.
Qed.

Lemma user_space_mapped m m' : mapped m' = mapped m → user_space m' = user_space m.
Proof. unfold user_space. now intros ->. Qed.

Lemma load64_valid a m v m' : load64 a m = Ok (v, m') → valid m a 8 = true.
Proof. unfold load64. now destruct (valid m a 8). Qed.

(** A first-fit walk that returns 0 has found no block and changed nothing. *)
Lemma remove_free_block_loop_miss fuel : ∀ pool prev current size alignment m pool' m',
  user_space m = true →
  remove_free_block_loop fuel pool prev current size alignment m = Ok ((0, pool'), m') →
  pool' = pool ∧ m' = m.
Proof.
  induction fuel as [|fuel IH]; intros pool prev current size alignment m pool' m' Hu H.
  - discriminate H.
  - cbn [remove_free_block_loop] in H.
    destruct (Z.eqb_spec current 0) as [-> | Hcur].
    { apply ret_Ok in H as [H ->]. injection H as ->. auto. }
    destruct (alignment =? 0); [discriminate H |].
    inv_bind H.
    assert (Hfits : m0 = m ∧ (a = true → valid m current 8 = true)).
    { destruct (_ =? 0).
      - inv_bind Hrun. pose proof (load64_valid _ _ _ _ Hrun0) as Hv.
        apply load64_inv in Hrun0 as [-> _]. apply ret_Ok in Hrun as [_ <-]. auto.
      - apply ret_Ok in Hrun as [<- <-]. split; [reflexivity | discriminate]. }
    destruct Hfits as [-> Hvalid]. destruct a.
    + exfalso. specialize (Hvalid eq_refl).
      apply (valid_user_space _ _ _ Hu) in Hvalid.
      do 4 inv_bind H. apply ret_Ok in H as [H _]. injection H as H _.
      unfold HEADER_SIZE, USER_SPACE_END in *. rewrite wadd_small in H by word_lia. lia.
    + inv_bind H. apply load64_inv in Hrun0 as [-> _]. exact (IH _ _ _ _ _ _ _ _ Hu H).
Qed.

(** A bump attempt that returns 0 has changed nothing. *)
Lemma alloc_from_block_miss b size alignment m m' :
  user_space m = true →
  alloc_from_block b size alignment m = Ok (0, m') → m' = m.
Proof.
  intros Hu H. unfold alloc_from_block in H.
  inv_bind H. apply load64_inv in Hrun as [-> _]. cbv zeta in H.
  inv_bind H. apply load64_inv in Hrun as [-> _]. cbv zeta in H.
  inv_bind H. apply load64_inv in Hrun as [-> _].
  destruct (_ >? _).
  - apply ret_Ok in H as [_ ->]. reflexivity.
  - exfalso. inv_bind H. inv_bind H.
    do 2 inv_bind H. apply ret_Ok in H as [Hz _].
    rewrite Hz in Hrun0.
    apply store64_inv in Hrun0 as [Hvalid _].
    rewrite (valid_mapped m) in Hvalid by exact (store64_mapped _ _ _ _ _ Hrun).
    apply (valid_user_space _ _ _ Hu) in Hvalid.
    unfold hdr_size, USER_SPACE_END in Hvalid.
    change (wsub 0 32) with 18446744073709551584 in Hvalid. lia.
Qed.

Lemma alloc_from_block_mapped b size alignment m r m' :
  alloc_from_block b size alignment m = Ok (r, m') → mapped m' = mapped m.
Proof.
  intros H. unfold alloc_from_block in H.
  inv_bind H. apply load64_inv in Hrun as [-> _]. cbv zeta in H.
  inv_bind H. apply load64_inv in Hrun as [-> _]. cbv zeta in H.
  inv_bind H. apply load64_inv in Hrun as [-> _].
  destruct (_ >? _).
  - apply ret_Ok in H as [_ ->]. reflexivity.
  - do 4 inv_bind H. apply ret_Ok in H as [_ <-].
    apply store64_mapped in Hrun, Hrun0, Hrun1, Hrun2. congruence.
Qed.

Lemma bump_loop_miss fuel : ∀ block_ptr size alignment m m',
  user_space m = true →
  bump_loop fuel block_ptr size alignment m = Ok (0, m') → m' = m.
Proof.
  induction fuel as [|fuel IH]; intros block_ptr size alignment m m' Hu H.
  - discriminate H.
  - cbn [bump_loop] in H. destruct (block_ptr =? 0).
    { apply ret_Ok in H as [_ ->]. reflexivity. }
    inv_bind H. destruct (Z.eqb_spec a 0) as [-> | Hnz]; cbn [negb] in H.
    + apply (alloc_from_block_miss _ _ _ _ _ Hu) in Hrun as ->.
      inv_bind H. apply load64_inv in Hrun as [-> _]. exact (IH _ _ _ _ _ Hu H).
    + apply ret_Ok in H as [H _]. congruence.
Qed.

Lemma last_block_memory fuel : ∀ last m r m', last_block fuel last m = Ok (r, m') → m' = m.
Proof.
  induction fuel as [|fuel IH]; intros last m r m' H; [discriminate H |].
  cbn [last_block] in H. inv_bind H. apply load64_inv in Hrun as [-> _].
  destruct (a =? 0); [apply ret_Ok in H as [_ ->]; reflexivity | exact (IH _ _ _ _ H)].
Qed.

(** A [pool_alloc] that returns 0 has either changed nothing at all, or
    the system has granted a new region, which the call has kept. *)
Lemma pool_alloc_failure fuel pool size alignment os m pool' m' :
  user_space m = true →
  pool_alloc fuel pool size alignment os m = Ok ((0, pool'), m') →
  (pool' = pool ∧ m' = m) ∨
  (∃ bytes, os_grants m os bytes = true ∧ mapped m' = (os, bytes) :: mapped m).
Proof.
  intros Hu H. unfold pool_alloc in H. destruct pool as [p|].
  2: { apply ret_Ok in H as [H ->]. injection H as <-. auto. }
  destruct (_ || _).
  { apply ret_Ok in H as [H ->]. injection H as <-. auto. }
  inv_bind H. destruct a as [result p1].
  destruct (Z.eqb_spec result 0) as [-> | Hnz]; cbn [negb] in H.
  2: { apply ret_Ok in H as [H _]. injection H as H _. contradiction. }
  apply (remove_free_block_loop_miss _ _ _ _ _ _ _ _ _ Hu) in Hrun as [-> ->].
  inv_bind H. destruct (Z.eqb_spec a 0) as [-> | Hnz]; cbn [negb] in H.
  2: { apply ret_Ok in H as [H _]. injection H as H _. contradiction. }
  apply (bump_loop_miss _ _ _ _ _ _ Hu) in Hrun as ->.
  cbv zeta in H. inv_bind H.
  apply VirtualAlloc_inv in Hrun as [[-> ->] | (-> & Hg & ->)].
  { cbn [Z.eqb] in H. apply ret_Ok in H as [H ->]. injection H as <-. auto. }
  right. eexists. split; [exact Hg |].
  destruct (os =? 0).
  { apply ret_Ok in H as [_ <-]. reflexivity. }
  apply bind_Ok in H as (? & ma & Ha & H). apply store64_mapped in Ha.
  apply bind_Ok in H as (? & mb & Hb & H). apply store64_mapped in Hb.
  apply bind_Ok in H as (? & mc & Hc & H). apply store64_mapped in Hc.
  apply bind_Ok in H as (? & md & Hd & H). apply store64_mapped in Hd.
  apply bind_Ok in H as (p2 & me & He & H).
  apply bind_Ok in H as (r & mf & Hf & H). apply alloc_from_block_mapped in Hf.
  apply ret_Ok in H as [_ <-].
  assert (Hlink : mapped me = mapped md).
  { destruct (block_head p =? 0).
    - apply ret_Ok in He as [_ ->]. reflexivity.
    - apply bind_Ok in He as (last & ml & Hl & He). apply last_block_memory in Hl as ->.
      apply bind_Ok in He as (? & ms & Hs & He). apply store64_mapped in Hs.
      apply ret_Ok in He as [_ <-]. exact Hs. }
  cbn [mapped] in *. congruence.
Qed.

(** When the system refuses the region, a [pool_alloc] that returns 0
    leaves the handle and the memory as they were. *)
Lemma pool_alloc_refused fuel pool size alignment m pool' m' :
  user_space m = true →
  pool_alloc fuel pool size alignment 0 m = Ok ((0, pool'), m') →
  pool' = pool ∧ m' = m.
Proof.
  intros Hu H. destruct (pool_alloc_failure _ _ _ _ _ _ _ _ Hu H) as [? | (bytes & Hg & _)];
    [assumption |].
  apply os_grants_facts in Hg. lia.
Qed.
End PoolFailure.

Section BulkSetGeneral.

Lemma memset_spec p v n m b len :
  In (b, len) (mapped m) → 0 ≤ n → b ≤ p → p + n ≤ b + len →
  ∃ m', memset p v n m = Ok (tt, m') ∧
        mapped m' = mapped m ∧
        (∀ x, p ≤ x < p + n → byte_at (contents m') x = v mod 256) ∧
        (∀ x, ¬ (p ≤ x < p + n) → byte_at (contents m') x = byte_at (contents m) x).
Proof.
  intros Hin Hn Hb Hlen. unfold memset.
  destruct (Z.eqb_spec n 0) as [-> | Hnz].
  - exists m. split; [reflexivity |]. split; [reflexivity |].
    split; [intros; lia | reflexivity].
  - rewrite (valid_of_region m b len) by (exact Hin || lia).
    eexists. split; [reflexivity |]. split; [reflexivity |]. cbn [contents].
    split; intros x Hx; rewrite byte_at_fill.
    + rewrite decide_True; [reflexivity |]. rewrite Z2Nat.id by lia. lia.
    + rewrite decide_False; [reflexivity |]. rewrite Z2Nat.id by lia. lia.
Qed.

(** [simd_memset] on a buffer inside one mapped region. *)
Lemma simd_memset_spec p v size m b len :
  In (b, len) (mapped m) → 0 ≤ size → 0 ≤ b ≤ p → p + size ≤ b + len → b + len < WORD →
  ∃ m', simd_memset p v size m = Ok (tt, m') ∧
        mapped m' = mapped m ∧
        (∀ x, p ≤ x < p + size → byte_at (contents m') x = v mod 256) ∧
        (∀ x, ¬ (p ≤ x < p + size) → byte_at (contents m') x = byte_at (contents m) x).
Proof.
  intros Hin Hsize Hb Hlen Hword. unfold simd_memset.
  pose proof (Z.mod_pos_bound p 32 ltac:(lia)) as Hmis.
  (* the unaligned head *)
  assert (Hhead : ∃ p1 size1 m1,
    (if negb (p mod 32 =? 0)
     then
       let align_bytes := wsub 32 (p mod 32) in
       let align_bytes := if align_bytes >? size then size else align_bytes in
       run memset p v align_bytes; ret (wadd p align_bytes, wsub size align_bytes)
     else ret (p, size)) m = Ok ((p1, size1), m1) ∧
    mapped m1 = mapped m ∧ 0 ≤ size1 ∧ p1 + size1 = p + size ∧ p ≤ p1 ∧
    (size1 < 32 ∨ p1 mod 32 = 0) ∧
    (∀ x, p ≤ x < p1 → byte_at (contents m1) x = v mod 256) ∧
    (∀ x, ¬ (p ≤ x < p1) → byte_at (contents m1) x = byte_at (contents m) x)).
  { destruct (Z.eqb_spec (p mod 32) 0) as [Hal | Hnal]; cbn [negb].
    - exists p, size, m. split; [reflexivity |]. split; [reflexivity |].
      split; [lia |]. split; [lia |]. split; [lia |]. split; [now right |].
      split; [intros; lia | reflexivity].
    - cbv zeta. rewrite (wsub_small 32) by word_lia.
      set (ab := if 32 - p mod 32 >? size then size else 32 - p mod 32).
      assert (Hab : 0 ≤ ab ≤ size ∧ ab ≤ 32 - p mod 32 ∧ (ab = size ∨ ab = 32 - p mod 32)).
      { subst ab. destruct (Z.gtb_spec (32 - p mod 32) size); lia. }
      destruct (memset_spec p v ab m b len Hin ltac:(lia) ltac:(lia) ltac:(lia))
        as (m1 & Hrun & Hmap & Hset & Hframe).
      rewrite (bind_step _ _ _ _ _ Hrun).
      rewrite wadd_small, wsub_small by word_lia.
      exists (p + ab), (size - ab), m1. split; [reflexivity |]. split; [exact Hmap |].
      split; [lia |]. split; [lia |]. split; [lia |]. split.
      + destruct Hab as (_ & _ & [-> | ->]); [left; lia | right].
        replace (p + (32 - p mod 32)) with (p - p mod 32 + 1 * 32) by lia.
        rewrite Z.mod_add by lia. rewrite Zminus_mod, Z.mod_mod by lia.
        now rewrite Z.sub_diag.
      + split; [exact Hset | exact Hframe]. }
  destruct Hhead as (p1 & size1 & m1 & Hrun1 & Hmap1 & Hsize1 & Hsum & Hp1 & Hal1 & Hset1 & Hframe1).
  rewrite (bind_step _ _ _ _ _ Hrun1).
  pose proof (Z.div_mod size1 32 ltac:(lia)) as Hdm.
  pose proof (Z.mod_pos_bound size1 32 ltac:(lia)) as Hrem.
  assert (Hq : 0 ≤ size1 / 32) by (apply Z.div_pos; lia).
  (* the vector stores *)
  assert (Hbody : ∃ m2,
    simd_store_loop (Z.to_nat (size1 / 32)) 0 p1 v m1 = Ok (tt, m2) ∧
    mapped m2 = mapped m1 ∧
    (∀ x, p1 ≤ x < p1 + size1 / 32 * 32 → byte_at (contents m2) x = v mod 256) ∧
    (∀ x, ¬ (p1 ≤ x < p1 + size1 / 32 * 32) →
       byte_at (contents m2) x = byte_at (contents m1) x)).
  { destruct Hal1 as [Hsmall | Hal1].
    - rewrite (Z.div_small size1 32) by lia. exists m1.
      split; [reflexivity |]. split; [reflexivity |]. split; [intros; lia | reflexivity].
    - destruct (simd_store_loop_spec (Z.to_nat (size1 / 32)) 0 p1 v m1 b len)
        as (m2 & Hrun & Hmap & Hset & Hframe);
        [rewrite Hmap1; exact Hin | exact Hal1 | lia | lia | lia | lia |].
      rewrite Z2Nat.id in Hset, Hframe by lia.
      exists m2. split; [exact Hrun |]. split; [exact Hmap |].
      split; intros x Hx; [apply Hset | apply Hframe]; lia. }
  destruct Hbody as (m2 & Hrun2 & Hmap2 & Hset2 & Hframe2).
  rewrite (bind_step _ _ _ _ _ Hrun2).
  (* the tail *)
  destruct (Z.eqb_spec (size1 mod 32) 0) as [Hz | Hnz]; cbn [negb].
  - exists m2. split; [reflexivity |]. split; [congruence |]. split.
    + intros x Hx. destruct (Z.lt_ge_cases x p1).
      * rewrite Hframe2 by lia. apply Hset1. lia.
      * apply Hset2. lia.
    + intros x Hx. rewrite Hframe2 by lia. apply Hframe1. lia.
  - rewrite (wsub_small size1), (wadd_small p1) by lia.
    destruct (memset_spec (p1 + (size1 - size1 mod 32)) v (size1 mod 32) m2 b len)
      as (m3 & Hrun3 & Hmap3 & Hset3 & Hframe3);
      [rewrite Hmap2, Hmap1; exact Hin | lia | lia | lia |].
    exists m3. split; [exact Hrun3 |]. split; [congruence |]. split.
    + intros x Hx. destruct (Z.lt_ge_cases x (p1 + (size1 - size1 mod 32))).
      * rewrite Hframe3 by lia. destruct (Z.lt_ge_cases x p1).
        -- rewrite Hframe2 by lia. apply Hset1. lia.
        -- apply Hset2. lia.
      * apply Hset3. lia.
    + intros x Hx. rewrite Hframe3 by lia. rewrite Hframe2 by lia. apply Hframe1. lia.
Qed.
(** The contract of the bulk-set utility, for any alignment of the
    buffer: the call returns, every byte of the buffer holds the value and
    no byte outside the buffer has changed. *)
Theorem simd_memset_fills_buffer p v size m b len :
  In (b, len) (mapped m) → 0 ≤ size → 0 ≤ b ≤ p → p + size ≤ b + len → b + len < WORD →
  ∃ m', simd_memset p v size m = Ok (tt, m') ∧
        mapped m' = mapped m ∧
        (∀ x, p ≤ x < p + size → byte_at (contents m') x = v mod 256) ∧
        (∀ x, ¬ (p ≤ x < p + size) → byte_at (contents m') x = byte_at (contents m) x).
Proof. exact (simd_memset_spec p v size m b len). Qed.

Lemma simd_memset_fills_buffer_witness :
  let m := memory_after (VirtualAlloc 65536 4096 empty_memory) in
  In (65536, 4096) (mapped m) ∧
  ∃ m', simd_memset 65539 171 100 m = Ok (tt, m') ∧
        mapped m' = mapped m ∧
        (∀ x, 65539 ≤ x < 65539 + 100 → byte_at (contents m') x = 171 mod 256) ∧
        (∀ x, ¬ (65539 ≤ x < 65539 + 100) → byte_at (contents m') x = byte_at (contents m) x).
Proof.
  intros m. split; [vm_compute; left; reflexivity |].
  apply (simd_memset_fills_buffer 65539 171 100 m 65536 4096).
  - vm_compute. left. reflexivity.
  - lia.
  - lia.
  - lia.
  - word_lia.
Defined.
End BulkSetGeneral.

Section AlignmentTest.
Import Pool PoolRuns.

(** [a & (a - 1)] is zero exactly for the powers of two, among the
    non-zero words. *)
Lemma bit_test_power_of_two a :
  0 < a < WORD → wand a (wsub a 1) = 0 ↔ power_of_two a.
Proof.
  intros Ha. rewrite wsub_small by lia. unfold wand. split.
  - intros Hland.
    pose proof (Z.log2_spec a ltac:(lia)) as [Hlo Hhi].
    pose proof (Z.log2_nonneg a) as Hk.
    exists (Z.log2 a). split.
    + split; [exact Hk |]. apply Z.log2_lt_pow2; [lia |]. unfold WORD in Ha. lia.
    + destruct (Z.eq_dec a (2 ^ Z.log2 a)) as [? | Hne]; [assumption | exfalso].
      pose proof (Z.pow_pos_nonneg 2 (Z.log2 a) ltac:(lia) Hk) as Hpos.
      assert (H1 : Z.testbit a (Z.log2 a) = true) by (apply Z.bit_log2; lia).
      assert (Hl : Z.log2 (a - 1) = Z.log2 a).
      { apply Z.log2_unique; [exact Hk |]. rewrite Z.pow_succ_r in Hhi by lia.
        rewrite Z.pow_succ_r by lia. lia. }
      assert (H2 : Z.testbit (a - 1) (Z.log2 a) = true)
        by (rewrite <- Hl; apply Z.bit_log2; lia).
      assert (Hbit : Z.testbit (Z.land a (a - 1)) (Z.log2 a) = true)
        by (rewrite Z.land_spec, H1, H2; reflexivity).
      rewrite Hland in Hbit. rewrite Z.bits_0 in Hbit. discriminate.
  - intros (k & Hk & ->).
    replace (2 ^ k - 1) with (Z.ones k) by (rewrite Z.ones_equiv; lia).
    rewrite Z.land_ones by lia. apply Z.mod_same.
    pose proof (Z.pow_pos_nonneg 2 k ltac:(lia) ltac:(lia)). lia.
Qed.

(** [pool_alloc] turns down, with 0 and nothing touched, a null handle, a
    zero size, and every non-zero alignment that is not a power of two. *)
Theorem pool_alloc_rejects_bad_arguments fuel pool size alignment os m :
  pool = None ∨ size = 0 ∨ (0 < alignment < WORD ∧ ¬ power_of_two alignment) →
  pool_alloc fuel pool size alignment os m = Ok ((0, pool), m).
Proof.
  intros H. apply pool_alloc_rejects.
  destruct H as [H | [H | [Ha Hnp]]]; [auto | auto |].
  right. right. intros Hz. apply Hnp. now apply bit_test_power_of_two.
Qed.

Lemma three_is_no_power_of_two : ¬ power_of_two 3.
Proof.
  intros (k & Hk & H).
  destruct (Z.eq_dec k 0) as [-> | ?]; [discriminate |].
  destruct (Z.eq_dec k 1) as [-> | ?]; [discriminate |].
  pose proof (Z.pow_le_mono_r 2 2 k ltac:(lia) ltac:(lia)). change (2 ^ 2) with 4 in *. lia.
Qed.

Lemma sixteen_is_a_power_of_two : power_of_two 16.
Proof. exists 4. split; [lia | reflexivity]. Qed.

Lemma pool_alloc_rejects_bad_arguments_witness :
  pool_alloc 8 (Some unused_pool) 16 3 131072 empty_memory
    = Ok ((0, Some unused_pool), empty_memory).
Proof.
  apply pool_alloc_rejects_bad_arguments. right. right.
  split; [word_lia | exact three_is_no_power_of_two].
Defined.

End AlignmentTest.

Section SlabRoundTrips.
Import Slab SlabRuns.

Lemma bytes_ok_byte m a : bytes_ok m → 0 ≤ byte_at (contents m) a < 256.
Proof.
  intros Hb. unfold byte_at. destruct (contents m !! a) as [b|] eqn:Hl; cbn; [| lia].
  exact (Hb a b Hl).
Qed.

(** A little-endian load of bytes is below [256^n]. *)
Lemma load_le_range n : ∀ h a,
  (∀ x, 0 ≤ byte_at h x < 256) → 0 ≤ load_le n h a < 256 ^ Z.of_nat n.
Proof.
  induction n as [|n IH]; intros h a Hb.
  - cbn. lia.
  - cbn [load_le]. rewrite Nat2Z.inj_succ, Z.pow_succ_r by lia.
    specialize (IH h (a + 1) Hb). specialize (Hb a). lia.
Qed.

(** [slab_free] pushes what [%rcx] holds, whatever the pointer it is
    given.  For every non-null [ptr] and every mapped, non-null address
    [rcx] in the register, the call writes the old head to the word at
    [rcx], changes no other byte and makes [rcx] the head; the next
    [slab_alloc] then returns [rcx + 32] and leaves the handle as it was
    before the free.  So the pointer handed out is the freed one when
    [%rcx] held [ptr - 32], and another address otherwise. *)
Theorem slab_free_then_alloc rcx s m ptr :
  ptr ≠ 0 → rcx ≠ 0 → user_space m = true → valid m rcx 8 = true →
  0 ≤ free_list s < WORD →
  ∃ m', slab_free rcx (Some s) ptr m = Ok (Some (set_head s rcx), m') ∧
        mapped m' = mapped m ∧
        load_le 8 (contents m') rcx = free_list s ∧
        (∀ x, ¬ (rcx ≤ x < rcx + 8) → byte_at (contents m') x = byte_at (contents m) x) ∧
        slab_alloc (Some (set_head s rcx)) m' = Ok ((rcx + 32, Some s), m').
Proof.
  intros Hp Hr Hu Hvalid Hfl.
  pose proof (valid_user_space _ _ _ Hu Hvalid) as [Hlo Hhi]. unfold USER_SPACE_END in Hhi.
  unfold slab_free.
  destruct (Z.eqb_spec ptr 0) as [? | _]; [contradiction |].
  rewrite (bind_step _ _ _ _ _ (store64_Ok _ _ _ Hvalid)).
  set (m' := mkMemory _ _).
  exists m'. split; [reflexivity |]. split; [reflexivity |].
  assert (Hload : load_le 8 (contents m') rcx = free_list s)
    by (subst m'; cbn [contents]; apply load_store_same; lia).
  split; [exact Hload |]. split.
  { intros x Hx. subst m'. cbn [contents]. rewrite byte_at_store_le.
    rewrite decide_False by (change (Z.of_nat 8) with 8; lia). reflexivity. }
  unfold slab_alloc. cbn [set_head free_list memory object_size total_objects].
  destruct (Z.eqb_spec rcx 0) as [? | _]; [contradiction |].
  assert (Hvalid' : valid m' rcx 8 = true) by exact Hvalid.
  rewrite (bind_step _ _ _ _ _ (load64_Ok _ _ Hvalid')). rewrite Hload.
  cbn [negb]. unfold HEADER_SIZE. rewrite wadd_small by word_lia.
  destruct s; reflexivity.
Qed.

Lemma slab_free_then_alloc_witness :
  let s := mkSlab 65536 64 3 65664 in
  let m := memory_after (slab_init (Some unused_slab) 3 64 65536 empty_memory) in
  (65568 ≠ 0 ∧ 65600 ≠ 0 ∧ user_space m = true ∧ valid m 65600 8 = true ∧
   0 ≤ free_list s < WORD) ∧
  ∃ m', slab_free 65600 (Some s) 65568 m = Ok (Some (set_head s 65600), m') ∧
        mapped m' = mapped m ∧
        load_le 8 (contents m') 65600 = free_list s ∧
        (∀ x, ¬ (65600 ≤ x < 65600 + 8) → byte_at (contents m') x = byte_at (contents m) x) ∧
        slab_alloc (Some (set_head s 65600)) m' = Ok ((65600 + 32, Some s), m').
Proof.
  intros s m.
  assert (H1 : 65568 ≠ 0) by lia.
  assert (H2 : 65600 ≠ 0) by lia.
  assert (H3 : user_space m = true) by (vm_compute; reflexivity).
  assert (H4 : valid m 65600 8 = true) by (vm_compute; reflexivity).
  assert (H5 : 0 ≤ free_list s < WORD) by (cbn; word_lia).
  split; [auto 10 |].
  exact (slab_free_then_alloc 65600 s m 65568 H1 H2 H3 H4 H5).
Defined.
End SlabRoundTrips.

Section SlabSafety.
Import Slab SlabRuns.

(** In a build that keeps [obj] in [%rcx] at the push of [slab_free]:
    on an initialised slab every client run of allocations, frees of
    pointers it was given and resets ends without a crash, and every
    pointer it got is null or the user pointer [memory + j * object_size +
    32] of a cell [j] of the slab, a multiple of 16. *)
Theorem slab_client_gets_objects s0 N osz os m s m1 ops :
  0 ≤ N < WORD → 0 ≤ osz < WORD → user_space m = true →
  slab_init (Some s0) N osz os m = Ok ((1, Some s), m1) →
  ∃ ptrs m2,
    run_ops obj_in_rcx ops (Some s) [] m1 = Ok (ptrs, m2) ∧
    Forall (λ p, p = 0 ∨
                 (p mod 16 = 0 ∧ ∃ j, 0 ≤ j < N ∧ p = memory s + j * object_size s + 32))
           ptrs.
Proof.
  intros HN0 Hosz0 Huser Hinit.
  pose proof (slab_init_guard _ _ _ _ _ _ _ Hinit) as [HN1 Hosz8].
  assert (HN : 1 ≤ N < WORD) by lia. assert (Hosz : 8 ≤ osz < WORD) by lia.
  pose proof (fresh_slab_is s0 N osz os m _ m1 HN Hosz Hinit) as Hs.
  injection Hs as ->.
  pose proof (fresh_slab_shape s0 N osz os m _ m1 HN Hosz Huser Hinit) as Hshape.
  pose proof (fresh_slab_links s0 N osz os m _ m1 HN Hosz Huser Hinit) as Hasc.
  pose proof (links_ascending_links (mkSlab os (align_size osz) N os) m1
                eq_refl Hshape Hasc) as Hlinks.
  destruct (run_ops_objects ops _ m1 [] Hshape Hlinks (Forall_nil_2 _))
    as (ptrs & m2 & Hrun & Hptrs).
  exists ptrs, m2. split; [exact Hrun |].
  eapply Forall_impl; [exact Hptrs |].
  intros p Hp. destruct (Z.eq_dec p 0) as [-> | Hnz]; [now left |]. right.
  split; [exact (object_aligned _ _ _ Hshape Hp Hnz) |].
  destruct Hp as [? | Hobj]; [contradiction | exact Hobj].
Qed.

(** [slab_reset] on an initialised slab, whatever its free list: the call
    returns, the head is back at the first cell, every byte of the slab's
    region is zero, and no byte outside the region has changed. *)
Theorem slab_reset_zeroes_region s m :
  slab_shape s m →
  ∃ m', slab_reset (Some s) m = Ok (Some (set_head s (memory s)), m') ∧
        mapped m' = mapped m ∧
        (∀ x, memory s ≤ x < memory s + object_size s * total_objects s →
           byte_at (contents m') x = 0) ∧
        (∀ x, ¬ (memory s ≤ x < memory s + object_size s * total_objects s) →
           byte_at (contents m') x = byte_at (contents m) x).
Proof.
  intros Hshape.
  pose proof Hshape as [Hmapped Hbase Hend Hal [Hcsz Hcsz16] Hcount].
  assert (Hword : memory s + object_size s * total_objects s < WORD)
    by (unfold USER_SPACE_END in Hend; word_lia).
  assert (HNw : total_objects s ≤ object_size s * total_objects s) by nia.
  unfold slab_reset.
  rewrite (wsub_small (total_objects s) 1) by lia.
  destruct (link_objects_spec (Z.to_nat (total_objects s - 1)) 0 (memory s) (object_size s)
              (object_size s * total_objects s) m)
    as (m1 & Hrun & Hmap1 & _ & Hframe1); [exact Hmapped | lia | lia | lia | nia | lia |].
  rewrite Z2Nat.id in Hframe1 by lia.
  rewrite (bind_step _ _ _ _ _ Hrun).
  rewrite (wmul_small (total_objects s - 1)), wadd_small by nia.
  assert (Hvalid : valid m1 (memory s + (total_objects s - 1) * object_size s) 8 = true)
    by (eapply valid_of_region; [rewrite Hmap1; exact Hmapped | nia | nia]).
  rewrite (bind_step _ _ _ _ _ (store64_Ok _ _ _ Hvalid)). set (m2 := mkMemory _ _).
  rewrite (wmul_small (object_size s)) by nia.
  destruct (simd_memset_spec (memory s) 0 (object_size s * total_objects s) m2
              (memory s) (object_size s * total_objects s))
    as (m3 & Hset & Hmap3 & Hzero & Hframe3);
    [cbn [mapped m2]; rewrite Hmap1; exact Hmapped | nia | lia | lia | lia |].
  rewrite (bind_step _ _ _ _ _ Hset).
  exists m3. split; [reflexivity |]. split; [rewrite Hmap3; exact Hmap1 |].
  split; [exact Hzero |].
  intros x Hx. rewrite Hframe3 by exact Hx. subst m2. cbn [contents].
  rewrite byte_at_store_le. rewrite decide_False by (change (Z.of_nat 8) with 8; nia).
  apply Hframe1. nia.
Qed.

(** After [slab_reset] one object can be allocated and no more, whatever
    the capacity: the zeroing erases the links that the reset has just
    written. *)
Theorem slab_reset_leaves_one_allocation s m :
  slab_shape s m →
  ∃ slab' m',
    slab_reset (Some s) m = Ok (slab', m') ∧
    alloc_many 2 slab' m' = Ok (([memory s + 32; 0], Some (set_head s 0)), m').
Proof.
  intros Hshape. destruct (slab_reset_then_two_allocs s m Hshape) as (m' & Hreset & Hallocs).
  exists (Some (set_head s (memory s))), m'. split; [exact Hreset | exact Hallocs].
Qed.
Lemma slab_client_gets_objects_witness :
  ∃ s m1,
    slab_init (Some unused_slab) 3 64 65536 empty_memory = Ok ((1, Some s), m1) ∧
    ∃ ptrs m2,
      run_ops obj_in_rcx [OpAlloc; OpAlloc; OpFree 0; OpAlloc; OpReset; OpAlloc; OpAlloc]
              (Some s) [] m1
        = Ok (ptrs, m2) ∧
      Forall (λ p, p = 0 ∨
                   (p mod 16 = 0 ∧ ∃ j, 0 ≤ j < 3 ∧ p = memory s + j * object_size s + 32))
             ptrs.
Proof.
  eexists. eexists. split; [vm_compute; reflexivity |].
  apply (slab_client_gets_objects unused_slab 3 64 65536 empty_memory).
  - word_lia.
  - word_lia.
  - vm_compute. reflexivity.
  - vm_compute. reflexivity.
Defined.

Lemma slab_reset_zeroes_region_witness :
  let s := mkSlab 65536 64 3 65536 in
  let m := memory_after (slab_init (Some unused_slab) 3 64 65536 empty_memory) in
  slab_shape s m ∧
  ∃ m', slab_reset (Some s) m = Ok (Some (set_head s (memory s)), m') ∧
        mapped m' = mapped m ∧
        (∀ x, memory s ≤ x < memory s + object_size s * total_objects s →
           byte_at (contents m') x = 0) ∧
        (∀ x, ¬ (memory s ≤ x < memory s + object_size s * total_objects s) →
           byte_at (contents m') x = byte_at (contents m) x).
Proof.
  intros s m.
  assert (Hshape : slab_shape s m).
  { apply (fresh_slab_shape unused_slab 3 64 65536 empty_memory (Some s) m).
    - word_lia.
    - word_lia.
    - vm_compute. reflexivity.
    - vm_compute. reflexivity. }
  split; [exact Hshape |].
  exact (slab_reset_zeroes_region s m Hshape).
Defined.

Lemma slab_reset_leaves_one_allocation_witness :
  let s := mkSlab 65536 64 3 65536 in
  let m := memory_after (slab_init (Some unused_slab) 3 64 65536 empty_memory) in
  slab_shape s m ∧
  ∃ slab' m',
    slab_reset (Some s) m = Ok (slab', m') ∧
    alloc_many 2 slab' m' = Ok (([memory s + 32; 0], Some (set_head s 0)), m').
Proof.
  intros s m.
  assert (Hshape : slab_shape s m).
  { apply (fresh_slab_shape unused_slab 3 64 65536 empty_memory (Some s) m).
    - word_lia.
    - word_lia.
    - vm_compute. reflexivity.
    - vm_compute. reflexivity. }
  split; [exact Hshape |].
  exact (slab_reset_leaves_one_allocation s m Hshape).
Defined.
End SlabSafety.

Section PoolBump.
Import Pool PoolRuns.

Lemma wrap_bound x : 0 ≤ wrap x < WORD.
Proof. unfold wrap. apply Z.mod_pos_bound. reflexivity. Qed.

Lemma page_round_pos n : 0 < n → PAGE_SIZE ≤ page_round n.
Proof.
  intros Hn. unfold page_round, PAGE_SIZE.
  assert (1 ≤ (n + (4096 - 1)) / 4096) by (apply Z.div_le_lower_bound; lia). lia.
Qed.

(** An access inside the pages of a mapped region is valid. *)
Lemma valid_in_pages m b len a n :
  In (b, len) (mapped m) → b ≤ a → a + n ≤ b + page_round len → valid m a n = true.
Proof.
  intros Hin H1 H2. unfold valid. apply existsb_exists.
  exists (b, len). split; [exact Hin |].
  unfold in_region. cbn [fst snd]. apply andb_true_iff. split; apply Z.leb_le; lia.
Qed.

(** [x & ~(2^k - 1)] is [x] rounded down to a multiple of [2^k]. *)
Lemma wand_wnot_pow2 k y :
  0 ≤ k < 64 → 0 ≤ y < WORD → wand y (wnot (2 ^ k - 1)) = 2 ^ k * (y / 2 ^ k).
Proof.
  intros Hk Hy. unfold wand, wnot.
  replace (WORD - 1 - (2 ^ k - 1)) with (Z.shiftl (Z.ones (64 - k)) k).
  2: { rewrite Z.shiftl_mul_pow2, Z.ones_equiv by lia. unfold WORD.
       replace 64 with ((64 - k) + k) at 2 by lia. rewrite Z.pow_add_r by lia. lia. }
  replace (2 ^ k * (y / 2 ^ k)) with (Z.shiftl (Z.shiftr y k) k)
    by (rewrite Z.shiftl_mul_pow2, Z.shiftr_div_pow2 by lia; lia).
  apply Z.bits_inj'. intros n Hn.
  rewrite Z.land_spec, !Z.shiftl_spec by lia.
  destruct (Z.lt_ge_cases n k) as [Hlt | Hge].
  - rewrite (Z.testbit_neg_r (Z.ones (64 - k))), (Z.testbit_neg_r (Z.shiftr y k)) by lia.
    apply andb_false_r.
  - rewrite Z.shiftr_spec by lia. replace (n - k + k) with n by lia.
    destruct (Z.lt_ge_cases n 64) as [Hlt | Hge'].
    + rewrite Z.ones_spec_low by lia. apply andb_true_r.
    + rewrite Z.ones_spec_high by lia. rewrite andb_false_r.
      symmetry. apply Z.bits_above_log2; [lia |].
      destruct (Z.eq_dec y 0) as [-> | Hy0]; [simpl; lia |].
      apply Z.log2_lt_pow2; [lia |].
      apply Z.lt_le_trans with (2 ^ 64); [apply Hy |].
      apply Z.pow_le_mono_r; lia.
Qed.

(** Rounding [x] up to a multiple of a power of two, as the bump code does. *)
Lemma align_up_pow2 alignment x :
  power_of_two alignment → 0 ≤ x → x + alignment - 1 < WORD →
  let r := wand (wadd x (wsub alignment 1)) (wnot (wsub alignment 1)) in
  x ≤ r < x + alignment ∧ r mod alignment = 0.
Proof.
  intros (k & Hk & ->) Hx Hw. cbv zeta.
  pose proof (Z.pow_pos_nonneg 2 k ltac:(lia) ltac:(lia)) as Hpos.
  rewrite (wsub_small (2 ^ k) 1) by lia.
  rewrite wadd_small by lia.
  rewrite wand_wnot_pow2 by lia.
  pose proof (Z.div_mod (x + (2 ^ k - 1)) (2 ^ k) ltac:(lia)) as Hdm.
  pose proof (Z.mod_pos_bound (x + (2 ^ k - 1)) (2 ^ k) ltac:(lia)) as Hr.
  split; [lia |]. rewrite Z.mul_comm. apply Z.mod_mul. lia.
Qed.

(** What a bump attempt that returns has done.  [base], [rsize] and [off]
    are the fields of the region's [PoolBlock] before the call. *)
Lemma alloc_from_block_outcome b size alignment m r m' :
  power_of_two alignment →
  let base := load_le 8 (contents m) b in
  let rsize := load_le 8 (contents m) (b + 8) in
  let off := load_le 8 (contents m) (b + 16) in
  0 ≤ b → b + 32 ≤ base → 0 ≤ off → 0 ≤ size →
  base + off + 32 + alignment + size < WORD →
  alloc_from_block b size alignment m = Ok (r, m') →
  (r = 0 ∧ m' = m ∧
   ∃ p, base + off + 32 ≤ p < base + off + 32 + alignment ∧ p mod alignment = 0 ∧
        base + rsize < p + size) ∨
  (base + off + 32 ≤ r < base + off + 32 + alignment ∧ r mod alignment = 0 ∧
   r + size ≤ base + rsize ∧
   mapped m' = mapped m ∧
   load_le 8 (contents m') b = base ∧
   load_le 8 (contents m') (b + 8) = rsize ∧
   load_le 8 (contents m') (b + 16) = r + size - base ∧
   load_le 8 (contents m') (b + 24) = load_le 8 (contents m) (b + 24) ∧
   load_le 8 (contents m') (r - 32) = size ∧
   load_le 8 (contents m') (r - 24) = r - (base + off + 32) ∧
   load_le 8 (contents m') (r - 16) = 0 ∧
   ∀ x, ¬ (b + 16 ≤ x < b + 24) → ¬ (r - 32 ≤ x < r - 8) →
        byte_at (contents m') x = byte_at (contents m) x).
Proof.
  intros Hpow base rsize off Hb Hbase Hoff Hsize Hword H.
  pose proof (power_of_two_word alignment Hpow) as (k & Hk & Hak & Ha).
  unfold alloc_from_block, blk_offset, blk_base, blk_size in H.
  rewrite (wadd_small b 16), (wadd_small b 8) in H by lia.
  inv_bind H. apply load64_inv in Hrun as [-> ->]. cbv zeta in H.
  inv_bind H. apply load64_inv in Hrun as [-> ->]. cbv zeta in H.
  inv_bind H. apply load64_inv in Hrun as [-> ->].
  fold base rsize off in H.
  rewrite (wadd_small off base), (wadd_small (off + base) 32) in H by lia.
  pose proof (align_up_pow2 alignment (off + base + 32) Hpow ltac:(lia) ltac:(lia)) as Hup.
  cbv zeta in Hup.
  rewrite (wadd_small (off + base + 32)) in Hup
    by (rewrite wsub_small by lia; lia).
  rewrite (wadd_small (off + base + 32)) in H
    by (rewrite wsub_small by lia; lia).
  set (r9 := wand (off + base + 32 + wsub alignment 1) (wnot (wsub alignment 1))) in *.
  destruct Hup as [Hr9 Hal].
  rewrite (wsub_small r9) in H by lia.
  rewrite (wadd_small 32), (wadd_small (32 + _)), (wadd_small off) in H by lia.
  destruct (Z.gtb_spec (off + (32 + (r9 - (off + base + 32)) + size)) rsize) as [Hgt | Hle].
  - apply ret_Ok in H as [<- <-]. left. split; [reflexivity |]. split; [reflexivity |].
    exists r9. split; [lia |]. split; [exact Hal | lia].
  - right.
    rewrite (wsub_small r9 32) in H by lia.
    unfold hdr_size, hdr_padding, hdr_next_free in H.
    rewrite (wadd_small (r9 - 32) 8), (wadd_small (r9 - 32) 16) in H by lia.
    apply bind_Ok in H as (? & ma & Ha1 & H). apply store64_inv in Ha1 as [_ ->].
    apply bind_Ok in H as (? & mb & Hb1 & H). apply store64_inv in Hb1 as [_ ->].
    apply bind_Ok in H as (? & mc & Hc1 & H). apply store64_inv in Hc1 as [_ ->].
    apply bind_Ok in H as (? & md & Hd1 & H). apply store64_inv in Hd1 as [_ ->].
    apply ret_Ok in H as [<- <-]. cbn [contents mapped].
    split; [lia |]. split; [exact Hal |]. split; [lia |]. split; [reflexivity |].
    repeat split.
    + rewrite !load_store_other by lia. reflexivity.
    + rewrite !load_store_other by lia. reflexivity.
    + rewrite !load_store_other by lia. rewrite load_store_same by lia. lia.
    + rewrite !load_store_other by lia. reflexivity.
    + rewrite !load_store_other by lia. rewrite load_store_same by lia. reflexivity.
    + replace (r9 - 24) with (r9 - 32 + 8) by lia.
      rewrite !load_store_other by lia. rewrite load_store_same by lia. lia.
    + replace (r9 - 16) with (r9 - 32 + 16) by lia.
      rewrite load_store_same by lia. reflexivity.
    + intros z Hz1 Hz2. rewrite !byte_at_store_le. change (Z.of_nat 8) with 8.
      rewrite !decide_False by lia. reflexivity.
Qed.

(** A bump attempt returns when the [PoolBlock] and the usable bytes of
    its region are mapped. *)
Lemma alloc_from_block_returns b size alignment m rb rlen :
  power_of_two alignment →
  let base := load_le 8 (contents m) b in
  let rsize := load_le 8 (contents m) (b + 8) in
  let off := load_le 8 (contents m) (b + 16) in
  0 ≤ b → b + 32 ≤ base → 0 ≤ off → 0 ≤ size →
  base + off + 32 + alignment + size < WORD →
  valid m b 32 = true →
  In (rb, rlen) (mapped m) → rb ≤ base → base + rsize ≤ rb + page_round rlen →
  ∃ r m', alloc_from_block b size alignment m = Ok (r, m').
Proof.
  intros Hpow base rsize off Hb Hbase Hoff Hsize Hword Hstruct Hin Hrb Hrlen.
  pose proof (power_of_two_word alignment Hpow) as (k & Hk & Hak & Ha).
  assert (Hfield : ∀ d, 0 ≤ d ≤ 24 → valid m (b + d) 8 = true).
  { intros d Hd. unfold valid in *. apply existsb_exists in Hstruct as (rg & Hrg & Hreg).
    apply existsb_exists. exists rg. split; [exact Hrg |]. unfold in_region in *.
    apply andb_true_iff in Hreg as [H1 H2]. apply Z.leb_le in H1, H2.
    apply andb_true_iff. split; apply Z.leb_le; lia. }
  unfold alloc_from_block, blk_offset, blk_base, blk_size.
  rewrite (wadd_small b 16), (wadd_small b 8) by lia.
  rewrite (bind_step _ _ _ _ _ (load64_Ok _ _ (Hfield 16 ltac:(lia)))). cbv zeta.
  pose proof (Hfield 0 ltac:(lia)) as H0. rewrite Z.add_0_r in H0.
  rewrite (bind_step _ _ _ _ _ (load64_Ok _ _ H0)). cbv zeta.
  rewrite (bind_step _ _ _ _ _ (load64_Ok _ _ (Hfield 8 ltac:(lia)))).
  fold base rsize off.
  rewrite (wadd_small off base), (wadd_small (off + base) 32) by lia.
  pose proof (align_up_pow2 alignment (off + base + 32) Hpow ltac:(lia) ltac:(lia)) as Hup.
  cbv zeta in Hup.
  rewrite (wadd_small (off + base + 32)) in Hup by (rewrite wsub_small by lia; lia).
  rewrite (wadd_small (off + base + 32)) by (rewrite wsub_small by lia; lia).
  set (r9 := wand (off + base + 32 + wsub alignment 1) (wnot (wsub alignment 1))) in *.
  destruct Hup as [Hr9 Hal].
  rewrite (wsub_small r9) by lia.
  rewrite (wadd_small 32), (wadd_small (32 + _)), (wadd_small off) by lia.
  destruct (Z.gtb_spec (off + (32 + (r9 - (off + base + 32)) + size)) rsize) as [Hgt | Hle].
  - eexists. eexists. reflexivity.
  - rewrite (wsub_small r9 32) by lia.
    unfold hdr_size, hdr_padding, hdr_next_free.
    rewrite (wadd_small (r9 - 32) 8), (wadd_small (r9 - 32) 16) by lia.
    rewrite (bind_step _ _ _ _ _ (store64_Ok _ _ _ (Hfield 16 ltac:(lia)))).
    assert (Hhdr : ∀ d mm, mapped mm = mapped m → 0 ≤ d ≤ 16 →
                     valid mm (r9 - 32 + d) 8 = true).
    { intros d mm Hmm Hd. apply (valid_in_pages mm rb rlen); [rewrite Hmm; exact Hin | lia | lia]. }
    pose proof (Hhdr 0) as Hh0. rewrite Z.add_0_r in Hh0.
    set (m1 := mkMemory _ _).
    rewrite (bind_step _ _ _ _ _ (store64_Ok _ _ _ (Hh0 m1 eq_refl ltac:(lia)))).
    set (m2 := mkMemory _ _).
    rewrite (bind_step _ _ _ _ _ (store64_Ok _ _ _ (Hhdr 8 m2 eq_refl ltac:(lia)))).
    set (m3 := mkMemory _ _).
    rewrite (bind_step _ _ _ _ _ (store64_Ok _ _ _ (Hhdr 16 m3 eq_refl ltac:(lia)))).
    eexists. eexists. reflexivity.
Qed.

(** The bump allocation in one region whose [PoolBlock] and usable bytes
    are mapped, for a request that keeps the 64-bit arithmetic from
    wrapping: [base + off + 32 + alignment + size] is below 2^64.
    [base], [rsize] and [off] are the fields of the [PoolBlock] before
    the call.  The call returns.  Either it returns 0
    and has changed nothing, because the padded request does not fit; or
    it returns the first multiple of [alignment] at or after
    [base + off + 32], the request lies inside the region, the bump
    offset has moved to the end of the request, and the header in front
    of the pointer records the size, the padding and a null link; no
    other byte changes. *)
Theorem bump_allocation b size alignment m rb rlen :
  power_of_two alignment →
  let base := load_le 8 (contents m) b in
  let rsize := load_le 8 (contents m) (b + 8) in
  let off := load_le 8 (contents m) (b + 16) in
  0 ≤ b → b + 32 ≤ base → 0 ≤ off → 0 ≤ size →
  base + off + 32 + alignment + size < WORD →
  valid m b 32 = true →
  In (rb, rlen) (mapped m) → rb ≤ base → base + rsize ≤ rb + page_round rlen →
  ∃ r m',
    alloc_from_block b size alignment m = Ok (r, m') ∧
    ((r = 0 ∧ m' = m ∧
      ∃ p, base + off + 32 ≤ p < base + off + 32 + alignment ∧ p mod alignment = 0 ∧
           base + rsize < p + size) ∨
     (base + off + 32 ≤ r < base + off + 32 + alignment ∧ r mod alignment = 0 ∧
      r + size ≤ base + rsize ∧
      mapped m' = mapped m ∧
      load_le 8 (contents m') b = base ∧
      load_le 8 (contents m') (b + 8) = rsize ∧
      load_le 8 (contents m') (b + 16) = r + size - base ∧
      load_le 8 (contents m') (b + 24) = load_le 8 (contents m) (b + 24) ∧
      load_le 8 (contents m') (r - 32) = size ∧
      load_le 8 (contents m') (r - 24) = r - (base + off + 32) ∧
      load_le 8 (contents m') (r - 16) = 0 ∧
      ∀ x, ¬ (b + 16 ≤ x < b + 24) → ¬ (r - 32 ≤ x < r - 8) →
           byte_at (contents m') x = byte_at (contents m) x)).
Proof.
  intros Hpow base rsize off Hb Hbase Hoff Hsize Hword Hstruct Hin Hrb Hrlen.
  destruct (alloc_from_block_returns b size alignment m rb rlen Hpow Hb Hbase Hoff Hsize
              Hword Hstruct Hin Hrb Hrlen) as (r & m' & Hrun).
  exists r, m'. split; [exact Hrun |].
  exact (alloc_from_block_outcome b size alignment m r m' Hpow Hb Hbase Hoff Hsize Hword Hrun).
Qed.
Lemma bump_allocation_witness :
  let m := memory_after (fresh_pool empty_memory) in
  ∃ r m',
    alloc_from_block 65536 100 16 m = Ok (r, m') ∧
    ((r = 0 ∧ m' = m ∧
      ∃ p, 65568 + 0 + 32 ≤ p < 65568 + 0 + 32 + 16 ∧ p mod 16 = 0 ∧
           65568 + 4096 < p + 100) ∨
     (65568 + 0 + 32 ≤ r < 65568 + 0 + 32 + 16 ∧ r mod 16 = 0 ∧
      r + 100 ≤ 65568 + 4096 ∧
      mapped m' = mapped m ∧
      load_le 8 (contents m') 65536 = 65568 ∧
      load_le 8 (contents m') (65536 + 8) = 4096 ∧
      load_le 8 (contents m') (65536 + 16) = r + 100 - 65568 ∧
      load_le 8 (contents m') (65536 + 24) = load_le 8 (contents m) (65536 + 24) ∧
      load_le 8 (contents m') (r - 32) = 100 ∧
      load_le 8 (contents m') (r - 24) = r - (65568 + 0 + 32) ∧
      load_le 8 (contents m') (r - 16) = 0 ∧
      ∀ x, ¬ (65536 + 16 ≤ x < 65536 + 24) → ¬ (r - 32 ≤ x < r - 8) →
           byte_at (contents m') x = byte_at (contents m) x)).
Proof.
  intros m.
  apply (bump_allocation 65536 100 16 m 65536 4128).
  - exact sixteen_is_a_power_of_two.
  - lia.
  - vm_compute. discriminate.
  - vm_compute. discriminate.
  - lia.
  - vm_compute. reflexivity.
  - vm_compute. reflexivity.
  - vm_compute. left. reflexivity.
  - vm_compute. discriminate.
  - vm_compute. discriminate.
Defined.
End PoolBump.

Section PoolInit.
Import Pool PoolRuns.

Lemma granularity_divides os : os mod ALLOCATION_GRANULARITY = 0 → ∃ q, os = 65536 * q.
Proof.
  unfold ALLOCATION_GRANULARITY. intros H. exists (os / 65536).
  pose proof (Z.div_mod os 65536 ltac:(lia)). lia.
Qed.

(** What [pool_init] does, in full: the memory it leaves on success. *)
Lemma pool_init_run p0 pool_size os m :
  0 ≤ pool_size < WORD →
  (pool_init (Some p0) pool_size os m = Ok ((0, Some p0), m) ∧
   (pool_size = 0 ∨ os_grants m os (wadd pool_size 32) = false)) ∨
  (pool_size ≠ 0 ∧ os_grants m os (wadd pool_size 32) = true ∧
   ∃ h, pool_init (Some p0) pool_size os m
          = Ok ((1, Some (mkPool os 0 pool_size)),
                mkMemory h ((os, wadd pool_size 32) :: mapped m)) ∧
        load_le 8 h os = os + 32 ∧ load_le 8 h (os + 8) = pool_size ∧
        load_le 8 h (os + 16) = 0 ∧ load_le 8 h (os + 24) = 0).
Proof.
  intros Hsize. unfold pool_init.
  destruct (Z.eqb_spec pool_size 0) as [-> | Hnz]; [left; auto |].
  unfold SIZEOF_POOLBLOCK.
  destruct (os_grants m os (wadd pool_size 32)) eqn:Hg.
  2: { left. assert (Hva : VirtualAlloc os (wadd pool_size 32) m = Ok (0, m))
         by (unfold VirtualAlloc; now rewrite Hg).
       rewrite (bind_step _ _ _ _ _ Hva). auto. }
  right. split; [exact Hnz |]. split; [reflexivity |].
  pose proof (os_grants_facts _ _ _ Hg) as (Hbytes & Hos & Hgran & Hend).
  pose proof (page_round_pos _ Hbytes) as Hpage. unfold PAGE_SIZE in Hpage.
  unfold USER_SPACE_END in Hend.
  destruct (granularity_divides os Hgran) as (q & Hq).
  set (m0 := mkMemory (fresh_pages os (page_round (wadd pool_size 32)) (contents m))
                      ((os, wadd pool_size 32) :: mapped m)).
  assert (Hva : VirtualAlloc os (wadd pool_size 32) m = Ok (os, m0))
    by (unfold VirtualAlloc; now rewrite Hg).
  rewrite (bind_step _ _ _ _ _ Hva).
  destruct (Z.eqb_spec os 0) as [? | _]; [lia |].
  assert (Hbase : wand (wadd (wadd os 32) 15) (wnot 15) = os + 32).
  { rewrite (wadd_small os 32), (wadd_small (os + 32) 15) by word_lia.
    rewrite wand_wnot_15 by word_lia.
    replace (os + 32 + 15) with (4096 * q * 16 + 47) by lia.
    rewrite Z.div_add_l by lia. change (47 / 16) with 2. lia. }
  rewrite Hbase. unfold blk_base, blk_size, blk_offset, blk_next.
  rewrite !wadd_small by word_lia.
  assert (Hv : ∀ d mm, mapped mm = mapped m0 → 0 ≤ d ≤ 24 → valid mm (os + d) 8 = true).
  { intros d mm Hmm Hd. apply (valid_in_pages mm os (wadd pool_size 32));
      [rewrite Hmm; now left | lia | lia]. }
  pose proof (Hv 0) as Hv0. rewrite Z.add_0_r in Hv0.
  rewrite (bind_step _ _ _ _ _ (store64_Ok _ _ _ (Hv0 m0 eq_refl ltac:(lia)))).
  set (m1 := mkMemory _ _).
  rewrite (bind_step _ _ _ _ _ (store64_Ok _ _ _ (Hv 8 m1 eq_refl ltac:(lia)))).
  set (m2 := mkMemory _ _).
  rewrite (bind_step _ _ _ _ _ (store64_Ok _ _ _ (Hv 16 m2 eq_refl ltac:(lia)))).
  set (m3 := mkMemory _ _).
  rewrite (bind_step _ _ _ _ _ (store64_Ok _ _ _ (Hv 24 m3 eq_refl ltac:(lia)))).
  eexists. split; [reflexivity |].
  subst m3 m2 m1 m0. cbn [contents].
  repeat split.
  - rewrite !load_store_other by lia. apply load_store_same. word_lia.
  - rewrite !load_store_other by lia. apply load_store_same. lia.
  - rewrite !load_store_other by lia. apply load_store_same. word_lia.
  - apply load_store_same. word_lia.
Qed.

(** Reading back a region chain of one [PoolBlock]. *)
Lemma region_chain_single m os base rsize off :
  0 < os → os + 32 < WORD → valid m os 32 = true →
  load_le 8 (contents m) os = base → load_le 8 (contents m) (os + 8) = rsize →
  load_le 8 (contents m) (os + 16) = off → load_le 8 (contents m) (os + 24) = 0 →
  region_chain 2 os m = Ok ([(os, base, rsize, off)], m).
Proof.
  intros Hos Hw Hvalid Hb Hs Ho Hn.
  assert (Hfield : ∀ d, 0 ≤ d ≤ 24 → valid m (os + d) 8 = true).
  { intros d Hd. unfold valid in *. apply existsb_exists in Hvalid as (rg & Hrg & Hreg).
    apply existsb_exists. exists rg. split; [exact Hrg |]. unfold in_region in *.
    apply andb_true_iff in Hreg as [H1 H2]. apply Z.leb_le in H1, H2.
    apply andb_true_iff. split; apply Z.leb_le; lia. }
  cbn [region_chain]. destruct (Z.eqb_spec os 0) as [? | _]; [lia |].
  unfold blk_base, blk_size, blk_offset, blk_next. rewrite !wadd_small by lia.
  pose proof (Hfield 0 ltac:(lia)) as H0. rewrite Z.add_0_r in H0.
  rewrite (bind_step _ _ _ _ _ (load64_Ok _ _ H0)).
  rewrite (bind_step _ _ _ _ _ (load64_Ok _ _ (Hfield 8 ltac:(lia)))).
  rewrite (bind_step _ _ _ _ _ (load64_Ok _ _ (Hfield 16 ltac:(lia)))).
  rewrite (bind_step _ _ _ _ _ (load64_Ok _ _ (Hfield 24 ltac:(lia)))).
  rewrite Hb, Hs, Ho, Hn. reflexivity.
Qed.


(** The first allocation from a fresh pool, for an alignment up to 64:
    the request fits the first region, the pointer is 64 bytes past the
    region's start, and the bump offset becomes the header plus the
    request. *)
Theorem first_pool_alloc p0 pool_size os m pool m1 fuel size alignment os' :
  0 ≤ pool_size → pool_size + 32 < WORD →
  pool_init (Some p0) pool_size os m = Ok ((1, pool), m1) →
  power_of_two alignment → alignment ≤ 64 → 0 < size → size + 32 ≤ pool_size →
  (0 < fuel)%nat →
  ∃ m2, pool_alloc fuel pool size alignment os' m1 = Ok ((os + 64, pool), m2) ∧
        (os + 64) mod alignment = 0 ∧
        region_chain 2 os m2 = Ok ([(os, os + 32, pool_size, 32 + size)], m2).
Proof.
  intros Hps Hpw Hinit Hpow Hal64 Hsize Hfit Hfuel.
  destruct (pool_init_run p0 pool_size os m ltac:(lia))
    as [[Hrun _] | (Hnz & Hg & h & Hrun & Hb & Hs & Ho & Hn)].
  { rewrite Hrun in Hinit. discriminate. }
  rewrite Hrun in Hinit. injection Hinit as <- <-.
  pose proof (os_grants_facts _ _ _ Hg) as (Hbytes & Hos & Hgran & Hend).
  unfold USER_SPACE_END in Hend.
  destruct (granularity_divides os Hgran) as (q & Hq).
  pose proof (power_of_two_word alignment Hpow) as (k & Hk & Hak & Ha).
  rewrite (wadd_small pool_size 32) in * by lia.
  pose proof (page_round_ge (pool_size + 32)) as Hpr.
  remember (mkMemory h ((os, pool_size + 32) :: mapped m)) as m1 eqn:Hm1.
  assert (Hc : contents m1 = h) by (subst m1; reflexivity).
  assert (Hmp : In (os, pool_size + 32) (mapped m1)) by (subst m1; now left).
  rewrite <- Hc in Hb, Hs, Ho, Hn. clear Hm1 Hc Hrun.
  assert (Hdiv : (os + 64) mod alignment = 0).
  { assert (Hk6 : k ≤ 6).
    { destruct (Z.le_gt_cases k 6) as [? | Hgt]; [assumption |].
      pose proof (Z.pow_le_mono_r 2 7 k ltac:(lia) ltac:(lia)) as Hp.
      change (2 ^ 7) with 128 in Hp. lia. }
    subst alignment. apply Z.mod_divide; [lia |].
    exists ((1024 * q + 1) * 2 ^ (6 - k)).
    rewrite <- Z.mul_assoc, <- Z.pow_add_r by lia.
    replace (6 - k + k) with 6 by lia. change (2 ^ 6) with 64. lia. }
  assert (Hstruct : valid m1 os 32 = true)
    by (apply (valid_in_pages m1 os (pool_size + 32)); [exact Hmp | lia | lia]).
  destruct fuel as [|fuel]; [lia |].
  unfold pool_alloc.
  destruct (Z.eqb_spec size 0) as [? | _]; [lia |].
  rewrite (proj2 (bit_test_power_of_two alignment ltac:(lia)) Hpow).
  cbn [Z.eqb negb orb].
  assert (Hmiss : remove_free_block (S fuel) (mkPool os 0 pool_size) size alignment m1
                  = Ok ((0, mkPool os 0 pool_size), m1)) by reflexivity.
  rewrite (bind_step _ _ _ _ _ Hmiss). cbn [Z.eqb negb block_head].
  destruct (alloc_from_block_returns os size alignment m1 os (pool_size + 32) Hpow)
    as (r & m2 & Hbump);
    [lia | rewrite Hb; lia | rewrite Ho; lia | lia | rewrite Hb, Ho; word_lia | exact Hstruct
    | exact Hmp | rewrite Hb; lia | rewrite Hb, Hs; lia |].
  pose proof (alloc_from_block_outcome os size alignment m1 r m2 Hpow) as Hout.
  cbv zeta in Hout. rewrite Hb, Hs, Ho, Hn in Hout.
  specialize (Hout ltac:(lia) ltac:(lia) ltac:(lia) ltac:(lia) ltac:(word_lia) Hbump).
  assert (Hunique : ∀ p, os + 32 + 0 + 32 ≤ p < os + 32 + 0 + 32 + alignment →
                         p mod alignment = 0 → p = os + 64).
  { intros p Hp Hpm.
    assert (Hd : (p - (os + 64)) mod alignment = 0)
      by (rewrite Zminus_mod, Hpm, Hdiv; reflexivity).
    rewrite Z.mod_small in Hd by lia. lia. }
  destruct Hout as [(-> & -> & p & Hp & Hpm & Hover)
                   | (Hr & Hrm & Hin & Hmap & Hb' & Hs' & Ho' & Hn' & _)].
  { rewrite (Hunique p Hp Hpm) in Hover. lia. }
  rewrite (Hunique r Hr Hrm) in *.
  exists m2. split.
  - assert (Hloop : bump_loop (S fuel) os size alignment m1 = Ok (os + 64, m2)).
    { cbn [bump_loop]. destruct (Z.eqb_spec os 0) as [? | _]; [lia |].
      rewrite (bind_step _ _ _ _ _ Hbump).
      destruct (Z.eqb_spec (os + 64) 0) as [? | _]; [lia |]. reflexivity. }
    rewrite (bind_step _ _ _ _ _ Hloop).
    destruct (Z.eqb_spec (os + 64) 0) as [? | _]; [lia |]. reflexivity.
  - split; [exact Hdiv |].
    apply region_chain_single; [lia | word_lia | | exact Hb' | exact Hs' | | exact Hn'].
    + apply (valid_in_pages m2 os (pool_size + 32)); [rewrite Hmap; exact Hmp | lia | lia].
    + rewrite Ho'. lia.
Qed.

Lemma first_pool_alloc_witness :
  ∃ pool m1,
    pool_init (Some unused_pool) 4096 65536 empty_memory = Ok ((1, pool), m1) ∧
    ∃ m2, pool_alloc 8 pool 100 16 131072 m1 = Ok ((65536 + 64, pool), m2) ∧
          (65536 + 64) mod 16 = 0 ∧
          region_chain 2 65536 m2 = Ok ([(65536, 65536 + 32, 4096, 32 + 100)], m2).
Proof.
  eexists. eexists. split; [vm_compute; reflexivity |].
  apply (first_pool_alloc unused_pool 4096 65536 empty_memory).
  - lia.
  - word_lia.
  - vm_compute. reflexivity.
  - exact sixteen_is_a_power_of_two.
  - lia.
  - lia.
  - lia.
  - lia.
Defined.
End PoolInit.

Section PoolRoundTrip.
Import Pool PoolRuns.

Lemma bump_loop_hit fuel : ∀ b size alignment m r m1,
  bump_loop fuel b size alignment m = Ok (r, m1) → r ≠ 0 →
  ∃ b' m0, alloc_from_block b' size alignment m0 = Ok (r, m1) ∧ mapped m0 = mapped m.
Proof.
  induction fuel as [|fuel IH]; intros b size alignment m r m1 H Hr; [discriminate H |].
  cbn [bump_loop] in H. destruct (b =? 0).
  { apply ret_Ok in H as [<- _]. contradiction. }
  apply bind_Ok in H as (r0 & ma & Hbump & H).
  destruct (Z.eqb_spec r0 0) as [-> | Hnz]; cbn [negb] in H.
  - apply bind_Ok in H as (next & mb & Hnext & H). apply load64_inv in Hnext as [-> _].
    destruct (IH _ _ _ _ _ _ H Hr) as (b' & m0 & Hhit & Hmap).
    exists b', m0. split; [exact Hhit |].
    rewrite Hmap. exact (alloc_from_block_mapped _ _ _ _ _ _ Hbump).
  - apply ret_Ok in H as [<- <-]. exists b, m. auto.
Qed.

Lemma bump_loop_mapped fuel : ∀ b size alignment m r m1,
  bump_loop fuel b size alignment m = Ok (r, m1) → mapped m1 = mapped m.
Proof.
  induction fuel as [|fuel IH]; intros b size alignment m r m1 H; [discriminate H |].
  cbn [bump_loop] in H. destruct (b =? 0).
  { apply ret_Ok in H as [_ ->]. reflexivity. }
  apply bind_Ok in H as (r0 & ma & Hb & H). apply alloc_from_block_mapped in Hb.
  destruct (negb (r0 =? 0)).
  - apply ret_Ok in H as [_ <-]. exact Hb.
  - apply bind_Ok in H as (next & mx & Hn & H). apply load64_inv in Hn as [-> _].
    rewrite (IH _ _ _ _ _ _ H). exact Hb.
Qed.

Lemma null_unmapped_mapped m m' :
  mapped m' = mapped m → valid m 0 8 = false → valid m' 0 8 = false.
Proof. intros Hm H. now rewrite (valid_mapped m m'). Qed.

Lemma os_grants_mapped m m' os bytes :
  mapped m' = mapped m → os_grants m' os bytes = os_grants m os bytes.
Proof. unfold os_grants, region_free. now intros ->. Qed.

(** A successful [pool_alloc] on a pool with an empty free list ends with
    a successful bump, in a memory that is as sane as the one it began in. *)
Lemma pool_alloc_hit fuel p size alignment os m r pool1 m1 :
  free_list p = 0 → user_space m = true → valid m 0 8 = false →
  pool_alloc fuel (Some p) size alignment os m = Ok ((r, pool1), m1) → r ≠ 0 →
  size ≠ 0 ∧ wand alignment (wsub alignment 1) = 0 ∧
  ∃ p1 b m0,
    pool1 = Some p1 ∧ free_list p1 = 0 ∧
    alloc_from_block b size alignment m0 = Ok (r, m1) ∧
    user_space m0 = true ∧ valid m0 0 8 = false.
Proof.
  intros Hfl Hu Hnull H Hr. unfold pool_alloc in H.
  destruct (Z.eqb_spec size 0) as [? | Hsz]; cbn [orb] in H.
  { apply ret_Ok in H as [H _]. injection H as <- _. contradiction. }
  destruct (Z.eqb_spec (wand alignment (wsub alignment 1)) 0) as [Hbit | ?]; cbn [negb] in H.
  2: { apply ret_Ok in H as [H _]. injection H as <- _. contradiction. }
  split; [exact Hsz |]. split; [exact Hbit |].
  apply bind_Ok in H as ([r0 p0] & ma & Hff & H).
  assert (r0 = 0 ∧ p0 = p ∧ ma = m) as (-> & -> & ->).
  { unfold remove_free_block in Hff. rewrite Hfl in Hff.
    destruct fuel as [|fuel]; [discriminate Hff |].
    apply ret_Ok in Hff as [Hff <-]. injection Hff as <- <-. auto. }
  cbn [Z.eqb negb] in H.
  apply bind_Ok in H as (r1 & mb & Hbump & H).
  destruct (Z.eqb_spec r1 0) as [-> | Hnz]; cbn [negb] in H.
  2: { apply ret_Ok in H as [H <-]. injection H as <- <-.
       destruct (bump_loop_hit _ _ _ _ _ _ _ Hbump Hr) as (b & m0 & Hhit & Hmap).
       exists p, b, m0. split; [reflexivity |]. split; [exact Hfl |]. split; [exact Hhit |].
       split; [now rewrite (user_space_mapped m m0) | now apply (null_unmapped_mapped m)]. }
  pose proof (bump_loop_mapped _ _ _ _ _ _ _ Hbump) as Hmb.
  cbv zeta in H. apply bind_Ok in H as (nb & mc & Hva & H).
  apply VirtualAlloc_inv in Hva as [[-> ->] | (-> & Hg & ->)].
  { cbn [Z.eqb] in H. apply ret_Ok in H as [H _]. injection H as <- _. contradiction. }
  destruct (os =? 0).
  { apply ret_Ok in H as [H _]. injection H as <- _. contradiction. }
  apply bind_Ok in H as (? & m2 & H2 & H). apply store64_mapped in H2.
  apply bind_Ok in H as (? & m3 & H3 & H). apply store64_mapped in H3.
  apply bind_Ok in H as (? & m4 & H4 & H). apply store64_mapped in H4.
  apply bind_Ok in H as (? & m5 & H5 & H). apply store64_mapped in H5.
  apply bind_Ok in H as (p2 & m6 & H6 & H).
  apply bind_Ok in H as (r2 & m7 & H7 & H).
  apply ret_Ok in H as [H <-]. injection H as <- <-.
  assert (Hp2 : free_list p2 = 0 ∧ mapped m6 = mapped m5).
  { destruct (block_head p =? 0).
    - apply ret_Ok in H6 as [<- ->]. auto.
    - apply bind_Ok in H6 as (last & ml & Hl & H6). apply last_block_memory in Hl as ->.
      apply bind_Ok in H6 as (? & ms & Hs & H6). apply store64_mapped in Hs.
      apply ret_Ok in H6 as [<- <-]. auto. }
  destruct Hp2 as [Hp2 Hm6].
  exists p2, os, m6. split; [reflexivity |]. split; [exact Hp2 |]. split; [exact H7 |].
  assert (Hm6' : mapped m6 = (os, wadd (if initial_block_size p <? wadd size HEADER_SIZE
                                        then wadd size HEADER_SIZE else initial_block_size p)
                                       SIZEOF_POOLBLOCK) :: mapped mb)
    by (cbn [mapped] in *; congruence).
  pose proof (os_grants_facts _ _ _ Hg) as (_ & Hos & _ & Hend).
  split.
  - unfold user_space. rewrite Hm6'. cbn [forallb fst snd].
    apply andb_true_iff. split.
    + apply andb_true_iff. split; apply Z.leb_le; lia.
    + rewrite Hmb. exact Hu.
  - unfold valid. rewrite Hm6'. cbn [existsb]. apply orb_false_iff. split.
    + unfold in_region. cbn [fst]. apply andb_false_iff. left. apply Z.leb_gt. lia.
    + rewrite Hmb. exact Hnull.
Qed.

(** The header a successful bump leaves in front of the pointer. *)
Lemma alloc_from_block_header b size alignment m r m1 :
  power_of_two alignment → user_space m = true → 0 ≤ size < WORD →
  alloc_from_block b size alignment m = Ok (r, m1) → r ≠ 0 →
  0 ≤ r - 32 ∧ r - 8 ≤ USER_SPACE_END ∧ mapped m1 = mapped m ∧
  valid m1 (r - 32) 8 = true ∧ valid m1 (r - 16) 8 = true ∧
  load_le 8 (contents m1) (r - 32) = size ∧
  load_le 8 (contents m1) (r - 16) = 0.
Proof.
  intros Hpow Hu Hsize H Hr.
  pose proof (power_of_two_word alignment Hpow) as (k & Hk & Hak & Ha).
  unfold alloc_from_block in H.
  apply bind_Ok in H as (off & ? & Ho & H). apply load64_inv in Ho as [-> _]. cbv zeta in H.
  apply bind_Ok in H as (base & ? & Hb & H). apply load64_inv in Hb as [-> _]. cbv zeta in H.
  apply bind_Ok in H as (rsize & ? & Hs & H). apply load64_inv in Hs as [-> _].
  destruct (_ >? _).
  { apply ret_Ok in H as [<- _]. contradiction. }
  set (r9 := wand _ _) in *.
  assert (Hr9 : 0 ≤ r9 < WORD).
  { subst r9. rewrite (wsub_small alignment 1) by lia. rewrite Hak.
    pose proof (wrap_bound (wadd (wadd off base) 32 + (2 ^ k - 1))) as Hx.
    change (wadd (wadd (wadd off base) 32) (2 ^ k - 1))
      with (wrap (wadd (wadd off base) 32 + (2 ^ k - 1))).
    rewrite !wand_wnot_pow2 by (assumption || exact Hx).
    pose proof (Z.pow_pos_nonneg 2 k ltac:(lia) ltac:(lia)) as Hpos.
    pose proof (Z.div_mod (wrap (wadd (wadd off base) 32 + (2 ^ k - 1))) (2 ^ k) ltac:(lia)).
    pose proof (Z.mod_pos_bound (wrap (wadd (wadd off base) 32 + (2 ^ k - 1))) (2 ^ k) ltac:(lia)).
    assert (0 ≤ 2 ^ k * (wrap (wadd (wadd off base) 32 + (2 ^ k - 1)) / 2 ^ k))
      by (apply Z.mul_nonneg_nonneg; [lia | apply Z.div_pos; lia]).
    lia. }
  apply bind_Ok in H as (? & ma & Ha1 & H). pose proof (store64_mapped _ _ _ _ _ Ha1) as Hma.
  apply store64_inv in Ha1 as [_ ->].
  apply bind_Ok in H as (? & mb & Hb1 & H). apply store64_inv in Hb1 as [Hvh ->].
  rewrite (valid_mapped m) in Hvh by reflexivity.
  pose proof (valid_user_space _ _ _ Hu Hvh) as [Hh0 Hh1].
  unfold hdr_size, USER_SPACE_END in *.
  assert (Hh : wsub r9 32 = r9 - 32).
  { destruct (Z.lt_ge_cases r9 32) as [Hlt | Hge]; [| apply wsub_small; lia].
    exfalso. unfold wsub in Hh1.
    rewrite (wrap_unique (r9 - 32) (-1) (r9 - 32 + WORD)) in Hh1 by word_lia. word_lia. }
  rewrite Hh in *.
  unfold hdr_padding, hdr_next_free in H.
  rewrite (wadd_small (r9 - 32) 8), (wadd_small (r9 - 32) 16) in H by word_lia.
  apply bind_Ok in H as (? & mc & Hc1 & H). apply store64_inv in Hc1 as [_ ->].
  apply bind_Ok in H as (? & md & Hd1 & H). apply store64_inv in Hd1 as [Hvn ->].
  apply ret_Ok in H as [<- <-]. cbn [contents mapped] in *.
  rewrite (valid_mapped m) in Hvn by reflexivity.
  pose proof (valid_user_space _ _ _ Hu Hvn) as [_ Hn1]. unfold USER_SPACE_END in Hn1.
  split; [lia |]. split; [lia |]. split; [reflexivity |].
  split; [exact Hvh |]. split; [replace (r9 - 16) with (r9 - 32 + 16) by lia; exact Hvn |].
  split.
  - rewrite !load_store_other by lia. apply load_store_same. lia.
  - replace (r9 - 16) with (r9 - 32 + 16) by lia. apply load_store_same. word_lia.
Qed.
End PoolRoundTrip.

Section PoolRoundTripTheorem.
Import Pool PoolRuns.

Lemma bind_ret {A B} (a : A) (f : A → M B) : bind (ret a) f = f a.
Proof. reflexivity. Qed.

(** The free list of one block [(h, size)] whose link is null. *)
Lemma free_blocks_single fuel m h size :
  h ≠ 0 → 0 ≤ h → h + 16 < WORD → valid m h 8 = true → valid m (h + 16) 8 = true →
  load_le 8 (contents m) h = size → load_le 8 (contents m) (h + 16) = 0 →
  free_blocks (S (S fuel)) h m = Ok ([(h, size)], m).
Proof.
  intros Hnz H0 Hw Hv Hvn Hs Hn. cbn [free_blocks].
  destruct (Z.eqb_spec h 0) as [? | _]; [contradiction |].
  unfold hdr_size, hdr_next_free. rewrite wadd_small by lia.
  unfold bind. rewrite (load64_Ok _ _ Hv), (load64_Ok _ _ Hvn), Hs, Hn.
  reflexivity.
Qed.

(** Coalescing a free list of one block only rewrites its null link. *)
Lemma coalesce_single fuel bh ibs h m :
  h ≠ 0 → 0 ≤ h → h + 16 < WORD → valid m (h + 16) 8 = true →
  load_le 8 (contents m) (h + 16) = 0 →
  coalesce_free_list (S (S fuel)) true (mkPool bh h ibs) m
  = Ok (mkPool bh h ibs, mkMemory (store_le 8 (h + 16) 0 (contents m)) (mapped m)).
Proof.
  intros Hnz H0 Hw Hv Hn.
  assert (Hh16 : wadd h 16 = h + 16) by (apply wadd_small; lia).
  assert (Hcount : count_free (S (S fuel)) h 0 m = Ok (1, m)).
  { cbn [count_free]. destruct (Z.eqb_spec h 0) as [? | _]; [contradiction |].
    unfold hdr_next_free. rewrite Hh16.
    rewrite (bind_step _ _ _ _ _ (load64_Ok _ _ Hv)), Hn. reflexivity. }
  assert (Hcollect : collect_free (S (S fuel)) h m = Ok ([h], m)).
  { cbn [collect_free]. destruct (Z.eqb_spec h 0) as [? | _]; [contradiction |].
    unfold hdr_next_free. rewrite Hh16.
    rewrite (bind_step _ _ _ _ _ (load64_Ok _ _ Hv)), Hn. reflexivity. }
  unfold coalesce_free_list. cbn [free_list block_head initial_block_size].
  rewrite (bind_step _ _ _ _ _ Hcount). cbn [Z.eqb negb].
  rewrite (bind_step _ _ _ _ _ Hcollect).
  change (Z.to_nat (1 - 1)) with 0%nat.
  cbn [qsort foldr qsort_insert merge_loop].
  unfold bind at 1. unfold ret at 1.
  cbn [rebuild_loop]. destruct (Z.eqb_spec h 0) as [? | _]; [contradiction |].
  cbn [negb Z.eqb]. unfold bind at 1. unfold ret at 1.
  destruct (Z.eqb_spec h 0) as [? | _]; [contradiction |]. cbn [negb].
  unfold hdr_next_free. rewrite Hh16.
  rewrite (bind_step _ _ _ _ _ (store64_Ok _ _ _ Hv)). reflexivity.
Qed.

Lemma free_blocks_cons fuel m h size next rest :
  h ≠ 0 → 0 ≤ h → h + 16 < WORD → valid m h 8 = true → valid m (h + 16) 8 = true →
  load_le 8 (contents m) h = size → load_le 8 (contents m) (h + 16) = next →
  free_blocks fuel next m = Ok (rest, m) →
  free_blocks (S fuel) h m = Ok ((h, size) :: rest, m).
Proof.
  intros Hnz H0 Hw Hv Hvn Hs Hn Hrest. cbn [free_blocks].
  destruct (Z.eqb_spec h 0) as [? | _]; [contradiction |].
  unfold hdr_size, hdr_next_free. rewrite wadd_small by lia.
  rewrite (bind_step _ _ _ _ _ (load64_Ok _ _ Hv)), Hs.
  rewrite (bind_step _ _ _ _ _ (load64_Ok _ _ Hvn)), Hn.
  rewrite (bind_step _ _ _ _ _ Hrest). reflexivity.
Qed.

(** Allocate, free, allocate again, for a size with [size + 48] below
    2^64 (the split test does not wrap) and address 0 unmapped: on a pool
    whose free list is empty, a successful [pool_alloc], [pool_free] of
    its result and a second [pool_alloc] with the same size and
    alignment return the same pointer.  In between the free list holds exactly the freed block,
    with the requested size; at the end the handle is as after the first
    allocation. *)
Theorem pool_alloc_free_alloc fuel p size alignment os m r pool1 m1 os2 :
  power_of_two alignment → 0 ≤ size → size + 48 < WORD →
  user_space m = true → valid m 0 8 = false → free_list p = 0 → (2 ≤ fuel)%nat →
  pool_alloc fuel (Some p) size alignment os m = Ok ((r, pool1), m1) → r ≠ 0 →
  ∃ p2 m2,
    pool_free fuel true pool1 r m1 = Ok (Some p2, m2) ∧
    free_blocks fuel (free_list p2) m2 = Ok ([(r - 32, size)], m2) ∧
    pool_alloc fuel (Some p2) size alignment os2 m2 = Ok ((r, pool1), m2).
Proof.
  intros Hpow Hsize0 Hsize Hu Hnull Hfl Hfuel Halloc Hr.
  pose proof (power_of_two_word alignment Hpow) as (k & Hk & Hak & Ha).
  pose proof (pool_alloc_aligned alignment Hpow _ _ _ _ _ _ _ _ Halloc) as [? | Hal];
    [contradiction |].
  destruct (pool_alloc_hit _ _ _ _ _ _ _ _ _ Hfl Hu Hnull Halloc Hr)
    as (Hsz & Hbit & p1 & b & m0 & -> & Hfl1 & Hbump & Hu0 & Hnull0).
  assert (Hsw : 0 ≤ size < WORD) by word_lia.
  destruct (alloc_from_block_header _ _ _ _ _ _ Hpow Hu0 Hsw Hbump Hr)
    as (Hh0 & Hh1 & Hmap & Hv & Hvn & Hs & Hn).
  unfold USER_SPACE_END in Hh1.
  assert (Hhnz : r - 32 ≠ 0).
  { intros Hz. rewrite Hz in Hv. rewrite (valid_mapped m0) in Hv by exact Hmap. congruence. }
  destruct fuel as [|[|fuel]]; [lia | lia |].
  destruct p1 as [bh fl ibs]. cbn [free_list] in Hfl1. subst fl.
  set (ma := mkMemory (store_le 8 (r - 16) 0 (contents m1)) (mapped m1)).
  set (mb := mkMemory (store_le 8 (r - 16) 0 (contents ma)) (mapped ma)).
  assert (Hva : ∀ mm a, mapped mm = mapped m1 → valid mm a 8 = valid m1 a 8)
    by (intros; now apply valid_mapped).
  assert (Hla : load_le 8 (contents ma) (r - 16) = 0) by (apply load_store_same; word_lia).
  assert (Hlb : load_le 8 (contents mb) (r - 16) = 0) by (apply load_store_same; word_lia).
  assert (Hsb : load_le 8 (contents mb) (r - 32) = size).
  { unfold mb, ma. cbn [contents]. rewrite !load_store_other by lia. exact Hs. }
  assert (Hh16 : wadd (r - 32) 16 = r - 16) by (rewrite wadd_small by word_lia; lia).
  assert (Hfree : pool_free (S (S fuel)) true (Some (mkPool bh 0 ibs)) r m1
                  = Ok (Some (mkPool bh (r - 32) ibs), mb)).
  { unfold pool_free, HEADER_SIZE.
    destruct (Z.eqb_spec r 0) as [? | _]; [contradiction |].
    rewrite wsub_small by word_lia. unfold hdr_next_free. rewrite Hh16.
    cbn [free_list block_head initial_block_size].
    unfold bind at 1. rewrite (store64_Ok _ _ _ Hvn). fold ma.
    pose proof (coalesce_single fuel bh ibs (r - 32) ma Hhnz Hh0) as Hco.
    replace (r - 32 + 16) with (r - 16) in Hco by lia.
    rewrite (bind_step _ _ _ _ _ (Hco ltac:(word_lia) Hvn Hla)). reflexivity. }
  exists (mkPool bh (r - 32) ibs), mb. split; [exact Hfree |]. split.
  - cbn [free_list]. apply free_blocks_single; try assumption; try word_lia.
    replace (r - 32 + 16) with (r - 16) by lia. exact Hvn.
    replace (r - 32 + 16) with (r - 16) by lia. exact Hlb.
  - unfold pool_alloc.
    destruct (Z.eqb_spec size 0) as [? | _]; [contradiction |].
    rewrite Hbit. cbn [Z.eqb negb orb].
    assert (Hff : remove_free_block (S (S fuel)) (mkPool bh (r - 32) ibs) size alignment mb
                  = Ok ((r, mkPool bh 0 ibs), mb)).
    { unfold remove_free_block. cbn [remove_free_block_loop free_list].
      destruct (Z.eqb_spec (r - 32) 0) as [? | _]; [contradiction |].
      destruct (Z.eqb_spec alignment 0) as [? | _]; [lia |].
      unfold HEADER_SIZE, MIN_SPLIT_THRESHOLD, hdr_size, hdr_next_free.
      rewrite Hh16. rewrite (wadd_small (r - 32) 32) by word_lia.
      replace (r - 32 + 32) with r by lia. rewrite Hal. cbn [Z.eqb].
      assert (Hvb : valid mb (r - 32) 8 = true) by exact Hv.
      assert (Hvnb : valid mb (r - 16) 8 = true) by exact Hvn.
      assert (Hfits : (do size0 <- load64 (r - 32); ret (size0 >=? size)) mb = Ok (true, mb)).
      { rewrite (bind_step _ _ _ _ _ (load64_Ok _ _ Hvb)), Hsb.
        rewrite (proj2 (Z.geb_le size size)) by lia. reflexivity. }
      rewrite (bind_step _ _ _ _ _ Hfits).
      rewrite (bind_step _ _ _ _ _ (load64_Ok _ _ Hvnb)), Hlb.
      rewrite bind_ret.
      rewrite (bind_step _ _ _ _ _ (load64_Ok _ _ Hvb)), Hsb.
      rewrite (wadd_small size 32), (wadd_small (size + 32) 16) by lia.
      destruct (Z.geb_spec size (size + 32 + 16)) as [? | _]; [lia |].
      rewrite bind_ret. reflexivity. }
    rewrite (bind_step _ _ _ _ _ Hff).
    destruct (Z.eqb_spec r 0) as [? | _]; [contradiction |]. reflexivity.
Qed.
Lemma pool_alloc_free_alloc_witness :
  let p := mkPool 65536 0 4096 in
  let m := memory_after (fresh_pool empty_memory) in
  pool_alloc 8 (Some p) 100 16 131072 m
    = Ok ((65600, Some p), memory_after (pool_alloc 8 (Some p) 100 16 131072 m)) ∧
  ∃ p2 m2,
    pool_free 8 true (Some p) 65600 (memory_after (pool_alloc 8 (Some p) 100 16 131072 m))
      = Ok (Some p2, m2) ∧
    free_blocks 8 (free_list p2) m2 = Ok ([(65600 - 32, 100)], m2) ∧
    pool_alloc 8 (Some p2) 100 16 196608 m2 = Ok ((65600, Some p), m2).
Proof.
  intros p m.
  assert (Hrun : pool_alloc 8 (Some p) 100 16 131072 m
    = Ok ((65600, Some p), memory_after (pool_alloc 8 (Some p) 100 16 131072 m)))
    by (vm_compute; reflexivity).
  split; [exact Hrun |].
  apply (pool_alloc_free_alloc 8 p 100 16 131072 m 65600 (Some p) _ 196608).
  - exact sixteen_is_a_power_of_two.
  - lia.
  - word_lia.
  - vm_compute. reflexivity.
  - vm_compute. reflexivity.
  - reflexivity.
  - lia.
  - exact Hrun.
  - lia.
Defined.
End PoolRoundTripTheorem.

Section PoolCoalesce.
Import Pool PoolRuns.

Lemma valid_sub m a n a' n' :
  valid m a n = true → a ≤ a' → a' + n' ≤ a + n → valid m a' n' = true.
Proof.
  unfold valid. intros H H1 H2. apply existsb_exists in H as (r & Hin & Hr).
  apply existsb_exists. exists r. split; [exact Hin |].
  unfold in_region in *. apply andb_true_iff in Hr as [Ha Hb].
  apply Z.leb_le in Ha, Hb. apply andb_true_iff. split; apply Z.leb_le; lia.
Qed.

Lemma bind_assoc {A B C} (c : M A) (f : A → M B) (g : B → M C) m :
  bind (bind c f) g m = bind c (λ x, bind (f x) g) m.
Proof. unfold bind. destruct (c m) as [[a m1] | e]; reflexivity. Qed.

(** The merge loop, the rebuild loop and the final link store of
    [coalesce_free_list] on a sorted array of two blocks. *)
Lemma merge_rebuild_two fuel bh ibs lo hi m :
  user_space m = true → 0 < lo → lo + 32 ≤ hi →
  valid m lo 32 = true → valid m hi 32 = true →
  let slo := load_le 8 (contents m) lo in
  let shi := load_le 8 (contents m) hi in
  ∃ m',
    (do arr <- merge_loop 1 0 [lo; hi];
     do (new_free_list, prev) <- rebuild_loop arr 0 0;
     run (if negb (prev =? 0) then store64 (hdr_next_free prev) 0 else ret tt);
     ret (mkPool bh new_free_list ibs)) m = Ok (mkPool bh lo ibs, m') ∧
    mapped m' = mapped m ∧
    free_blocks (S (S (S fuel))) lo m'
      = Ok (if wadd (wadd lo 32) slo =? hi
            then [(lo, wadd (wadd slo 32) shi)]
            else [(lo, slo); (hi, shi)], m').
Proof.
  intros Hu Hlo Hsep Hvlo Hvhi slo shi.
  pose proof (valid_user_space _ _ _ Hu Hvhi) as [_ Hend]. unfold USER_SPACE_END in Hend.
  assert (Hl0 : valid m lo 8 = true) by (apply (valid_sub m lo 32); [assumption | lia..]).
  assert (Hl16 : valid m (lo + 16) 8 = true) by (apply (valid_sub m lo 32); [assumption | lia..]).
  assert (Hh0 : valid m hi 8 = true) by (apply (valid_sub m hi 32); [assumption | lia..]).
  assert (Hh16 : valid m (hi + 16) 8 = true) by (apply (valid_sub m hi 32); [assumption | lia..]).
  assert (Hwl : wadd lo 16 = lo + 16) by (apply wadd_small; word_lia).
  assert (Hwh : wadd hi 16 = hi + 16) by (apply wadd_small; word_lia).
  assert (Hlonz : (lo =? 0) = false) by (apply Z.eqb_neq; lia).
  assert (Hhinz : (hi =? 0) = false) by (apply Z.eqb_neq; lia).
  cbn [merge_loop lookup list_lookup default from_option]. unfold id, hdr_size, HEADER_SIZE.
  rewrite bind_assoc. rewrite (bind_step _ _ _ _ _ (load64_Ok _ _ Hl0)).
  fold slo. rewrite bind_assoc.
  destruct (Z.eqb_spec (wadd (wadd lo 32) slo) hi) as [Hadj | Hnadj].
  - (* the blocks touch: merged *)
    set (m1 := mkMemory (store_le 8 lo (wadd (wadd slo 32) shi) (contents m)) (mapped m)).
    assert (Hmerge :
      (do a_size' <- load64 lo; do b_size <- load64 hi;
       run store64 lo (wadd (wadd a_size' 32) b_size);
       ret (<[1%nat := 0]> [lo; hi])) m = Ok ([lo; 0], m1)).
    { rewrite (bind_step _ _ _ _ _ (load64_Ok _ _ Hl0)).
      rewrite (bind_step _ _ _ _ _ (load64_Ok _ _ Hh0)).
      rewrite (bind_step _ _ _ _ _ (store64_Ok _ _ _ Hl0)). reflexivity. }
    rewrite (bind_step _ _ _ _ _ Hmerge). rewrite bind_ret.
    cbn [rebuild_loop]. rewrite Hlonz. cbn [negb Z.eqb]. rewrite bind_ret.
    rewrite Hlonz. cbn [negb]. unfold hdr_next_free. rewrite Hwl.
    assert (Hl16' : valid m1 (lo + 16) 8 = true) by exact Hl16.
    rewrite (bind_step _ _ _ _ _ (store64_Ok _ _ _ Hl16')).
    eexists. split; [reflexivity |]. split; [reflexivity |].
    apply free_blocks_single; cbn [contents mapped]; try assumption; try lia; try word_lia.
    + rewrite load_store_other by lia. apply load_store_same. apply wrap_bound.
    + apply load_store_same. word_lia.
  - (* apart: both stay, in address order *)
    rewrite bind_ret. rewrite bind_ret.
    cbn [rebuild_loop]. rewrite Hlonz, Hhinz. cbn [negb Z.eqb].
    unfold hdr_next_free. rewrite Hwl.
    rewrite bind_assoc. rewrite (bind_step _ _ _ _ _ (store64_Ok _ _ _ Hl16)).
    set (m1 := mkMemory (store_le 8 (lo + 16) hi (contents m)) (mapped m)).
    rewrite bind_ret. rewrite Hhinz. cbn [negb]. unfold hdr_next_free. rewrite Hwh.
    assert (Hh16' : valid m1 (hi + 16) 8 = true) by exact Hh16.
    rewrite (bind_step _ _ _ _ _ (store64_Ok _ _ _ Hh16')).
    set (m2 := mkMemory _ _).
    eexists. split; [reflexivity |]. split; [reflexivity |].
    assert (E1 : load_le 8 (contents m2) lo = slo).
    { subst m2 m1. cbn [contents]. rewrite !load_store_other by lia. reflexivity. }
    assert (E2 : load_le 8 (contents m2) (lo + 16) = hi).
    { subst m2 m1. cbn [contents]. rewrite load_store_other by lia.
      apply load_store_same. word_lia. }
    assert (E3 : load_le 8 (contents m2) hi = shi).
    { subst m2 m1. cbn [contents]. rewrite !load_store_other by lia. reflexivity. }
    assert (E4 : load_le 8 (contents m2) (hi + 16) = 0).
    { subst m2 m1. cbn [contents]. apply load_store_same. word_lia. }
    apply free_blocks_cons with hi; try assumption; try lia; try word_lia.
    apply free_blocks_single; try assumption; try lia; try word_lia.
Qed.

(** [coalesce_free_list] on a free list of two blocks [x] then [y]: the
    list comes out in address order, and as one block when the lower
    block ends where the higher one starts. *)
Lemma coalesce_two fuel bh ibs x y m :
  user_space m = true → 0 < x → 0 < y → x + 32 ≤ y ∨ y + 32 ≤ x →
  valid m x 32 = true → valid m y 32 = true →
  load_le 8 (contents m) (x + 16) = y → load_le 8 (contents m) (y + 16) = 0 →
  let lo := Z.min x y in
  let hi := Z.max x y in
  let slo := load_le 8 (contents m) lo in
  let shi := load_le 8 (contents m) hi in
  ∃ m',
    coalesce_free_list (S (S (S fuel))) true (mkPool bh x ibs) m
      = Ok (mkPool bh lo ibs, m') ∧
    mapped m' = mapped m ∧
    free_blocks (S (S (S fuel))) lo m'
      = Ok (if wadd (wadd lo 32) slo =? hi
            then [(lo, wadd (wadd slo 32) shi)]
            else [(lo, slo); (hi, shi)], m').
Proof.
  intros Hu Hx Hy Hsep Hvx Hvy Hnx Hny lo hi slo shi.
  pose proof (valid_user_space _ _ _ Hu Hvx) as [_ Hxe].
  pose proof (valid_user_space _ _ _ Hu Hvy) as [_ Hye]. unfold USER_SPACE_END in *.
  assert (Hx16 : valid m (x + 16) 8 = true) by (apply (valid_sub m x 32); [assumption | lia..]).
  assert (Hy16 : valid m (y + 16) 8 = true) by (apply (valid_sub m y 32); [assumption | lia..]).
  assert (Hwx : wadd x 16 = x + 16) by (apply wadd_small; word_lia).
  assert (Hwy : wadd y 16 = y + 16) by (apply wadd_small; word_lia).
  assert (Hxnz : (x =? 0) = false) by (apply Z.eqb_neq; lia).
  assert (Hynz : (y =? 0) = false) by (apply Z.eqb_neq; lia).
  assert (Hcount : count_free (S (S (S fuel))) x 0 m = Ok (2, m)).
  { cbn [count_free]. rewrite Hxnz. unfold hdr_next_free. rewrite Hwx.
    rewrite (bind_step _ _ _ _ _ (load64_Ok _ _ Hx16)), Hnx. rewrite Hynz, Hwy.
    rewrite (bind_step _ _ _ _ _ (load64_Ok _ _ Hy16)), Hny. reflexivity. }
  assert (Hcollect : collect_free (S (S (S fuel))) x m = Ok ([x; y], m)).
  { cbn [collect_free]. rewrite Hxnz. unfold hdr_next_free. rewrite Hwx.
    rewrite (bind_step _ _ _ _ _ (load64_Ok _ _ Hx16)), Hnx. rewrite Hynz, Hwy.
    rewrite bind_assoc. rewrite (bind_step _ _ _ _ _ (load64_Ok _ _ Hy16)), Hny.
    reflexivity. }
  assert (Hsort : qsort [x; y] = [lo; hi]).
  { cbn [qsort foldr qsort_insert]. unfold cmp. subst lo hi.
    destruct (Z.ltb_spec x y).
    - cbn. f_equal; [| f_equal]; lia.
    - destruct (Z.gtb_spec x y); [| lia]. cbn. f_equal; [| f_equal]; lia. }
  assert (Hlo : 0 < lo ∧ lo + 32 ≤ hi) by (subst lo hi; lia).
  assert (Hvlo : valid m lo 32 = true) by (subst lo; destruct (Z.min_spec x y) as [[_ ->] | [_ ->]]; assumption).
  assert (Hvhi : valid m hi 32 = true) by (subst hi; destruct (Z.max_spec x y) as [[_ ->] | [_ ->]]; assumption).
  destruct (merge_rebuild_two fuel bh ibs lo hi m Hu (proj1 Hlo) (proj2 Hlo) Hvlo Hvhi)
    as (m' & Hrun & Hmap & Hfree).
  exists m'. split; [| split; [exact Hmap | exact Hfree]].
  unfold coalesce_free_list. cbn [free_list block_head initial_block_size].
  rewrite (bind_step _ _ _ _ _ Hcount). cbn [Z.eqb negb].
  rewrite (bind_step _ _ _ _ _ Hcollect). rewrite Hsort.
  change (Z.to_nat (2 - 1)) with 1%nat. exact Hrun.
Qed.
(** [pool_free] of a block while the free list holds one other block.
    [ptr - 32] is the header of the freed block, [a] the block on the
    list.  Afterwards the free list is in address order; it is one block
    of the joint size when the lower block ends exactly where the higher
    one starts, and the two blocks with their sizes otherwise. *)
Theorem pool_free_second_block fuel bh ibs a ptr m :
  user_space m = true → (3 ≤ fuel)%nat → 0 < a → 32 < ptr →
  ptr ≤ a ∨ a + 32 ≤ ptr - 32 →
  valid m (ptr - 32) 32 = true → valid m a 32 = true →
  load_le 8 (contents m) (a + 16) = 0 →
  let lo := Z.min (ptr - 32) a in
  let hi := Z.max (ptr - 32) a in
  let slo := load_le 8 (contents m) lo in
  let shi := load_le 8 (contents m) hi in
  ∃ m',
    pool_free fuel true (Some (mkPool bh a ibs)) ptr m = Ok (Some (mkPool bh lo ibs), m') ∧
    mapped m' = mapped m ∧
    free_blocks fuel lo m'
      = Ok (if wadd (wadd lo 32) slo =? hi
            then [(lo, wadd (wadd slo 32) shi)]
            else [(lo, slo); (hi, shi)], m').
Proof.
  intros Hu Hfuel Ha Hptr Hsep Hvh Hva Hna lo hi slo shi.
  destruct fuel as [|[|[|fuel]]]; [lia | lia | lia |].
  pose proof (valid_user_space _ _ _ Hu Hvh) as [_ Hhe].
  pose proof (valid_user_space _ _ _ Hu Hva) as [_ Hae]. unfold USER_SPACE_END in *.
  set (h := ptr - 32) in *.
  assert (Hh16 : valid m (h + 16) 8 = true) by (apply (valid_sub m h 32); [assumption | lia..]).
  set (m1 := mkMemory (store_le 8 (h + 16) a (contents m)) (mapped m)).
  assert (Hsame : ∀ z, z = h ∨ z = a → load_le 8 (contents m1) z = load_le 8 (contents m) z).
  { intros z Hz. subst m1. cbn [contents]. apply load_store_other. lia. }
  fold h in lo, hi.
  destruct (coalesce_two fuel bh ibs h a m1) as (m' & Hrun & Hmap & Hfree);
    [exact Hu | lia | lia | lia | exact Hvh | exact Hva | | |].
  { subst m1. cbn [contents]. apply load_store_same. word_lia. }
  { subst m1. cbn [contents]. rewrite load_store_other by lia. exact Hna. }
  cbv zeta in Hfree. fold lo hi in Hfree.
  rewrite (Hsame lo), (Hsame hi) in Hfree by (subst lo hi; lia).
  fold slo shi in Hfree.
  exists m'. split; [| split; [exact Hmap | exact Hfree]].
  unfold pool_free, HEADER_SIZE.
  destruct (Z.eqb_spec ptr 0) as [? | _]; [lia |].
  rewrite wsub_small by word_lia. fold h. unfold hdr_next_free.
  rewrite wadd_small by word_lia. cbn [free_list block_head initial_block_size].
  rewrite (bind_step _ _ _ _ _ (store64_Ok _ _ _ Hh16)). fold m1.
  rewrite (bind_step _ _ _ _ _ Hrun). reflexivity.
Qed.

Lemma pool_free_second_block_witness :
  let m := memory_after (free_first_neighbour empty_memory) in
  let lo := Z.min (65696 - 32) 65568 in
  let hi := Z.max (65696 - 32) 65568 in
  let slo := load_le 8 (contents m) lo in
  let shi := load_le 8 (contents m) hi in
  (user_space m = true ∧ valid m (65696 - 32) 32 = true ∧
   valid m 65568 32 = true ∧ load_le 8 (contents m) (65568 + 16) = 0) ∧
  (wadd (wadd lo 32) slo =? hi) = true ∧
  ∃ m',
    pool_free 8 true (Some (mkPool 65536 65568 4096)) 65696 m
      = Ok (Some (mkPool 65536 lo 4096), m') ∧
    mapped m' = mapped m ∧
    free_blocks 8 lo m'
      = Ok (if wadd (wadd lo 32) slo =? hi
            then [(lo, wadd (wadd slo 32) shi)]
            else [(lo, slo); (hi, shi)], m').
Proof.
  intros m lo hi slo shi.
  assert (Hu : user_space m = true) by (vm_compute; reflexivity).
  assert (Hvh : valid m (65696 - 32) 32 = true) by (vm_compute; reflexivity).
  assert (Hva : valid m 65568 32 = true) by (vm_compute; reflexivity).
  assert (Hna : load_le 8 (contents m) (65568 + 16) = 0) by (vm_compute; reflexivity).
  split; [auto |]. split; [vm_compute; reflexivity |].
  apply (pool_free_second_block 8 65536 4096 65568 65696 m Hu).
  - lia.
  - lia.
  - lia.
  - lia.
  - exact Hvh.
  - exact Hva.
  - exact Hna.
Defined.
End PoolCoalesce.

Section PoolFirstFit.
Import Pool PoolRuns.

Lemma loaded_word m a : bytes_ok m → 0 ≤ load_le 8 (contents m) a < WORD.
Proof.
  intros Hb. apply (load_le_range 8). intros x. now apply bytes_ok_byte.
Qed.

(** The free-list search on a head block that fits. *)
Lemma remove_free_block_head fuel bh ibs h size alignment m :
  alignment ≠ 0 → (h + 32) mod alignment = 0 →
  user_space m = true → bytes_ok m → 0 < h → 0 ≤ size →
  let S := load_le 8 (contents m) h in
  let nxt := load_le 8 (contents m) (h + 16) in
  size ≤ S → valid m h (32 + S) = true →
  ∃ p' m',
    remove_free_block (Datatypes.S fuel) (mkPool bh h ibs) size alignment m
      = Ok ((h + 32, p'), m') ∧
    block_head p' = bh ∧ initial_block_size p' = ibs ∧
    ((S < size + 48 ∧ free_list p' = nxt ∧ m' = m) ∨
     (size + 48 ≤ S ∧ free_list p' = h + 32 + size ∧ mapped m' = mapped m ∧
      load_le 8 (contents m') h = size ∧
      load_le 8 (contents m') (h + 32 + size) = S - size - 32 ∧
      load_le 8 (contents m') (h + 32 + size + 8) = 0 ∧
      load_le 8 (contents m') (h + 32 + size + 16) = nxt)).
Proof.
  intros Hanz Hal Hu Hb Hh Hsize S nxt Hfit Hv.
  pose proof (valid_user_space _ _ _ Hu Hv) as [_ Hend]. unfold USER_SPACE_END in Hend.
  pose proof (loaded_word m (h + 16) Hb) as Hnxt. fold nxt in Hnxt.
  assert (Hv0 : valid m h 8 = true) by (apply (valid_sub m h (32 + S)); [assumption | lia..]).
  assert (Hv16 : valid m (h + 16) 8 = true)
    by (apply (valid_sub m h (32 + S)); [assumption | lia..]).
  unfold remove_free_block. cbn [remove_free_block_loop free_list].
  destruct (Z.eqb_spec h 0) as [? | _]; [lia |].
  destruct (Z.eqb_spec alignment 0) as [? | _]; [contradiction |].
  unfold HEADER_SIZE, MIN_SPLIT_THRESHOLD, hdr_size, hdr_next_free, hdr_padding.
  rewrite (wadd_small h 16), (wadd_small h 32) by word_lia.
  rewrite Hal. cbn [Z.eqb].
  assert (Hfits : (do size0 <- load64 h; ret (size0 >=? size)) m = Ok (true, m)).
  { rewrite (bind_step _ _ _ _ _ (load64_Ok _ _ Hv0)). fold S.
    rewrite (proj2 (Z.geb_le S size)) by lia. reflexivity. }
  rewrite (bind_step _ _ _ _ _ Hfits).
  rewrite (bind_step _ _ _ _ _ (load64_Ok _ _ Hv16)). fold nxt.
  rewrite bind_ret.
  rewrite (bind_step _ _ _ _ _ (load64_Ok _ _ Hv0)). fold S.
  rewrite (wadd_small size 32), (wadd_small (size + 32) 16) by word_lia.
  cbn [block_head initial_block_size free_list].
  destruct (Z.geb_spec S (size + 32 + 16)) as [Hsplit | Hwhole].
  - (* split *)
    rewrite (wadd_small (h + 32) size) by word_lia.
    rewrite (wsub_small S size), (wsub_small (S - size) 32) by word_lia.
    set (L := h + 32 + size).
    rewrite (wadd_small L 8), (wadd_small L 16) by (subst L; word_lia).
    assert (HvL : valid m L 8 = true)
      by (apply (valid_sub m h (32 + S)); [assumption | subst L; lia..]).
    assert (HvL8 : valid m (L + 8) 8 = true)
      by (apply (valid_sub m h (32 + S)); [assumption | subst L; lia..]).
    assert (HvL16 : valid m (L + 16) 8 = true)
      by (apply (valid_sub m h (32 + S)); [assumption | subst L; lia..]).
    rewrite bind_assoc.
    rewrite (bind_step _ _ _ _ _ (store64_Ok _ _ _ Hv0)). set (m1 := mkMemory _ _).
    rewrite bind_assoc.
    rewrite (bind_step _ _ _ _ _ (store64_Ok _ _ _ (HvL : valid m1 L 8 = true))).
    set (m2 := mkMemory _ _).
    rewrite bind_assoc.
    rewrite (bind_step _ _ _ _ _ (store64_Ok _ _ _ (HvL8 : valid m2 (L + 8) 8 = true))).
    set (m3 := mkMemory _ _).
    rewrite bind_assoc.
    rewrite (bind_step _ _ _ _ _ (store64_Ok _ _ _ (HvL16 : valid m3 (L + 16) 8 = true))).
    set (m4 := mkMemory _ _). rewrite bind_ret.
    eexists. exists m4. split; [reflexivity |]. cbn [block_head initial_block_size free_list].
    split; [reflexivity |]. split; [reflexivity |]. right.
    split; [lia |]. split; [reflexivity |]. split; [reflexivity |].
    subst m4 m3 m2 m1. cbn [contents]. subst L.
    split; [| split; [| split]].
    + rewrite !load_store_other by lia. apply load_store_same. word_lia.
    + rewrite !load_store_other by lia. apply load_store_same. word_lia.
    + rewrite load_store_other by lia. apply load_store_same. word_lia.
    + apply load_store_same. exact Hnxt.
  - rewrite bind_ret.
    eexists. exists m. split; [reflexivity |]. cbn [block_head initial_block_size free_list].
    split; [reflexivity |]. split; [reflexivity |]. left. split; [lia |]. split; reflexivity.
Qed.

(** First fit on the head of the free list.  The head block [h] holds
    [S] bytes, its link is [nxt], its user pointer is aligned and the
    request is not larger than [S].  [pool_alloc] returns the block's
    user pointer.  A block of less than [size + 48] bytes is handed out
    whole and only unlinked.  A larger one is split: its header records
    the requested size, and a new free block of [S - size - 32] bytes,
    which starts right behind the request and links to [nxt], becomes
    the head of the free list. *)
Theorem pool_alloc_first_fit fuel bh ibs h size alignment os m :
  power_of_two alignment → (h + 32) mod alignment = 0 →
  user_space m = true → bytes_ok m → 0 < h → 0 < size → (0 < fuel)%nat →
  let S := load_le 8 (contents m) h in
  let nxt := load_le 8 (contents m) (h + 16) in
  size ≤ S → valid m h (32 + S) = true →
  ∃ p' m',
    pool_alloc fuel (Some (mkPool bh h ibs)) size alignment os m
      = Ok ((h + 32, Some p'), m') ∧
    block_head p' = bh ∧ initial_block_size p' = ibs ∧
    ((S < size + 48 ∧ free_list p' = nxt ∧ m' = m) ∨
     (size + 48 ≤ S ∧ free_list p' = h + 32 + size ∧ mapped m' = mapped m ∧
      load_le 8 (contents m') h = size ∧
      load_le 8 (contents m') (h + 32 + size) = S - size - 32 ∧
      load_le 8 (contents m') (h + 32 + size + 8) = 0 ∧
      load_le 8 (contents m') (h + 32 + size + 16) = nxt)).
Proof.
  intros Hpow Hal Hu Hb Hh Hsize Hfuel S nxt Hfit Hv.
  destruct fuel as [|fuel]; [lia |].
  pose proof (power_of_two_word alignment Hpow) as (k & Hk & Hak & Ha).
  destruct (remove_free_block_head fuel bh ibs h size alignment m
              ltac:(lia) Hal Hu Hb Hh ltac:(lia) Hfit Hv)
    as (p' & m' & Hrun & Hrest).
  exists p', m'. split; [| exact Hrest].
  unfold pool_alloc.
  destruct (Z.eqb_spec size 0) as [? | _]; [lia |].
  rewrite (proj2 (bit_test_power_of_two alignment ltac:(lia)) Hpow).
  cbn [Z.eqb negb orb].
  rewrite (bind_step _ _ _ _ _ Hrun).
  destruct (Z.eqb_spec (h + 32) 0) as [? | _]; [lia |]. reflexivity.
Qed.

Lemma pool_alloc_first_fit_witness :
  let m := memory_after (free_two_neighbours empty_memory) in
  let S := load_le 8 (contents m) 65568 in
  let nxt := load_le 8 (contents m) (65568 + 16) in
  (user_space m = true ∧ bytes_ok m ∧ S = 160 ∧ valid m 65568 (32 + S) = true) ∧
  ∃ p' m',
    pool_alloc 8 (Some (mkPool 65536 65568 4096)) 64 16 131072 m
      = Ok ((65568 + 32, Some p'), m') ∧
    block_head p' = 65536 ∧ initial_block_size p' = 4096 ∧
    ((S < 64 + 48 ∧ free_list p' = nxt ∧ m' = m) ∨
     (64 + 48 ≤ S ∧ free_list p' = 65568 + 32 + 64 ∧ mapped m' = mapped m ∧
      load_le 8 (contents m') 65568 = 64 ∧
      load_le 8 (contents m') (65568 + 32 + 64) = S - 64 - 32 ∧
      load_le 8 (contents m') (65568 + 32 + 64 + 8) = 0 ∧
      load_le 8 (contents m') (65568 + 32 + 64 + 16) = nxt)).
Proof.
  intros m S nxt.
  assert (Hu : user_space m = true) by (vm_compute; reflexivity).
  assert (Hb : bytes_ok m) by (apply (bool_decide_unpack _); vm_compute; reflexivity).
  assert (HS : S = 160) by (vm_compute; reflexivity).
  assert (Hv : valid m 65568 (32 + S) = true) by (vm_compute; reflexivity).
  split; [auto |].
  apply (pool_alloc_first_fit 8 65536 4096 65568 64 16 131072 m).
  - exact sixteen_is_a_power_of_two.
  - reflexivity.
  - exact Hu.
  - exact Hb.
  - lia.
  - lia.
  - lia.
  - fold S. lia.
  - exact Hv.
Defined.
End PoolFirstFit.

Section PoolReset.
Import Pool PoolRuns.

Lemma chain_ok_mapped m m' l : mapped m' = mapped m → chain_ok m l → chain_ok m' l.
Proof.
  intros Hmap. induction l as [|[[[b base] size] off] rest IH]; [auto |].
  cbn [chain_ok]. rewrite Hmap. intros (Hr & Hap & Hrest). auto.
Qed.

Lemma chain_ok_size m l r : chain_ok m l → In r l → 0 ≤ r.1.2 ∧ 0 < r.1.1.1.
Proof.
  induction l as [|[[[b base] size] off] rest IH]; [intros _ [] |].
  intros ((Hb & _ & Hs & _) & _ & Hrest) [<- | Hin]; [cbn; lia | auto].
Qed.

Lemma chain_ok_In m l b base rsize off :
  chain_ok m l → In (b, base, rsize, off) l →
  0 < b ∧ base = b + 32 ∧ 0 ≤ rsize ∧ In (b, rsize + 32) (mapped m).
Proof.
  induction l as [|g l IH]; [intros _ [] |].
  intros (Hg & _ & Hrest) [-> | Hin]; [exact Hg | exact (IH Hrest Hin)].
Qed.

(** No usable byte of a region lies in a [PoolBlock] of the chain. *)
Lemma chain_ok_usable m l g g' x :
  chain_ok m l → In g l → In g' l → in_usable x g' →
  ¬ (g.1.1.1 ≤ x < g.1.1.1 + 32).
Proof.
  induction l as [|h l IH]; [intros _ [] |].
  intros Hok Hg Hg' Hx.
  pose proof Hok as (Hh & Hap & Hrest).
  rewrite Forall_forall in Hap.
  destruct Hg as [Hg | Hg], Hg' as [Hg' | Hg'].
  - subst g g'. destruct h as [[[b base] rsize] off]. destruct Hh as (_ & -> & _ & _).
    unfold in_usable in Hx. cbn [fst snd]. lia.
  - subst h. specialize (Hap _ (proj2 (list_elem_of_In _ _) Hg')).
    destruct g as [[[b base] rsize] off], g' as [[[b' base'] rsize'] off'].
    destruct Hh as (_ & _ & Hrs & _).
    destruct (chain_ok_In _ _ _ _ _ _ Hrest Hg') as (_ & -> & Hrs' & _).
    unfold apart in Hap. unfold in_usable in Hx. cbn [fst snd]. lia.
  - subst h. specialize (Hap _ (proj2 (list_elem_of_In _ _) Hg)).
    destruct g as [[[b base] rsize] off], g' as [[[b' base'] rsize'] off'].
    destruct Hh as (_ & -> & Hrs' & _).
    destruct (chain_ok_In _ _ _ _ _ _ Hrest Hg) as (_ & _ & Hrs & _).
    unfold apart in Hap. unfold in_usable in Hx. cbn [fst snd]. lia.
  - exact (IH Hrest Hg Hg' Hx).
Qed.

(** Reading one [PoolBlock]. *)
Lemma region_chain_cons fuel m b base rsize off next rest :
  0 < b → b + 32 < WORD → valid m b 32 = true →
  load_le 8 (contents m) b = base → load_le 8 (contents m) (b + 8) = rsize →
  load_le 8 (contents m) (b + 16) = off → load_le 8 (contents m) (b + 24) = next →
  region_chain fuel next m = Ok (rest, m) →
  region_chain (S fuel) b m = Ok ((b, base, rsize, off) :: rest, m).
Proof.
  intros Hb Hw Hvalid Hbase Hs Ho Hn Hrest.
  cbn [region_chain]. destruct (Z.eqb_spec b 0) as [? | _]; [lia |].
  unfold blk_base, blk_size, blk_offset, blk_next. rewrite !wadd_small by lia.
  rewrite (bind_step _ _ _ _ _ (load64_Ok _ _ (valid_sub m b 32 b 8 Hvalid ltac:(lia) ltac:(lia)))).
  rewrite (bind_step _ _ _ _ _ (load64_Ok _ _ (valid_sub m b 32 (b + 8) 8 Hvalid ltac:(lia) ltac:(lia)))).
  rewrite (bind_step _ _ _ _ _ (load64_Ok _ _ (valid_sub m b 32 (b + 16) 8 Hvalid ltac:(lia) ltac:(lia)))).
  rewrite (bind_step _ _ _ _ _ (load64_Ok _ _ (valid_sub m b 32 (b + 24) 8 Hvalid ltac:(lia) ltac:(lia)))).
  rewrite Hbase, Hs, Ho, Hn. rewrite (bind_step _ _ _ _ _ Hrest). reflexivity.
Qed.

Lemma region_chain_inv fuel m b l m' :
  0 < b → b + 32 < WORD →
  region_chain (S fuel) b m = Ok (l, m') →
  m' = m ∧
  ∃ rest,
    l = (b, load_le 8 (contents m) b, load_le 8 (contents m) (b + 8),
         load_le 8 (contents m) (b + 16)) :: rest ∧
    region_chain fuel (load_le 8 (contents m) (b + 24)) m = Ok (rest, m).
Proof.
  intros Hb Hw H. cbn [region_chain] in H.
  destruct (Z.eqb_spec b 0) as [? | _]; [lia |].
  unfold blk_base, blk_size, blk_offset, blk_next in H. rewrite !wadd_small in H by lia.
  apply bind_Ok in H as (base & m1 & H1 & H). apply load64_inv in H1 as [-> ->].
  apply bind_Ok in H as (sz & m1 & H1 & H). apply load64_inv in H1 as [-> ->].
  apply bind_Ok in H as (off & m1 & H1 & H). apply load64_inv in H1 as [-> ->].
  apply bind_Ok in H as (next & m1 & H1 & H). apply load64_inv in H1 as [-> ->].
  apply bind_Ok in H as (rest & m1 & H1 & H). apply ret_Ok in H as [<- ->].
  assert (m' = m) as ->.
  { clear -H1. revert H1. generalize (load_le 8 (contents m) (b + 24)).
    revert rest m m'. induction fuel as [|fuel IH]; intros rest m m' z H; [discriminate |].
    cbn [region_chain] in H. destruct (z =? 0).
    - now apply ret_Ok in H as [_ ->].
    - apply bind_Ok in H as (? & ? & H1 & H). apply load64_inv in H1 as [-> ->].
      apply bind_Ok in H as (? & ? & H1 & H). apply load64_inv in H1 as [-> ->].
      apply bind_Ok in H as (? & ? & H1 & H). apply load64_inv in H1 as [-> ->].
      apply bind_Ok in H as (? & ? & H1 & H). apply load64_inv in H1 as [-> ->].
      apply bind_Ok in H as (? & ? & H1 & H). apply ret_Ok in H as [_ ->].
      symmetry. exact (eq_sym (IH _ _ _ _ H1)). }
  split; [reflexivity |]. eauto.
Qed.

(** A chain reads the same in a memory that agrees on its [PoolBlock]s. *)
Lemma region_chain_frame fuel : ∀ b m l m2,
  user_space m = true → chain_ok m l →
  region_chain fuel b m = Ok (l, m) → chain_ok m2 l →
  (∀ x, (∃ r, In r l ∧ r.1.1.1 ≤ x < r.1.1.1 + 32) →
        byte_at (contents m2) x = byte_at (contents m) x) →
  region_chain fuel b m2 = Ok (l, m2).
Proof.
  induction fuel as [|fuel IH]; intros b m l m2 Hu Hok H Hok2 Hagree; [discriminate H |].
  destruct (Z.eq_dec b 0) as [-> | Hbnz].
  { cbn [region_chain] in *. cbn [Z.eqb] in *. apply ret_Ok in H as [<- _]. reflexivity. }
  assert (Hvb : valid m b 8 = true).
  { cbn [region_chain] in H. destruct (Z.eqb_spec b 0) as [? | _]; [contradiction |].
    apply bind_Ok in H as (? & ? & H1 & _). exact (load64_valid _ _ _ _ H1). }
  pose proof (valid_user_space _ _ _ Hu Hvb) as [Hb0 _].
  assert (Hl : l ≠ []).
  { intros ->. cbn [region_chain] in H. destruct (Z.eqb_spec b 0) as [? | _]; [contradiction |].
    apply bind_Ok in H as (? & ? & H1 & H). apply load64_inv in H1 as [-> ->].
    apply bind_Ok in H as (? & ? & H1 & H). apply load64_inv in H1 as [-> ->].
    apply bind_Ok in H as (? & ? & H1 & H). apply load64_inv in H1 as [-> ->].
    apply bind_Ok in H as (? & ? & H1 & H). apply load64_inv in H1 as [-> ->].
    apply bind_Ok in H as (? & ? & H1 & H). apply ret_Ok in H as [H _]. discriminate. }
  destruct l as [|[[[b0 base] size] off] rest]; [contradiction |].
  destruct Hok as ((Hb & Hbase & Hsize & Hin) & Hap & Hrest).
  destruct Hok2 as ((_ & _ & _ & Hin2) & _ & Hrest2).
  assert (b0 = b) as ->.
  { cbn [region_chain] in H. destruct (Z.eqb_spec b 0) as [? | _]; [contradiction |].
    apply bind_Ok in H as (? & ? & H1 & H). apply load64_inv in H1 as [-> ->].
    apply bind_Ok in H as (? & ? & H1 & H). apply load64_inv in H1 as [-> ->].
    apply bind_Ok in H as (? & ? & H1 & H). apply load64_inv in H1 as [-> ->].
    apply bind_Ok in H as (? & ? & H1 & H). apply load64_inv in H1 as [-> ->].
    apply bind_Ok in H as (? & ? & H1 & H). apply ret_Ok in H as [H _]. congruence. }
  assert (Hvalid : valid m b 32 = true) by (apply (valid_of_region m b (size + 32)); [assumption | lia..]).
  pose proof (valid_user_space _ _ _ Hu Hvalid) as [_ Hend]. unfold USER_SPACE_END in Hend.
  apply region_chain_inv in H as (_ & rest' & Heq & Htail); [| lia | word_lia].
  assert (Hbase' : base = load_le 8 (contents m) b) by congruence.
  assert (Hsize' : size = load_le 8 (contents m) (b + 8)) by congruence.
  assert (Hoff' : off = load_le 8 (contents m) (b + 16)) by congruence.
  assert (rest' = rest) as -> by congruence. clear Heq.
  assert (Hload : ∀ d, 0 ≤ d ≤ 24 →
            load_le 8 (contents m2) (b + d) = load_le 8 (contents m) (b + d)).
  { intros d Hd. apply load_le_ext. intros x Hx. change (Z.of_nat 8) with 8 in Hx.
    apply Hagree. exists (b, base, size, off). split; [now left |]. cbn. lia. }
  pose proof (Hload 0 ltac:(lia)) as Hl0. rewrite Z.add_0_r in Hl0.
  apply region_chain_cons with (load_le 8 (contents m) (b + 24)).
  - lia.
  - word_lia.
  - apply (valid_of_region m2 b (size + 32)); [assumption | lia..].
  - congruence.
  - rewrite Hload by lia. congruence.
  - rewrite Hload by lia. congruence.
  - apply Hload. lia.
  - apply (IH _ m); [exact Hu | exact Hrest | exact Htail | exact Hrest2 |].
    intros x (r & Hr & Hx). apply Hagree. exists r. split; [now right | exact Hx].
Qed.
Lemma region_chain_head fuel b m l :
  user_space m = true → region_chain (S fuel) b m = Ok (l, m) → b ≠ 0 →
  0 < b ∧ b + 32 < WORD ∧
  ∃ rest,
    l = (b, load_le 8 (contents m) b, load_le 8 (contents m) (b + 8),
         load_le 8 (contents m) (b + 16)) :: rest ∧
    region_chain fuel (load_le 8 (contents m) (b + 24)) m = Ok (rest, m).
Proof.
  intros Hu H Hbnz.
  assert (Hvb : valid m b 8 = true).
  { cbn [region_chain] in H. destruct (Z.eqb_spec b 0) as [? | _]; [contradiction |].
    apply bind_Ok in H as (? & ? & H1 & _). exact (load64_valid _ _ _ _ H1). }
  pose proof (valid_user_space _ _ _ Hu Hvb) as [Hb0 Hb1]. unfold USER_SPACE_END in Hb1.
  assert (Hb : 0 < b) by lia. assert (Hw : b + 32 < WORD) by word_lia.
  split; [exact Hb |]. split; [exact Hw |].
  apply region_chain_inv in H as (_ & rest & Heq & Htail); [| lia | lia]. eauto.
Qed.

(** The loop of [pool_reset] over a chain of regions. *)
Lemma reset_loop_chain fuel : ∀ b m l,
  user_space m = true → chain_ok m l →
  region_chain fuel b m = Ok (l, m) →
  ∃ m', reset_loop fuel b m = Ok (tt, m') ∧ mapped m' = mapped m ∧
    region_chain fuel b m' = Ok (map zero_offset l, m') ∧
    (∀ r x, In r l → in_usable x r → byte_at (contents m') x = 0) ∧
    (∀ x, (∀ r, In r l → ¬ inside_region x r) →
          byte_at (contents m') x = byte_at (contents m) x).
Proof.
  induction fuel as [|fuel IH]; intros b m l Hu Hok H; [discriminate H |].
  destruct (Z.eq_dec b 0) as [-> | Hbnz].
  { cbn [region_chain reset_loop] in *. cbn [Z.eqb] in *. apply ret_Ok in H as [<- _].
    exists m. split; [reflexivity |]. split; [reflexivity |]. split; [reflexivity |].
    split; [intros r x [] | reflexivity]. }
  destruct (region_chain_head _ _ _ _ Hu H Hbnz) as (Hb & Hw & rest & -> & Htail).
  set (base := load_le 8 (contents m) b) in *.
  set (size := load_le 8 (contents m) (b + 8)) in *.
  set (off := load_le 8 (contents m) (b + 16)) in *.
  set (next := load_le 8 (contents m) (b + 24)) in *.
  destruct Hok as ((_ & Hbase & Hsize & Hin) & Hap & Hrest).
  assert (Hvalid : valid m b 32 = true)
    by (apply (valid_of_region m b (size + 32)); [assumption | lia..]).
  assert (Hwhole : valid m b (size + 32) = true)
    by (apply (valid_of_region m b (size + 32)); [assumption | lia..]).
  pose proof (valid_user_space _ _ _ Hu Hwhole) as [_ Hend]. unfold USER_SPACE_END in Hend.
  (* the body of the loop *)
  set (m1 := mkMemory (store_le 8 (b + 16) 0 (contents m)) (mapped m)).
  destruct (simd_memset_spec base 0 size m1 b (size + 32))
    as (m2 & Hset & Hmap2 & Hzero & Hframe2); [exact Hin | lia | lia | lia | word_lia |].
  assert (Hm2 : ∀ x, ¬ (b + 16 ≤ x < b + 24) → ¬ (base ≤ x < base + size) →
                  byte_at (contents m2) x = byte_at (contents m) x).
  { intros x Hx1 Hx2. rewrite Hframe2 by exact Hx2. subst m1. cbn [contents].
    rewrite byte_at_store_le. rewrite decide_False; [reflexivity |].
    change (Z.of_nat 8) with 8. lia. }
  assert (Hu2 : user_space m2 = true).
  { unfold user_space. rewrite Hmap2. exact Hu. }
  assert (Hdisjoint : ∀ r x, In r rest → inside_region x r → ¬ (b ≤ x < b + 32 + size)).
  { intros [[[b' base'] size'] off'] x Hr Hx. rewrite Forall_forall in Hap.
    specialize (Hap _ (proj2 (list_elem_of_In _ _) Hr)).
    unfold apart in Hap. unfold inside_region in Hx. lia. }
  assert (Htail2 : region_chain fuel next m2 = Ok (rest, m2)).
  { apply (region_chain_frame fuel next m);
      [exact Hu | exact Hrest | exact Htail | exact (chain_ok_mapped m m2 _ Hmap2 Hrest) |].
    intros x (r & Hr & Hx).
    assert (Hins : inside_region x r).
    { pose proof (chain_ok_size _ _ _ Hrest Hr) as [Hs _].
      destruct r as [[[b' base'] size'] off']. unfold inside_region. cbn [fst snd] in *. lia. }
    pose proof (Hdisjoint r x Hr Hins). apply Hm2; lia. }
  destruct (IH next m2 rest Hu2 (chain_ok_mapped m m2 _ Hmap2 Hrest) Htail2)
    as (m' & Hloop & Hmap' & Hchain' & Hzero' & Hframe').
  assert (Hhead : ∀ x, b ≤ x < b + 32 + size →
                    byte_at (contents m') x = byte_at (contents m2) x).
  { intros x Hx. apply Hframe'. intros r Hr Hins. exact (Hdisjoint r x Hr Hins Hx). }
  exists m'. split; [| split; [| split; [| split]]].
  - cbn [reset_loop]. destruct (Z.eqb_spec b 0) as [? | _]; [contradiction |].
    unfold blk_base, blk_size, blk_offset, blk_next. rewrite !wadd_small by lia.
    rewrite (bind_step _ _ _ _ _
               (store64_Ok _ _ _ (valid_sub m b 32 (b + 16) 8 Hvalid ltac:(lia) ltac:(lia)))).
    fold m1.
    rewrite (bind_step _ _ _ _ _
               (load64_Ok _ _ (valid_sub m b 32 b 8 Hvalid ltac:(lia) ltac:(lia) : valid m1 b 8 = true))).
    rewrite (bind_step _ _ _ _ _
               (load64_Ok _ _ (valid_sub m b 32 (b + 8) 8 Hvalid ltac:(lia) ltac:(lia)
                               : valid m1 (b + 8) 8 = true))).
    replace (load_le 8 (contents m1) b) with base
      by (subst m1; cbn [contents]; rewrite load_store_other by lia; reflexivity).
    replace (load_le 8 (contents m1) (b + 8)) with size
      by (subst m1; cbn [contents]; rewrite load_store_other by lia; reflexivity).
    rewrite (bind_step _ _ _ _ _ Hset).
    assert (Hv24 : valid m2 (b + 24) 8 = true).
    { rewrite (valid_mapped m1 m2) by exact Hmap2.
      exact (valid_sub m b 32 (b + 24) 8 Hvalid ltac:(lia) ltac:(lia)). }
    rewrite (bind_step _ _ _ _ _ (load64_Ok _ _ Hv24)).
    replace (load_le 8 (contents m2) (b + 24)) with next; [exact Hloop |].
    symmetry. apply load_le_ext. intros x Hx. change (Z.of_nat 8) with 8 in Hx.
    apply Hm2; lia.
  - rewrite Hmap'. exact Hmap2.
  - cbn [map zero_offset]. apply region_chain_cons with next.
    + exact Hb.
    + exact Hw.
    + rewrite (valid_mapped m2 m') by exact Hmap'.
      rewrite (valid_mapped m1 m2) by exact Hmap2. exact Hvalid.
    + apply load_le_ext. intros x Hx. change (Z.of_nat 8) with 8 in Hx.
      rewrite Hhead by lia. apply Hm2; lia.
    + apply load_le_ext. intros x Hx. change (Z.of_nat 8) with 8 in Hx.
      rewrite Hhead by lia. apply Hm2; lia.
    + transitivity (load_le 8 (contents m1) (b + 16)).
      * apply load_le_ext. intros x Hx. change (Z.of_nat 8) with 8 in Hx.
        rewrite Hhead by lia. apply Hframe2. lia.
      * subst m1. cbn [contents]. apply load_store_same. word_lia.
    + apply load_le_ext. intros x Hx. change (Z.of_nat 8) with 8 in Hx.
      rewrite Hhead by lia. apply Hm2; lia.
    + exact Hchain'.
  - intros r x [<- | Hr] Hx.
    + unfold in_usable in Hx. rewrite Hhead by lia. rewrite Hzero by lia. reflexivity.
    + exact (Hzero' r x Hr Hx).
  - intros x Hout. rewrite Hframe' by (intros r Hr; apply Hout; now right).
    pose proof (Hout _ (or_introl eq_refl)) as Hx. unfold inside_region in Hx. apply Hm2; lia.
Qed.

(** [pool_reset] on a pool with any number of regions: the call returns,
    the free list is empty, every region keeps its place and size and has
    bump offset 0, every usable byte of every region is zero, and no
    byte outside the regions has changed. *)
Theorem pool_reset_clears_regions fuel p m l :
  user_space m = true → chain_ok m l →
  region_chain fuel (block_head p) m = Ok (l, m) →
  ∃ m',
    pool_reset fuel (Some p) m
      = Ok (Some (mkPool (block_head p) 0 (initial_block_size p)), m') ∧
    mapped m' = mapped m ∧
    region_chain fuel (block_head p) m' = Ok (map zero_offset l, m') ∧
    (∀ r x, In r l → in_usable x r → byte_at (contents m') x = 0) ∧
    (∀ x, (∀ r, In r l → ¬ inside_region x r) →
          byte_at (contents m') x = byte_at (contents m) x).
Proof.
  intros Hu Hok Hchain.
  destruct (reset_loop_chain fuel (block_head p) m l Hu Hok Hchain)
    as (m' & Hloop & Hrest).
  exists m'. split; [| exact Hrest].
  unfold pool_reset. cbn [block_head]. rewrite (bind_step _ _ _ _ _ Hloop). reflexivity.
Qed.

Lemma pool_reset_clears_regions_witness :
  let m := memory_after (alloc_on_fresh_pool 5000 16 empty_memory) in
  let p := mkPool 65536 0 4096 in
  let l := [(65536, 65568, 4096, 0); (131072, 131104, 5032, 5032)] in
  (user_space m = true ∧ chain_ok m l ∧ region_chain 8 (block_head p) m = Ok (l, m)) ∧
  ∃ m',
    pool_reset 8 (Some p) m
      = Ok (Some (mkPool (block_head p) 0 (initial_block_size p)), m') ∧
    mapped m' = mapped m ∧
    region_chain 8 (block_head p) m' = Ok (map zero_offset l, m') ∧
    (∀ r x, In r l → in_usable x r → byte_at (contents m') x = 0) ∧
    (∀ x, (∀ r, In r l → ¬ inside_region x r) →
          byte_at (contents m') x = byte_at (contents m) x).
Proof.
  intros m p l.
  assert (Hu : user_space m = true) by (vm_compute; reflexivity).
  assert (Hok : chain_ok m l).
  { split; [| split].
    - split; [lia |]. split; [reflexivity |]. split; [lia |].
      vm_compute. right. left. reflexivity.
    - constructor; [unfold apart; lia | constructor].
    - split; [| split; [constructor | exact I]].
      split; [lia |]. split; [reflexivity |]. split; [lia |].
      vm_compute. left. reflexivity. }
  assert (Hchain : region_chain 8 (block_head p) m = Ok (l, m)) by (vm_compute; reflexivity).
  split; [auto |].
  exact (pool_reset_clears_regions 8 p m l Hu Hok Hchain).
Defined.
End PoolReset.

Section Destroy.
Import Slab SlabRuns SlabDestroy.

Lemma VirtualFree_run addr m :
  ∃ r, VirtualFree addr m
       = Ok (r, mkMemory (contents m) (List.filter (λ r, negb (fst r =? addr)) (mapped m))).
Proof.
  unfold VirtualFree. destruct (existsb _ _) eqn:He; [eauto |].
  exists 0. f_equal. f_equal. destruct m as [h l]. cbn [contents mapped] in *. f_equal.
  induction l as [|r l IH]; [reflexivity |].
  cbn [existsb List.filter] in *. apply orb_false_iff in He as [-> He]. cbn [negb].
  f_equal. exact (IH He).
Qed.



End Destroy.

Section PoolDestroyed.
Import Pool PoolRuns PoolDestroy.

Lemma user_space_filter m f h :
  user_space m = true → user_space (mkMemory h (List.filter f (mapped m))) = true.
Proof.
  unfold user_space. cbn [mapped]. rewrite !forallb_forall.
  intros H r Hr. apply filter_In in Hr as [Hr _]. auto.
Qed.

Lemma chain_ok_release m h b size l :
  0 ≤ size → Forall (apart (b, b + 32, size, h)) l → chain_ok m l →
  chain_ok (mkMemory (contents m) (List.filter (λ r, negb (fst r =? b)) (mapped m))) l.
Proof.
  intros Hsize Hap. induction l as [|[[[b' base'] size'] off'] rest IH]; [auto |].
  intros ((Hb & Hbase & Hs & Hin) & Hap' & Hrest).
  apply Forall_cons in Hap as [Hhd Hap]. unfold apart in Hhd.
  cbn [chain_ok mapped]. split; [| split; [exact Hap' | exact (IH Hap Hrest)]].
  split; [exact Hb |]. split; [exact Hbase |]. split; [exact Hs |].
  apply filter_In. split; [exact Hin |]. cbn [fst].
  apply negb_true_iff, Z.eqb_neq. lia.
Qed.

(** The loop of [pool_destroy] over a chain of regions. *)
Lemma destroy_loop_chain fuel : ∀ b m l,
  user_space m = true → chain_ok m l →
  region_chain fuel b m = Ok (l, m) →
  ∃ m', destroy_loop fuel b m = Ok (tt, m') ∧ contents m' = contents m ∧
    ∀ r, In r (mapped m') ↔ In r (mapped m) ∧ ∀ g, In g l → fst r ≠ g.1.1.1.
Proof.
  induction fuel as [|fuel IH]; intros b m l Hu Hok H; [discriminate H |].
  destruct (Z.eq_dec b 0) as [-> | Hbnz].
  { cbn [region_chain destroy_loop] in *. cbn [Z.eqb] in *. apply ret_Ok in H as [<- _].
    exists m. split; [reflexivity |]. split; [reflexivity |].
    intros r. split; [intros Hr; split; [exact Hr | intros g []] | now intros [Hr _]]. }
  destruct (region_chain_head _ _ _ _ Hu H Hbnz) as (Hb & Hw & rest & -> & Htail).
  set (base := load_le 8 (contents m) b) in *.
  set (size := load_le 8 (contents m) (b + 8)) in *.
  set (off := load_le 8 (contents m) (b + 16)) in *.
  set (next := load_le 8 (contents m) (b + 24)) in *.
  destruct Hok as ((_ & Hbase & Hsize & Hin) & Hap & Hrest).
  assert (Hvalid : valid m b 32 = true)
    by (apply (valid_of_region m b (size + 32)); [assumption | lia..]).
  destruct (VirtualFree_run b m) as (ok & Hfree).
  set (m1 := mkMemory (contents m) (List.filter (λ r, negb (fst r =? b)) (mapped m))) in *.
  assert (Hu1 : user_space m1 = true) by now apply user_space_filter.
  assert (Hok1 : chain_ok m1 rest).
  { apply (chain_ok_release m off b size); [exact Hsize | | exact Hrest].
    rewrite <- Hbase. exact Hap. }
  assert (Htail1 : region_chain fuel next m1 = Ok (rest, m1)).
  { apply (region_chain_frame fuel next m); [exact Hu | exact Hrest | exact Htail | exact Hok1 |].
    reflexivity. }
  destruct (IH next m1 rest Hu1 Hok1 Htail1) as (m' & Hloop & Hcont & Hmapped).
  exists m'. split; [| split].
  - cbn [destroy_loop]. destruct (Z.eqb_spec b 0) as [? | _]; [contradiction |].
    unfold blk_next. rewrite wadd_small by lia.
    rewrite (bind_step _ _ _ _ _
               (load64_Ok _ _ (valid_sub m b 32 (b + 24) 8 Hvalid ltac:(lia) ltac:(lia)))).
    fold next. rewrite (bind_step _ _ _ _ _ Hfree). exact Hloop.
  - rewrite Hcont. reflexivity.
  - intros r. rewrite Hmapped. subst m1. cbn [mapped]. rewrite filter_In.
    rewrite negb_true_iff, Z.eqb_neq. split.
    + intros ((Hr & Hne) & Hrest'). split; [exact Hr |].
      intros g [<- | Hg]; [exact Hne | exact (Hrest' g Hg)].
    + intros (Hr & Hall). split; [split; [exact Hr |] |].
      * exact (Hall _ (or_introl eq_refl)).
      * intros g Hg. apply Hall. now right.
Qed.

(** [pool_destroy] on a pool with any number of regions: the call
    returns without touching a released region, the handle has no region
    and no free list left, the contents are untouched, and what remains
    mapped is what was mapped except the pool's regions. *)
Theorem pool_destroy_releases_regions fuel p m l :
  user_space m = true → chain_ok m l →
  region_chain fuel (block_head p) m = Ok (l, m) →
  ∃ m',
    pool_destroy fuel (Some p) m = Ok (Some (mkPool 0 0 (initial_block_size p)), m') ∧
    contents m' = contents m ∧
    ∀ r, In r (mapped m') ↔ In r (mapped m) ∧ ∀ g, In g l → fst r ≠ g.1.1.1.
Proof.
  intros Hu Hok Hchain.
  destruct (destroy_loop_chain fuel (block_head p) m l Hu Hok Hchain)
    as (m' & Hloop & Hrest).
  exists m'. split; [| exact Hrest].
  unfold pool_destroy. rewrite (bind_step _ _ _ _ _ Hloop). reflexivity.
Qed.

Lemma pool_destroy_releases_regions_witness :
  let m := memory_after (alloc_on_fresh_pool 5000 16 empty_memory) in
  let p := mkPool 65536 0 4096 in
  let l := [(65536, 65568, 4096, 0); (131072, 131104, 5032, 5032)] in
  (user_space m = true ∧ chain_ok m l ∧ region_chain 8 (block_head p) m = Ok (l, m)) ∧
  ∃ m',
    pool_destroy 8 (Some p) m = Ok (Some (mkPool 0 0 (initial_block_size p)), m') ∧
    contents m' = contents m ∧
    ∀ r, In r (mapped m') ↔ In r (mapped m) ∧ ∀ g, In g l → fst r ≠ g.1.1.1.
Proof.
  intros m p l.
  assert (Hu : user_space m = true) by (vm_compute; reflexivity).
  assert (Hok : chain_ok m l).
  { split; [| split].
    - split; [lia |]. split; [reflexivity |]. split; [lia |].
      vm_compute. right. left. reflexivity.
    - constructor; [unfold apart; lia | constructor].
    - split; [| split; [constructor | exact I]].
      split; [lia |]. split; [reflexivity |]. split; [lia |].
      vm_compute. left. reflexivity. }
  assert (Hchain : region_chain 8 (block_head p) m = Ok (l, m)) by (vm_compute; reflexivity).
  split; [auto |].
  exact (pool_destroy_releases_regions 8 p m l Hu Hok Hchain).
Defined.
End PoolDestroyed.

Section SlabInitOutcome.
Import Slab SlabRuns.

(** [slab_init] either stops at its guard, is refused the region, or
    writes the links and reports success. *)
Lemma slab_init_run s0 N osz os m :
  0 ≤ N < WORD → 0 ≤ osz < WORD → align_size osz * N < WORD →
  (slab_init (Some s0) N osz os m = Ok ((0, Some s0), m) ∧ (N = 0 ∨ osz < 8)) ∨
  (slab_init (Some s0) N osz os m
     = Ok ((0, Some (mkSlab 0 (align_size osz) N (free_list s0))), m) ∧
   1 ≤ N ∧ 8 ≤ osz ∧ os_grants m os (align_size osz * N) = false) ∨
  (∃ m1, slab_init (Some s0) N osz os m
           = Ok ((1, Some (mkSlab os (align_size osz) N os)), m1) ∧
         1 ≤ N ∧ 8 ≤ osz ∧ os_grants m os (align_size osz * N) = true).
Proof.
  intros HN Hosz Hfit. unfold slab_init.
  destruct (Z.eqb_spec N 0) as [-> | HN0]; cbn [orb]; [left; auto |].
  destruct (Z.ltb_spec osz 8) as [Hlt | Hge]; [left; auto |]. right.
  assert (Hc0 : 0 ≤ align_size osz) by (unfold align_size, wand; apply Z.land_nonneg; left; apply wrap_bound).
  rewrite (wmul_small (align_size osz) N) by nia.
  destruct (os_grants m os (align_size osz * N)) eqn:Hg.
  - right.
    pose proof (os_grants_facts _ _ _ Hg) as (Hbytes & Hos & _ & Hend).
    unfold USER_SPACE_END in Hend. pose proof (page_round_ge (align_size osz * N)) as Hpr.
    assert (Hcsz : 16 ≤ align_size osz).
    { destruct (Z.lt_ge_cases (osz + 15) WORD).
      - rewrite align_size_round by lia.
        pose proof (Z.div_mod (osz + 15) 16 ltac:(lia)).
        pose proof (Z.mod_pos_bound (osz + 15) 16 ltac:(lia)). lia.
      - rewrite align_size_overflow in Hbytes by lia. lia. }
    set (m0 := mkMemory (fresh_pages os (page_round (align_size osz * N)) (contents m))
                        ((os, align_size osz * N) :: mapped m)).
    assert (Hva : VirtualAlloc os (align_size osz * N) m = Ok (os, m0))
      by (unfold VirtualAlloc; rewrite Hg; reflexivity).
    rewrite (bind_step _ _ _ _ _ Hva).
    destruct (Z.eqb_spec os 0) as [? | _]; [lia |].
    rewrite (wsub_small N 1) by lia.
    destruct (link_objects_spec (Z.to_nat (N - 1)) 0 os (align_size osz)
                (align_size osz * N) m0)
      as (m' & Hrun & Hmap & _ & _);
      [now left | lia | lia | lia | | word_lia |].
    { rewrite Z2Nat.id by lia. nia. }
    rewrite (bind_step _ _ _ _ _ Hrun).
    assert (Hcell : 0 ≤ (N - 1) * align_size osz ∧
                    (N - 1) * align_size osz + align_size osz = align_size osz * N)
      by (split; [apply Z.mul_nonneg_nonneg; lia | ring]).
    rewrite (wmul_small (N - 1)), wadd_small by word_lia.
    assert (Hvalid : valid m' (os + (N - 1) * align_size osz) 8 = true).
    { apply (valid_of_region m' os (align_size osz * N)); [rewrite Hmap; now left | lia | lia]. }
    rewrite (bind_step _ _ _ _ _ (store64_Ok _ _ _ Hvalid)).
    eexists. split; [reflexivity |]. split; [lia |]. split; [lia | reflexivity].
  - left.
    assert (Hva : VirtualAlloc os (align_size osz * N) m = Ok (0, m))
      by (unfold VirtualAlloc; rewrite Hg; reflexivity).
    rewrite (bind_step _ _ _ _ _ Hva). cbn [Z.eqb]. split; [reflexivity | lia].
Qed.

(** [slab_init] on a non-null handle always returns when the byte size
    of the slab does not overflow.  When a guard fails (no objects, or
    an object size below 8) it returns 0 with the handle and the memory
    untouched.  When the guards pass and the system refuses the region
    it returns 0 with the memory untouched and the handle's sizes set and
    its memory null.  When the system grants the region it returns 1 and
    leaves a slab of the geometry asked for, with a free list through
    all cells in ascending order. *)
Theorem slab_init_outcome s0 N osz os m :
  0 ≤ N < WORD → 0 ≤ osz < WORD → align_size osz * N < WORD → user_space m = true →
  ∃ r slab m1,
    slab_init (Some s0) N osz os m = Ok ((r, slab), m1) ∧
    (N = 0 ∨ osz < 8 → r = 0 ∧ slab = Some s0 ∧ m1 = m) ∧
    (1 ≤ N → 8 ≤ osz → os_grants m os (align_size osz * N) = false →
       r = 0 ∧ slab = Some (mkSlab 0 (align_size osz) N (free_list s0)) ∧ m1 = m) ∧
    (1 ≤ N → 8 ≤ osz → os_grants m os (align_size osz * N) = true →
       r = 1 ∧ slab = Some (mkSlab os (align_size osz) N os) ∧
       slab_shape (mkSlab os (align_size osz) N os) m1 ∧
       links_ascending (mkSlab os (align_size osz) N os) m1).
Proof.
  intros HN Hosz Hfit Hu.
  destruct (slab_init_run s0 N osz os m HN Hosz Hfit)
    as [[Hrun Hwhy] | [(Hrun & HN1 & Hosz8 & Hno) | (m1 & Hrun & HN1 & Hosz8 & Hg)]].
  - exists 0. eexists. exists m. split; [exact Hrun |].
    split; [auto |]. split; intros; lia.
  - exists 0. eexists. exists m. split; [exact Hrun |].
    split; [intros; lia |]. split; [auto |]. intros _ _ Hg. congruence.
  - exists 1. eexists. exists m1. split; [exact Hrun |].
    split; [intros; lia |]. split; [intros _ _ Hno; congruence |]. intros _ _ _.
    split; [reflexivity |]. split; [reflexivity |]. split.
    + exact (fresh_slab_shape s0 N osz os m _ m1 ltac:(lia) ltac:(lia) Hu Hrun).
    + exact (fresh_slab_links s0 N osz os m _ m1 ltac:(lia) ltac:(lia) Hu Hrun).
Qed.

Lemma slab_init_outcome_witness :
  (0 ≤ 3 < WORD ∧ 0 ≤ 64 < WORD ∧ align_size 64 * 3 < WORD ∧
   user_space empty_memory = true ∧
   os_grants empty_memory 65536 (align_size 64 * 3) = true) ∧
  ∃ r slab m1,
    slab_init (Some unused_slab) 3 64 65536 empty_memory = Ok ((r, slab), m1) ∧
    (3 = 0 ∨ 64 < 8 → r = 0 ∧ slab = Some unused_slab ∧ m1 = empty_memory) ∧
    (1 ≤ 3 → 8 ≤ 64 → os_grants empty_memory 65536 (align_size 64 * 3) = false →
       r = 0 ∧ slab = Some (mkSlab 0 (align_size 64) 3 (free_list unused_slab)) ∧
       m1 = empty_memory) ∧
    (1 ≤ 3 → 8 ≤ 64 → os_grants empty_memory 65536 (align_size 64 * 3) = true →
       r = 1 ∧ slab = Some (mkSlab 65536 (align_size 64) 3 65536) ∧
       slab_shape (mkSlab 65536 (align_size 64) 3 65536) m1 ∧
       links_ascending (mkSlab 65536 (align_size 64) 3 65536) m1).
Proof.
  assert (H1 : 0 ≤ 3 < WORD) by word_lia.
  assert (H2 : 0 ≤ 64 < WORD) by word_lia.
  assert (H3 : align_size 64 * 3 < WORD) by (vm_compute; reflexivity).
  assert (H4 : user_space empty_memory = true) by reflexivity.
  assert (H5 : os_grants empty_memory 65536 (align_size 64 * 3) = true)
    by (vm_compute; reflexivity).
  split; [auto 10 |].
  exact (slab_init_outcome unused_slab 3 64 65536 empty_memory H1 H2 H3 H4).
Defined.
End SlabInitOutcome.

Section SlabOverlap.
Import Slab SlabRuns.

(** The cells are [align_size object_size] bytes apart, but the pointer
    handed out is 32 bytes into its cell: the object reaches into the
    next cell.  On a fresh slab of at least three objects of more than
    16 bytes, the client that clears the [object_size] bytes of its
    first object clears the link of the second cell, and the slab hands
    out one more object and then reports empty. *)
Theorem slab_object_covers_next_link s0 N osz os m s m1 :
  3 ≤ N < WORD → 17 ≤ osz < WORD → user_space m = true →
  slab_init (Some s0) N osz os m = Ok ((1, Some s), m1) →
  ∃ s1 m2,
    slab_alloc (Some s) m1 = Ok ((memory s + 32, Some s1), m1) ∧
    memset (memory s + 32) 0 osz m1 = Ok (tt, m2) ∧
    alloc_many 2 (Some s1) m2
      = Ok (([memory s + object_size s + 32; 0], Some (set_head s 0)), m2).
Proof.
  intros HN Hosz Hu Hinit.
  pose proof (fresh_slab_is s0 N osz os m _ m1 ltac:(lia) ltac:(lia) Hinit) as Hs.
  injection Hs as ->.
  pose proof (fresh_slab_fits s0 N osz os m _ m1 ltac:(lia) ltac:(lia) Hu Hinit) as Hfit.
  pose proof (fresh_slab_shape s0 N osz os m _ m1 ltac:(lia) ltac:(lia) Hu Hinit) as Hshape.
  pose proof (fresh_slab_links s0 N osz os m _ m1 ltac:(lia) ltac:(lia) Hu Hinit) as Hlinks.
  set (csz := align_size osz) in *.
  destruct Hshape as [Hmapped Hbase Hend _ [Hc16 _] _].
  cbn [memory object_size total_objects] in *. unfold USER_SPACE_END in Hend.
  assert (Hcsz : osz ≤ csz ≤ osz + 15 ∧ 32 ≤ csz).
  { subst csz. destruct (Z.lt_ge_cases (osz + 15) WORD) as [Hlt | Hge].
    - rewrite align_size_round in * by lia.
      pose proof (Z.div_mod (osz + 15) 16 ltac:(lia)).
      pose proof (Z.mod_pos_bound (osz + 15) 16 ltac:(lia)). lia.
    - rewrite align_size_overflow in Hc16 by lia. lia. }
  assert (H3 : csz * 3 ≤ csz * N) by (apply Z.mul_le_mono_nonneg_l; lia).
  destruct (Hlinks 0 ltac:(cbn; lia)) as [Hv0 Hl0].
  destruct (Hlinks 1 ltac:(cbn; lia)) as [Hv1 _].
  unfold cell in Hv0, Hl0, Hv1. cbn [memory object_size total_objects] in Hv0, Hl0, Hv1.
  rewrite Z.mul_0_l, Z.add_0_r in Hv0, Hl0. rewrite Z.mul_1_l in Hv1.
  destruct (Z.ltb_spec (0 + 1) N) as [_ | ?]; [| lia].
  change (0 + 1) with 1 in Hl0. rewrite Z.mul_1_l in Hl0.
  assert (Hfill : valid m1 (os + 32) osz = true)
    by (apply (valid_of_region m1 os (csz * N)); [assumption | lia | lia]).
  set (m2 := mkMemory (fill (Z.to_nat osz) (os + 32) (0 mod 256) (contents m1)) (mapped m1)).
  exists (mkSlab os csz N (os + csz)), m2. split; [| split].
  - unfold slab_alloc. cbn [free_list memory object_size total_objects].
    destruct (Z.eqb_spec os 0) as [? | _]; [lia |].
    rewrite (bind_step _ _ _ _ _ (load64_Ok _ _ Hv0)), Hl0. cbn [negb].
    unfold HEADER_SIZE. rewrite wadd_small by word_lia. reflexivity.
  - unfold memset. destruct (Z.eqb_spec osz 0) as [? | _]; [lia |].
    rewrite Hfill. reflexivity.
  - cbn [alloc_many]. unfold slab_alloc at 1.
    cbn [free_list memory object_size total_objects].
    destruct (Z.eqb_spec (os + csz) 0) as [? | _]; [lia |].
    rewrite (bind_step _ _ _ _ _ (bind_step _ _ _ _ _ (load64_Ok _ _ (Hv1 : valid m2 (os + csz) 8 = true)))).
    replace (load_le 8 (contents m2) (os + csz)) with 0.
    2: { symmetry. apply load_le_zero. intros x Hx. change (Z.of_nat 8) with 8 in Hx.
         subst m2. cbn [contents]. rewrite byte_at_fill.
         rewrite decide_True; [reflexivity |]. rewrite Z2Nat.id by lia. lia. }
    cbn [negb]. unfold HEADER_SIZE. rewrite wadd_small by word_lia.
    unfold slab_alloc. cbn [free_list Z.eqb]. reflexivity.
Qed.

Lemma slab_object_covers_next_link_witness :
  ∃ s m1,
    slab_init (Some unused_slab) 3 64 65536 empty_memory = Ok ((1, Some s), m1) ∧
    ∃ s1 m2,
      slab_alloc (Some s) m1 = Ok ((memory s + 32, Some s1), m1) ∧
      memset (memory s + 32) 0 64 m1 = Ok (tt, m2) ∧
      alloc_many 2 (Some s1) m2
        = Ok (([memory s + object_size s + 32; 0], Some (set_head s 0)), m2).
Proof.
  eexists. eexists. split; [vm_compute; reflexivity |].
  apply (slab_object_covers_next_link unused_slab 3 64 65536 empty_memory).
  - word_lia.
  - word_lia.
  - reflexivity.
  - vm_compute. reflexivity.
Defined.
End SlabOverlap.

Section SlabVariantsAgree.
Import SlabVariants.

Lemma link_objects_map_step count i mem osz total :
  SlabMap.link_objects (S count) i mem osz total
  = (run store64 (wadd mem (wmul i osz))
           (if i <? wsub total 1 then wadd mem (wmul (i + 1) osz) else 0);
     SlabMap.link_objects count (i + 1) mem osz total).
Proof. reflexivity. Qed.

Lemma link_objects_step count i mem osz :
  Slab.link_objects (S count) i mem osz
  = (run store64 (wadd mem (wmul i osz)) (wadd mem (wmul (i + 1) osz));
     Slab.link_objects count (i + 1) mem osz).
Proof. reflexivity. Qed.

(** The link loop of the file-mapping variant writes what the loop and
    the last store of the [VirtualAlloc] variant write. *)
Lemma link_objects_variants count : ∀ i mem osz total m,
  1 ≤ total < WORD → i + Z.of_nat count = total - 1 →
  SlabMap.link_objects (S count) i mem osz total m
  = (run Slab.link_objects count i mem osz;
     store64 (wadd mem (wmul (wsub total 1) osz)) 0) m.
Proof.
  induction count as [|count IH]; intros i mem osz total m Htotal Hi.
  - cbn [SlabMap.link_objects Slab.link_objects]. rewrite bind_ret.
    rewrite wsub_small by lia.
    destruct (Z.ltb_spec i (total - 1)) as [? | _]; [lia |].
    replace (total - 1) with i by lia.
    unfold bind. destruct (store64 _ 0 m) as [[[] m'] | e]; reflexivity.
  - rewrite link_objects_map_step, link_objects_step.
    rewrite bind_assoc. rewrite (wsub_small total 1) by lia.
    destruct (Z.ltb_spec i (total - 1)) as [_ | ?]; [| lia].
    destruct (store64 (wadd mem (wmul i osz)) (wadd mem (wmul (i + 1) osz)) m)
      as [[[] m'] | e] eqn:Hst.
    + rewrite !(bind_step _ _ _ _ _ Hst).
      rewrite (IH (i + 1) mem osz total m' Htotal ltac:(lia)).
      rewrite (wsub_small total 1) by lia. reflexivity.
    + unfold bind. rewrite Hst. reflexivity.
Qed.

Lemma slab_reset_variants s m :
  1 ≤ SlabMap.total_objects s < WORD →
  SlabMap.slab_reset (Some s) m
  = lift_slab (SlabMap.mappingHandle s) (Slab.slab_reset (Some (forget s)) m).
Proof.
  intros HN. destruct s as [mem osz N fl h].
  cbn [SlabMap.total_objects] in HN.
  unfold SlabMap.slab_reset, Slab.slab_reset, forget.
  cbn [SlabMap.memory SlabMap.object_size SlabMap.total_objects SlabMap.free_list
       SlabMap.mappingHandle Slab.memory Slab.object_size Slab.total_objects Slab.free_list].
  replace (Z.to_nat N) with (S (Z.to_nat (N - 1))) by lia.
  rewrite (wsub_small N 1) by lia.
  pose proof (link_objects_variants (Z.to_nat (N - 1)) 0 mem osz N m HN ltac:(lia)) as Hl.
  rewrite (wsub_small N 1) in Hl by lia.
  rewrite <- (bind_assoc (Slab.link_objects (Z.to_nat (N - 1)) 0 mem osz)
                (λ _, store64 (wadd mem (wmul (N - 1) osz)) 0)).
  destruct (SlabMap.link_objects (S (Z.to_nat (N - 1))) 0 mem osz N m)
    as [[[] m1] | e] eqn:Hmap.
  + rewrite (bind_step _ _ _ _ _ Hmap). symmetry in Hl. rewrite (bind_step _ _ _ _ _ Hl).
    unfold bind. destruct (simd_memset _ _ _ m1) as [[[] m2] | e]; reflexivity.
  + unfold bind at 1. rewrite Hmap. unfold bind at 1. rewrite <- Hl. reflexivity.
Qed.

(** Once a slab exists, [slab_alloc] and [slab_reset] of the two
    variants behave alike: those of the file-mapping variant return what
    those of the [VirtualAlloc] variant return and leave the same memory,
    the mapping handle being carried along. *)
Theorem slab_variants_agree s m :
  SlabMap.slab_alloc (Some s) m
    = lift_result (SlabMap.mappingHandle s) (Slab.slab_alloc (Some (forget s)) m) ∧
  (1 ≤ SlabMap.total_objects s < WORD →
   SlabMap.slab_reset (Some s) m
     = lift_slab (SlabMap.mappingHandle s) (Slab.slab_reset (Some (forget s)) m)).
Proof.
  split.
  - destruct s as [mem osz N fl h].
    unfold SlabMap.slab_alloc, Slab.slab_alloc, forget.
    cbn [SlabMap.memory SlabMap.object_size SlabMap.total_objects SlabMap.free_list
         SlabMap.mappingHandle Slab.memory Slab.object_size Slab.total_objects Slab.free_list].
    destruct (fl =? 0); [reflexivity |].
    unfold bind. destruct (load64 fl m) as [[v m'] | e]; reflexivity.
  - apply slab_reset_variants.
Qed.

Lemma slab_variants_agree_witness :
  let s := SlabMap.mkSlab 65536 64 3 65600 1 in
  let m := memory_after (Slab.slab_init (Some SlabRuns.unused_slab) 3 64 65536 empty_memory) in
  1 ≤ SlabMap.total_objects s < WORD ∧
  SlabMap.slab_alloc (Some s) m
    = lift_result (SlabMap.mappingHandle s) (Slab.slab_alloc (Some (forget s)) m) ∧
  SlabMap.slab_reset (Some s) m
    = lift_slab (SlabMap.mappingHandle s) (Slab.slab_reset (Some (forget s)) m).
Proof.
  intros s m.
  assert (HN : 1 ≤ SlabMap.total_objects s < WORD) by (cbn; word_lia).
  split; [exact HN |].
  destruct (slab_variants_agree s m) as (Ha & Hr).
  split; [exact Ha | exact (Hr HN)].
Defined.

(** While the slab is smaller than 4 GiB the two variants of
    [slab_init] agree as well: same result, same slab, same memory. *)
Theorem slab_init_variants_agree s0 N osz hmap os m :
  1 ≤ N < WORD → 8 ≤ osz → hmap ≠ 0 →
  0 < wmul (Slab.align_size osz) N < 2 ^ 32 →
  SlabMap.slab_init (Some s0) N osz hmap os m
  = lift_result hmap (Slab.slab_init (Some (forget s0)) N osz os m).
Proof.
  intros HN Hosz Hh Hsize. destruct s0 as [mem0 osz0 N0 fl0 h0].
  unfold SlabMap.slab_init, Slab.slab_init, forget.
  cbn [SlabMap.memory SlabMap.object_size SlabMap.total_objects SlabMap.free_list
       SlabMap.mappingHandle Slab.memory Slab.object_size Slab.total_objects Slab.free_list].
  destruct (Z.eqb_spec N 0) as [? | _]; [lia |].
  destruct (Z.ltb_spec osz 8) as [? | _]; [lia |]. cbn [orb].
  change (SlabMap.align_size osz) with (Slab.align_size osz).
  set (size := wmul (Slab.align_size osz) N) in *.
  rewrite (Z.mod_small size) by lia.
  unfold SlabMap.CreateFileMapping, SlabMap.MapViewOfFile.
  destruct (Z.eqb_spec size 0) as [? | _]; [lia |]. rewrite bind_ret.
  destruct (Z.eqb_spec hmap 0) as [? | _]; [contradiction |].
  destruct (Z.gtb_spec size size) as [? | _]; [lia |].
  destruct (VirtualAlloc os size m) as [[r m0] | e] eqn:Hva.
  2: { unfold bind. rewrite Hva. reflexivity. }
  rewrite !(bind_step _ _ _ _ _ Hva).
  destruct (r =? 0); [reflexivity |].
  replace (Z.to_nat N) with (S (Z.to_nat (N - 1))) by lia.
  rewrite (wsub_small N 1) by lia.
  pose proof (link_objects_variants (Z.to_nat (N - 1)) 0 r (Slab.align_size osz) N m0
                HN ltac:(lia)) as Hl.
  rewrite (wsub_small N 1) in Hl by lia.
  rewrite <- (bind_assoc (Slab.link_objects (Z.to_nat (N - 1)) 0 r (Slab.align_size osz))
                (λ _, store64 (wadd r (wmul (N - 1) (Slab.align_size osz))) 0)).
  destruct (SlabMap.link_objects (S (Z.to_nat (N - 1))) 0 r (Slab.align_size osz) N m0)
    as [[[] m1] | e] eqn:Hmap.
  + rewrite (bind_step _ _ _ _ _ Hmap). symmetry in Hl. rewrite (bind_step _ _ _ _ _ Hl).
    reflexivity.
  + unfold bind at 1. rewrite Hmap. unfold bind at 1. rewrite <- Hl. reflexivity.
Qed.

Lemma slab_init_variants_agree_witness :
  (1 ≤ 3 < WORD ∧ 0 < wmul (Slab.align_size 64) 3 < 2 ^ 32) ∧
  SlabMap.slab_init (Some SlabMapRuns.unused_slab) 3 64 1 65536 empty_memory
  = lift_result 1 (Slab.slab_init (Some (forget SlabMapRuns.unused_slab)) 3 64 65536
                     empty_memory).
Proof.
  assert (H1 : 1 ≤ 3 < WORD) by word_lia.
  assert (H2 : 0 < wmul (Slab.align_size 64) 3 < 2 ^ 32) by (vm_compute; split; reflexivity).
  split; [auto |].
  apply (slab_init_variants_agree SlabMapRuns.unused_slab 3 64 1 65536 empty_memory H1).
  - lia.
  - lia.
  - exact H2.
Defined.

(** The file-mapping variant passes the slab size to the system as a
    32-bit number.  A slab of 4 GiB or more is therefore never created:
    [slab_init] returns 0 and maps nothing. *)
Theorem slab_init_map_refuses_4GiB s0 N osz hmap os m :
  N ≠ 0 → 8 ≤ osz → 2 ^ 32 ≤ wmul (SlabMap.align_size osz) N →
  ∃ slab, SlabMap.slab_init (Some s0) N osz hmap os m = Ok ((0, slab), m).
Proof.
  intros HN Hosz Hsize. unfold SlabMap.slab_init.
  destruct (Z.eqb_spec N 0) as [? | _]; [contradiction |].
  destruct (Z.ltb_spec osz 8) as [? | _]; [lia |]. cbn [orb].
  set (size := wmul (SlabMap.align_size osz) N) in *.
  pose proof (Z.mod_pos_bound size (2 ^ 32) ltac:(lia)) as Hlow.
  unfold SlabMap.CreateFileMapping, SlabMap.MapViewOfFile.
  destruct (Z.eqb_spec (size mod 2 ^ 32) 0) as [Hz | Hnz]; rewrite bind_ret.
  - cbn [Z.eqb]. eexists. reflexivity.
  - destruct (Z.eqb_spec hmap 0) as [? | _]; [eexists; reflexivity |].
    destruct (Z.gtb_spec size (size mod 2 ^ 32)) as [_ | ?]; [| lia].
    rewrite bind_ret. cbn [Z.eqb]. eexists. reflexivity.
Qed.

Lemma slab_init_map_refuses_4GiB_witness :
  (2 ^ 26 ≠ 0 ∧ 2 ^ 32 ≤ wmul (SlabMap.align_size 64) (2 ^ 26)) ∧
  ∃ slab, SlabMap.slab_init (Some SlabMapRuns.unused_slab) (2 ^ 26) 64 1 65536 empty_memory
          = Ok ((0, slab), empty_memory).
Proof.
  assert (H1 : 2 ^ 26 ≠ 0) by lia.
  assert (H2 : 2 ^ 32 ≤ wmul (SlabMap.align_size 64) (2 ^ 26)) by (vm_compute; discriminate).
  split; [auto |].
  apply (slab_init_map_refuses_4GiB SlabMapRuns.unused_slab (2 ^ 26) 64 1 65536 empty_memory H1).
  - lia.
  - exact H2.
Defined.
End SlabVariantsAgree.

Section PoolBumpChain.
Import Pool PoolRuns.

Lemma bump_pointer_unique alignment x p :
  0 < alignment → x ≤ p < x + alignment → p mod alignment = 0 →
  p = (x + alignment - 1) / alignment * alignment.
Proof.
  intros Ha Hp Hm.
  pose proof (Z.div_mod p alignment ltac:(lia)) as Hdm. rewrite Hm, Z.add_0_r in Hdm.
  rewrite <- (Z.div_unique (x + alignment - 1) alignment (p / alignment)
                (x + alignment - 1 - p)); [lia | lia | lia].
Qed.

(** The loop of [pool_alloc] over the region chain: it bumps in the
    first region that has room for the padded request and leaves the
    regions before it, which have none, untouched. *)
Lemma bump_loop_chain fuel : ∀ b m l size alignment,
  user_space m = true → chain_ok m l → offsets_ok l →
  region_chain fuel b m = Ok (l, m) →
  power_of_two alignment → 0 ≤ size → alignment + size < 2 ^ 63 →
  ∃ r m',
    bump_loop fuel b size alignment m = Ok (r, m') ∧
    ((r = 0 ∧ m' = m ∧ Forall (λ g, ¬ has_room size alignment g) l) ∨
     (∃ l1 g l2,
        l = l1 ++ g :: l2 ∧
        Forall (λ g, ¬ has_room size alignment g) l1 ∧
        has_room size alignment g ∧
        r = bump_pointer alignment g ∧ r ≠ 0 ∧
        mapped m' = mapped m ∧
        region_chain fuel b m' = Ok (l1 ++ bumped size alignment g :: l2, m') ∧
        load_le 8 (contents m') (r - 32) = size ∧
        load_le 8 (contents m') (r - 16) = 0 ∧
        (∀ x, ¬ inside_region x g → byte_at (contents m') x = byte_at (contents m) x))).
Proof.
  induction fuel as [|fuel IH]; intros b m l size alignment Hu Hok Hoffs H Hpow Hsize Hbig;
    [discriminate H |].
  pose proof (power_of_two_word alignment Hpow) as (k & Hk & Hak & Ha).
  destruct (Z.eq_dec b 0) as [-> | Hbnz].
  { cbn [region_chain bump_loop] in *. cbn [Z.eqb] in *. apply ret_Ok in H as [<- _].
    exists 0, m. split; [reflexivity |]. left. auto. }
  destruct (region_chain_head _ _ _ _ Hu H Hbnz) as (Hb & Hw & rest & -> & Htail).
  set (base := load_le 8 (contents m) b) in *.
  set (rsize := load_le 8 (contents m) (b + 8)) in *.
  set (off := load_le 8 (contents m) (b + 16)) in *.
  set (next := load_le 8 (contents m) (b + 24)) in *.
  destruct Hok as ((_ & Hbase & Hrsize & Hin) & Hap & Hrest).
  apply Forall_cons in Hoffs as [Hoff Hoffs].
  assert (Hvalid : valid m b 32 = true)
    by (apply (valid_of_region m b (rsize + 32)); [assumption | lia..]).
  assert (Hwhole : valid m b (rsize + 32) = true)
    by (apply (valid_of_region m b (rsize + 32)); [assumption | lia..]).
  pose proof (valid_user_space _ _ _ Hu Hwhole) as [_ Hend]. unfold USER_SPACE_END in Hend.
  pose proof (page_round_ge (rsize + 32)) as Hpage.
  assert (Hword : base + off + 32 + alignment + size < WORD) by word_lia.
  destruct (alloc_from_block_returns b size alignment m b (rsize + 32) Hpow)
    as (r & m1 & Hbump); [lia | fold base; lia | fold off; lia | lia | fold base off; lia
                         | exact Hvalid | exact Hin | fold base; lia
                         | fold base rsize; lia |].
  pose proof (alloc_from_block_outcome b size alignment m r m1 Hpow) as Hout.
  cbv zeta in Hout. fold base rsize off in Hout.
  specialize (Hout ltac:(lia) ltac:(lia) ltac:(lia) ltac:(lia) ltac:(lia) Hbump).
  assert (Hdisjoint : ∀ g x, In g rest → inside_region x g → ¬ (b ≤ x < b + 32 + rsize)).
  { intros [[[b' base'] size'] off'] x Hr Hx. rewrite Forall_forall in Hap.
    specialize (Hap _ (proj2 (list_elem_of_In _ _) Hr)).
    unfold apart in Hap. unfold inside_region in Hx. lia. }
  assert (Hdesc : ∀ g x, In g rest → g.1.1.1 ≤ x < g.1.1.1 + 32 → ¬ (b ≤ x < b + 32 + rsize)).
  { intros g x Hg Hx. apply (Hdisjoint g x Hg).
    pose proof (chain_ok_size _ _ _ Hrest Hg) as [Hs _].
    destruct g as [[[b' base'] size'] off']. unfold inside_region. cbn [fst snd] in *. lia. }
  destruct Hout as [(-> & -> & p & Hp & Hpm & Hover)
                   | (Hr & Hrm & Hfit & Hmap & Hb' & Hs' & Ho' & Hn' & Hh & _ & Hl & Hframe)].
  - (* no room here: on to the next region *)
    assert (Hnoroom : ¬ has_room size alignment (b, base, rsize, off)).
    { unfold has_room, bump_pointer.
      rewrite <- (bump_pointer_unique alignment (base + off + 32) p) by (lia || assumption).
      lia. }
    destruct (IH next m rest size alignment Hu Hrest Hoffs Htail Hpow Hsize Hbig)
      as (r & m' & Hloop & Hres).
    exists r, m'. split.
    { cbn [bump_loop]. destruct (Z.eqb_spec b 0) as [? | _]; [contradiction |].
      rewrite (bind_step _ _ _ _ _ Hbump). cbn [Z.eqb negb].
      unfold blk_next. rewrite wadd_small by lia.
      rewrite (bind_step _ _ _ _ _
                 (load64_Ok _ _ (valid_sub m b 32 (b + 24) 8 Hvalid ltac:(lia) ltac:(lia)))).
      exact Hloop. }
    destruct Hres as [(-> & -> & Hall)
                     | (l1 & g & l2 & -> & Hl1 & Hroom & -> & Hrnz & Hmap & Hchain & Hh & Hl & Hframe)].
    + left. split; [reflexivity |]. split; [reflexivity |]. now constructor.
    + right. exists ((b, base, rsize, off) :: l1), g, l2.
      split; [reflexivity |]. split; [now constructor |]. split; [exact Hroom |].
      split; [reflexivity |]. split; [exact Hrnz |]. split; [exact Hmap |].
      split; [| split; [exact Hh | split; [exact Hl | exact Hframe]]].
      assert (Hg : In g (l1 ++ g :: l2)) by (apply in_or_app; right; now left).
      assert (Hsame : ∀ d, 0 ≤ d ≤ 24 →
                load_le 8 (contents m') (b + d) = load_le 8 (contents m) (b + d)).
      { intros d Hd. apply load_le_ext. intros x Hx. change (Z.of_nat 8) with 8 in Hx.
        apply Hframe. intros Hins. apply (Hdisjoint g x Hg Hins). lia. }
      pose proof (Hsame 0 ltac:(lia)) as H0. rewrite Z.add_0_r in H0.
      cbn [app]. apply region_chain_cons with next.
      * exact Hb.
      * exact Hw.
      * rewrite (valid_mapped m m') by exact Hmap. exact Hvalid.
      * exact H0.
      * apply Hsame. lia.
      * apply Hsame. lia.
      * apply Hsame. lia.
      * exact Hchain.
  - (* the request fits this region *)
    assert (Hrp : r = bump_pointer alignment (b, base, rsize, off)).
    { unfold bump_pointer. apply bump_pointer_unique; [lia | lia | exact Hrm]. }
    exists r, m1. split.
    { cbn [bump_loop]. destruct (Z.eqb_spec b 0) as [? | _]; [contradiction |].
      rewrite (bind_step _ _ _ _ _ Hbump).
      destruct (Z.eqb_spec r 0) as [? | _]; [lia |]. reflexivity. }
    right. exists [], (b, base, rsize, off), rest.
    split; [reflexivity |]. split; [constructor |].
    split; [unfold has_room; rewrite <- Hrp; lia |].
    split; [exact Hrp |]. split; [lia |]. split; [exact Hmap |].
    split; [| split; [exact Hh | split; [exact Hl |]]].
    + cbn [app bumped]. rewrite <- Hrp. apply region_chain_cons with next.
      * exact Hb.
      * exact Hw.
      * rewrite (valid_mapped m m1) by exact Hmap. exact Hvalid.
      * exact Hb'.
      * exact Hs'.
      * exact Ho'.
      * exact Hn'.
      * apply (region_chain_frame fuel next m);
          [exact Hu | exact Hrest | exact Htail | exact (chain_ok_mapped m m1 _ Hmap Hrest) |].
        intros x (g & Hg & Hx). pose proof (Hdesc g x Hg Hx). apply Hframe; lia.
    + intros x Hx. unfold inside_region in Hx. apply Hframe; lia.
Qed.
End PoolBumpChain.

Section PoolGrowth.
Import Pool PoolRuns.

(** Fresh pages read zero; every other byte is kept. *)
Lemma byte_at_fresh_pages os len h x :
  byte_at (fresh_pages os len h) x
  = if decide (os ≤ x < os + len) then 0 else byte_at h x.
Proof.
  unfold byte_at, fresh_pages. case_decide as Hx.
  - rewrite map_lookup_filter_None_2; [reflexivity |].
    right. intros v _ Hp. cbn in Hp. contradiction.
  - destruct (h !! x) as [v|] eqn:Hl.
    + rewrite (map_lookup_filter_Some_2 _ _ x v); [reflexivity | exact Hl | exact Hx].
    + rewrite map_lookup_filter_None_2; [reflexivity | now left].
Qed.

Lemma region_chain_null fuel m : region_chain (S fuel) 0 m = Ok ([], m).
Proof. reflexivity. Qed.

(** The walk to the last [PoolBlock] of a chain. *)
Lemma last_block_chain fuel : ∀ b m l,
  user_space m = true → b ≠ 0 →
  region_chain fuel b m = Ok (l, m) →
  ∃ l0 g, l = l0 ++ [g] ∧ last_block fuel b m = Ok (g.1.1.1, m) ∧
          load_le 8 (contents m) (g.1.1.1 + 24) = 0.
Proof.
  induction fuel as [|fuel IH]; intros b m l Hu Hbnz H; [discriminate H |].
  destruct (region_chain_head _ _ _ _ Hu H Hbnz) as (Hb & Hw & rest & -> & Htail).
  assert (Hv24 : valid m (b + 24) 8 = true).
  { cbn [region_chain] in H. destruct (Z.eqb_spec b 0) as [? | _]; [contradiction |].
    unfold blk_base, blk_size, blk_offset, blk_next in H. rewrite !wadd_small in H by lia.
    apply bind_Ok in H as (? & ? & H1 & H). apply load64_inv in H1 as [-> _].
    apply bind_Ok in H as (? & ? & H1 & H). apply load64_inv in H1 as [-> _].
    apply bind_Ok in H as (? & ? & H1 & H). apply load64_inv in H1 as [-> _].
    apply bind_Ok in H as (? & ? & H1 & _). exact (load64_valid _ _ _ _ H1). }
  cbn [last_block]. unfold blk_next. rewrite wadd_small by lia.
  rewrite (bind_step _ _ _ _ _ (load64_Ok _ _ Hv24)).
  destruct (Z.eqb_spec (load_le 8 (contents m) (b + 24)) 0) as [Hz | Hnz].
  - rewrite Hz in Htail. destruct fuel as [|fuel]; [discriminate Htail |].
    cbn [region_chain Z.eqb] in Htail. apply ret_Ok in Htail as [<- _].
    eexists [], _. split; [reflexivity |]. split; [reflexivity | exact Hz].
  - destruct (IH _ m rest Hu Hnz Htail) as (l0 & g & -> & Hlast & Hnext).
    eexists (_ :: l0), g. split; [reflexivity |]. split; [exact Hlast | exact Hnext].
Qed.

(** A chain whose last link is redirected to one more region. *)
Lemma region_chain_snoc fuel : ∀ b m l g m' fresh,
  user_space m = true → chain_ok m (l ++ [g]) → chain_ok m' (l ++ [g]) →
  region_chain fuel b m = Ok (l ++ [g], m) →
  (∀ x, (∃ r, In r (l ++ [g]) ∧ r.1.1.1 ≤ x < r.1.1.1 + 32) →
        ¬ (g.1.1.1 + 24 ≤ x < g.1.1.1 + 32) →
        byte_at (contents m') x = byte_at (contents m) x) →
  (∀ f, (2 ≤ f)%nat →
        region_chain f (load_le 8 (contents m') (g.1.1.1 + 24)) m' = Ok ([fresh], m')) →
  region_chain (S fuel) b m' = Ok (l ++ [g; fresh], m').
Proof.
  induction fuel as [|fuel IH]; intros b m l g m' fresh Hu Hok Hok' H Hagree Hfresh;
    [discriminate H |].
  destruct (Z.eq_dec b 0) as [-> | Hbnz].
  { cbn [region_chain Z.eqb] in H. apply ret_Ok in H as [H _]. now destruct l. }
  destruct (region_chain_head _ _ _ _ Hu H Hbnz) as (Hb & Hw & rest & Heq & Htail).
  destruct l as [|r l]; cbn [app] in *.
  - (* the last region *)
    assert (g = (b, load_le 8 (contents m) b, load_le 8 (contents m) (b + 8),
                 load_le 8 (contents m) (b + 16))) as -> by congruence.
    cbn [fst snd] in *.
    destruct Hok' as ((_ & Hbase & Hsize & Hin) & _ & _).
    assert (Hvalid : valid m' b 32 = true)
      by (apply (valid_of_region m' b (load_le 8 (contents m) (b + 8) + 32));
          [assumption | lia..]).
    assert (Hsame : ∀ d, 0 ≤ d ≤ 16 →
              load_le 8 (contents m') (b + d) = load_le 8 (contents m) (b + d)).
    { intros d Hd. apply load_le_ext. intros x Hx. change (Z.of_nat 8) with 8 in Hx.
      apply Hagree; [| lia]. eexists. split; [now left |]. cbn. lia. }
    pose proof (Hsame 0 ltac:(lia)) as H0. rewrite Z.add_0_r in H0.
    apply region_chain_cons with (load_le 8 (contents m') (b + 24));
      [exact Hb | exact Hw | exact Hvalid | exact H0 | apply Hsame; lia | apply Hsame; lia
      | reflexivity |].
    apply Hfresh. destruct fuel as [|fuel]; [discriminate Htail | lia].
  - assert (r = (b, load_le 8 (contents m) b, load_le 8 (contents m) (b + 8),
                 load_le 8 (contents m) (b + 16))) as -> by congruence.
    assert (rest = l ++ [g]) as -> by congruence. clear Heq.
    destruct Hok as ((_ & Hbase & Hsize & Hin) & Hap & Hrest).
    destruct Hok' as ((_ & _ & _ & Hin') & _ & Hrest').
    assert (Hvalid : valid m' b 32 = true)
      by (apply (valid_of_region m' b (load_le 8 (contents m) (b + 8) + 32));
          [assumption | lia..]).
    assert (Hg : In g (l ++ [g])) by (apply in_or_app; right; now left).
    assert (Hfar : ∀ x, b ≤ x < b + 32 → ¬ (g.1.1.1 + 24 ≤ x < g.1.1.1 + 32)).
    { intros x Hx. rewrite Forall_forall in Hap.
      specialize (Hap _ (proj2 (list_elem_of_In _ _) Hg)).
      pose proof (chain_ok_size _ _ _ Hrest Hg) as [Hs _].
      destruct g as [[[b' base'] size'] off']. unfold apart in Hap. cbn [fst snd] in *. lia. }
    assert (Hsame : ∀ d, 0 ≤ d ≤ 24 →
              load_le 8 (contents m') (b + d) = load_le 8 (contents m) (b + d)).
    { intros d Hd. apply load_le_ext. intros x Hx. change (Z.of_nat 8) with 8 in Hx.
      apply Hagree; [| apply Hfar; lia]. eexists. split; [now left |]. cbn. lia. }
    pose proof (Hsame 0 ltac:(lia)) as H0. rewrite Z.add_0_r in H0.
    apply region_chain_cons with (load_le 8 (contents m) (b + 24));
      [exact Hb | exact Hw | exact Hvalid | exact H0 | apply Hsame; lia | apply Hsame; lia
      | apply Hsame; lia |].
    apply (IH _ m l g m' fresh Hu Hrest Hrest' Htail); [| exact Hfresh].
    intros x (r & Hr & Hx) Hn. apply Hagree; [| exact Hn]. exists r. split; [now right | exact Hx].
Qed.
Lemma os_grants_disjoint m os bytes rb rlen :
  os_grants m os bytes = true → In (rb, rlen) (mapped m) →
  os + page_round bytes ≤ rb ∨ rb + page_round rlen ≤ os.
Proof.
  unfold os_grants, region_free. intros Hg Hin.
  apply andb_true_iff in Hg as [_ Hfree]. rewrite forallb_forall in Hfree.
  specialize (Hfree _ Hin). cbn [fst snd] in Hfree.
  apply orb_true_iff in Hfree as [H | H]; apply Z.leb_le in H; auto.
Qed.

(** The four stores that fill in a new [PoolBlock]. *)
Lemma store_block m os base rsize :
  0 < os → os + 32 < WORD → valid m os 32 = true →
  0 ≤ base < WORD → 0 ≤ rsize < WORD →
  ∃ m4,
    (∀ B (K : M B),
       (run store64 (blk_base os) base;
        run store64 (blk_size os) rsize;
        run store64 (blk_offset os) 0;
        run store64 (blk_next os) 0;
        K) m = K m4) ∧
    mapped m4 = mapped m ∧
    load_le 8 (contents m4) os = base ∧
    load_le 8 (contents m4) (os + 8) = rsize ∧
    load_le 8 (contents m4) (os + 16) = 0 ∧
    load_le 8 (contents m4) (os + 24) = 0 ∧
    (∀ x, ¬ (os ≤ x < os + 32) → byte_at (contents m4) x = byte_at (contents m) x).
Proof.
  intros Hos Hw Hvalid Hbase Hrsize.
  unfold blk_base, blk_size, blk_offset, blk_next. rewrite !wadd_small by lia.
  assert (Hv : ∀ d mm, mapped mm = mapped m → 0 ≤ d ≤ 24 → valid mm (os + d) 8 = true).
  { intros d mm Hmm Hd. rewrite (valid_mapped m mm) by exact Hmm.
    apply (valid_sub m os 32); [exact Hvalid | lia | lia]. }
  pose proof (Hv 0) as Hv0. rewrite Z.add_0_r in Hv0.
  set (m1 := mkMemory (store_le 8 os base (contents m)) (mapped m)).
  set (m2 := mkMemory (store_le 8 (os + 8) rsize (contents m1)) (mapped m1)).
  set (m3 := mkMemory (store_le 8 (os + 16) 0 (contents m2)) (mapped m2)).
  set (m4 := mkMemory (store_le 8 (os + 24) 0 (contents m3)) (mapped m3)).
  exists m4. split; [| split; [reflexivity |]].
  { intros B K.
    rewrite (bind_step _ _ _ _ _ (store64_Ok _ _ _ (Hv0 m eq_refl ltac:(lia)))). fold m1.
    rewrite (bind_step _ _ _ _ _ (store64_Ok _ _ _ (Hv 8 m1 eq_refl ltac:(lia)))). fold m2.
    rewrite (bind_step _ _ _ _ _ (store64_Ok _ _ _ (Hv 16 m2 eq_refl ltac:(lia)))). fold m3.
    rewrite (bind_step _ _ _ _ _ (store64_Ok _ _ _ (Hv 24 m3 eq_refl ltac:(lia)))).
    reflexivity. }
  subst m4 m3 m2 m1. cbn [contents].
  split; [| split; [| split; [| split]]].
  - rewrite !load_store_other by lia. apply load_store_same. lia.
  - rewrite !load_store_other by lia. apply load_store_same. lia.
  - rewrite !load_store_other by lia. apply load_store_same. word_lia.
  - apply load_store_same. word_lia.
  - intros x Hx. rewrite !byte_at_store_le. change (Z.of_nat 8) with 8.
    rewrite !decide_False by lia. reflexivity.
Qed.
(** [pool_alloc] when the free list is empty and no region has room: the
    dynamic expansion. *)
Lemma pool_alloc_grow fuel p m l size alignment os :
  free_list p = 0 → user_space m = true → chain_ok m l → offsets_ok l →
  region_chain fuel (block_head p) m = Ok (l, m) →
  power_of_two alignment → 0 < size → alignment + size < 2 ^ 62 →
  0 ≤ initial_block_size p < 2 ^ 62 →
  Forall (λ g, ¬ has_room size alignment g) l →
  let nbs := Z.max (initial_block_size p) (size + 32) in
  let fresh : region := (os, os + 32, nbs, 0) in
  let head := if block_head p =? 0 then os else block_head p in
  (os_grants m os (nbs + 32) = false ∧
   pool_alloc fuel (Some p) size alignment os m = Ok ((0, Some p), m)) ∨
  (os_grants m os (nbs + 32) = true ∧
   ∃ r m' fresh',
     pool_alloc fuel (Some p) size alignment os m
       = Ok ((r, Some (mkPool head 0 (initial_block_size p))), m') ∧
     mapped m' = (os, nbs + 32) :: mapped m ∧
     region_chain (S fuel) head m' = Ok (l ++ [fresh'], m') ∧
     (∀ g x, In g l → in_usable x g → byte_at (contents m') x = byte_at (contents m) x) ∧
     ((has_room size alignment fresh ∧ r = bump_pointer alignment fresh ∧ r ≠ 0 ∧
       fresh' = bumped size alignment fresh) ∨
      (¬ has_room size alignment fresh ∧ r = 0 ∧ fresh' = fresh))).
Proof.
  intros Hfl Hu Hok Hoffs Hchain Hpow Hsize Hbig Hibs Hnoroom nbs fresh head.
  pose proof (power_of_two_word alignment Hpow) as (k & Hk & Hak & Ha).
  destruct p as [bh fl ibs]. cbn [free_list block_head initial_block_size] in *. subst fl.
  destruct fuel as [|fuel]; [discriminate Hchain |].
  assert (H62 : 2 ^ 63 * 2 = WORD) by (unfold WORD; reflexivity).
  assert (Hnbs : 0 ≤ nbs < 2 ^ 63 ∧ size + 32 ≤ nbs) by (subst nbs; lia).
  (* the walk over the regions finds no room *)
  assert (Hbump : bump_loop (S fuel) bh size alignment m = Ok (0, m)).
  { destruct (bump_loop_chain (S fuel) bh m l size alignment Hu Hok Hoffs Hchain Hpow
                ltac:(lia) ltac:(lia))
      as (r & m' & Hrun & [(-> & -> & _) | (l1 & g & l2 & -> & _ & Hroom & _)]);
      [exact Hrun | exfalso].
    apply Forall_app in Hnoroom as [_ Hg]. apply Forall_cons in Hg as [Hg _]. contradiction. }
  assert (Hstart :
    ∀ K, pool_alloc (S fuel) (Some (mkPool bh 0 ibs)) size alignment os m
         = (do new_block <- VirtualAlloc os (nbs + 32); K new_block) m →
         True) by auto.
  clear Hstart.
  assert (Hprefix :
    pool_alloc (S fuel) (Some (mkPool bh 0 ibs)) size alignment os m
    = (do new_block <- VirtualAlloc os (nbs + 32);
       if new_block =? 0 then ret (0, Some (mkPool bh 0 ibs))
       else
         run store64 (blk_base new_block) (wand (wadd (wadd new_block 32) 15) (wnot 15));
         run store64 (blk_size new_block) nbs;
         run store64 (blk_offset new_block) 0;
         run store64 (blk_next new_block) 0;
         do p <-
           (if bh =? 0 then ret (mkPool new_block 0 ibs)
            else
              do last <- last_block (S fuel) bh;
              run store64 (blk_next last) new_block;
              ret (mkPool bh 0 ibs));
         do result <- alloc_from_block new_block size alignment;
         ret (result, Some p)) m).
  { unfold pool_alloc.
    destruct (Z.eqb_spec size 0) as [? | _]; [lia |].
    rewrite (proj2 (bit_test_power_of_two alignment ltac:(lia)) Hpow).
    cbn [Z.eqb negb orb].
    assert (Hmiss : remove_free_block (S fuel) (mkPool bh 0 ibs) size alignment m
                    = Ok ((0, mkPool bh 0 ibs), m)) by reflexivity.
    rewrite (bind_step _ _ _ _ _ Hmiss). cbn [Z.eqb negb block_head].
    rewrite (bind_step _ _ _ _ _ Hbump). cbn [Z.eqb negb].
    cbn [initial_block_size free_list block_head]. unfold HEADER_SIZE, SIZEOF_POOLBLOCK.
    rewrite (wadd_small size 32) by lia.
    replace (if ibs <? size + 32 then size + 32 else ibs) with nbs
      by (subst nbs; destruct (Z.ltb_spec ibs (size + 32)); lia).
    rewrite (wadd_small nbs 32) by lia. reflexivity. }
  rewrite Hprefix. clear Hprefix.
  destruct (os_grants m os (nbs + 32)) eqn:Hg.
  2: { left. split; [reflexivity |].
       assert (Hva : VirtualAlloc os (nbs + 32) m = Ok (0, m))
         by (unfold VirtualAlloc; now rewrite Hg).
       rewrite (bind_step _ _ _ _ _ Hva). reflexivity. }
  right. split; [reflexivity |].
  pose proof (os_grants_facts _ _ _ Hg) as (Hbytes & Hos & Hgran & Hend).
  pose proof (page_round_ge (nbs + 32)) as Hpage.
  unfold USER_SPACE_END in Hend.
  destruct (granularity_divides os Hgran) as (q & Hq).
  set (plen := page_round (nbs + 32)) in *.
  set (m0 := mkMemory (fresh_pages os plen (contents m)) ((os, nbs + 32) :: mapped m)).
  assert (Hva : VirtualAlloc os (nbs + 32) m = Ok (os, m0))
    by (unfold VirtualAlloc; now rewrite Hg).
  rewrite (bind_step _ _ _ _ _ Hva).
  destruct (Z.eqb_spec os 0) as [? | _]; [lia |].
  assert (Hbase : wand (wadd (wadd os 32) 15) (wnot 15) = os + 32).
  { rewrite (wadd_small os 32), (wadd_small (os + 32) 15) by word_lia.
    rewrite wand_wnot_15 by word_lia.
    replace (os + 32 + 15) with (4096 * q * 16 + 47) by lia.
    rewrite Z.div_add_l by lia. change (47 / 16) with 2. lia. }
  rewrite Hbase.
  assert (Hin0 : In (os, nbs + 32) (mapped m0)) by now left.
  assert (Hv0 : valid m0 os 32 = true)
    by (apply (valid_of_region m0 os (nbs + 32)); [exact Hin0 | lia | lia]).
  destruct (store_block m0 os (os + 32) nbs Hos ltac:(word_lia) Hv0 ltac:(word_lia)
              ltac:(word_lia))
    as (m4 & Hstores & Hmap4 & Hb4 & Hs4 & Ho4 & Hn4 & Hframe4).
  rewrite Hstores. clear Hstores.
  (* old regions lie outside the new pages *)
  assert (Hold : ∀ g, In g l → ∀ x, inside_region x g → ¬ (os ≤ x < os + plen)).
  { intros [[[b base] rsize] off] Hgl x Hx.
    destruct (chain_ok_In _ _ _ _ _ _ Hok Hgl) as (Hb & _ & Hrs & Hin).
    pose proof (os_grants_disjoint _ _ _ _ _ Hg Hin) as Hd.
    pose proof (page_round_ge (rsize + 32)). unfold inside_region in Hx.
    fold plen in Hd. lia. }
  assert (Hkeep4 : ∀ g, In g l → ∀ x, inside_region x g →
                     byte_at (contents m4) x = byte_at (contents m) x).
  { intros g Hgl x Hx. pose proof (Hold g Hgl x Hx) as Hout.
    rewrite Hframe4 by lia. subst m0. cbn [contents].
    rewrite byte_at_fresh_pages. now rewrite decide_False. }
  assert (Hok4 : ∀ mm, mapped mm = mapped m0 → chain_ok mm l).
  { intros mm Hmm. clear -Hok Hmm. induction l as [|[[[b base] rsize] off] l IH]; [exact I |].
    destruct Hok as ((Hb & Hbase & Hrs & Hin) & Hap & Hrest).
    cbn [chain_ok]. rewrite Hmm. cbn [mapped].
    split; [| split; [exact Hap | exact (IH Hrest)]]. repeat split; auto. now right. }
  assert (Hdesc : ∀ g x, In g l → g.1.1.1 ≤ x < g.1.1.1 + 32 → inside_region x g).
  { intros g x Hgl Hx. pose proof (chain_ok_size _ _ _ Hok Hgl) as [Hs _].
    destruct g as [[[b base] rsize] off]. unfold inside_region. cbn [fst snd] in *. lia. }
  (* the bump in the new region, in any memory that holds the new block *)
  assert (Hnew : ∀ m5, mapped m5 = mapped m0 →
            (∀ x, os ≤ x < os + 32 → byte_at (contents m5) x = byte_at (contents m4) x) →
            ∃ r m6 fresh',
              alloc_from_block os size alignment m5 = Ok (r, m6) ∧
              mapped m6 = mapped m0 ∧
              (∀ f, (2 ≤ f)%nat → region_chain f os m6 = Ok ([fresh'], m6)) ∧
              (∀ x, ¬ (os ≤ x < os + plen) → byte_at (contents m6) x = byte_at (contents m5) x) ∧
              ((has_room size alignment fresh ∧ r = bump_pointer alignment fresh ∧ r ≠ 0 ∧
                fresh' = bumped size alignment fresh) ∨
               (¬ has_room size alignment fresh ∧ r = 0 ∧ fresh' = fresh))).
  { intros m5 Hmap5 Hsame5.
    assert (Hl5 : ∀ d, 0 ≤ d ≤ 24 →
              load_le 8 (contents m5) (os + d) = load_le 8 (contents m4) (os + d)).
    { intros d Hd. apply load_le_ext. intros x Hx. change (Z.of_nat 8) with 8 in Hx.
      apply Hsame5. lia. }
    pose proof (Hl5 0 ltac:(lia)) as Hl0. rewrite Z.add_0_r in Hl0.
    pose proof (Hl5 8 ltac:(lia)) as Hl8. pose proof (Hl5 16 ltac:(lia)) as Hl16.
    pose proof (Hl5 24 ltac:(lia)) as Hl24.
    rewrite Hb4 in Hl0. rewrite Hs4 in Hl8. rewrite Ho4 in Hl16. rewrite Hn4 in Hl24.
    assert (Hv5 : valid m5 os 32 = true) by (rewrite (valid_mapped m0 m5) by exact Hmap5; exact Hv0).
    assert (Hin5 : In (os, nbs + 32) (mapped m5)) by (rewrite Hmap5; exact Hin0).
    destruct (alloc_from_block_returns os size alignment m5 os (nbs + 32) Hpow)
      as (r & m6 & Hrun);
      [lia | rewrite Hl0; lia | rewrite Hl16; lia | lia | rewrite Hl0, Hl16; word_lia
      | exact Hv5 | exact Hin5 | rewrite Hl0; lia | rewrite Hl0, Hl8; fold plen; lia |].
    pose proof (alloc_from_block_outcome os size alignment m5 r m6 Hpow) as Hout.
    cbv zeta in Hout. rewrite Hl0, Hl8, Hl16, Hl24 in Hout.
    specialize (Hout ltac:(lia) ltac:(lia) ltac:(lia) ltac:(lia) ltac:(word_lia) Hrun).
    assert (Hchain1 : ∀ mm off', mapped mm = mapped m0 →
              load_le 8 (contents mm) os = os + 32 → load_le 8 (contents mm) (os + 8) = nbs →
              load_le 8 (contents mm) (os + 16) = off' → load_le 8 (contents mm) (os + 24) = 0 →
              ∀ f, (2 ≤ f)%nat → region_chain f os mm = Ok ([(os, os + 32, nbs, off')], mm)).
    { intros mm off' Hmm E0 E8 E16 E24 f Hf.
      destruct f as [|[|f]]; [lia | lia |].
      apply region_chain_cons with 0;
        [exact Hos | word_lia | rewrite (valid_mapped m0 mm) by exact Hmm; exact Hv0
        | exact E0 | exact E8 | exact E16 | exact E24 | reflexivity]. }
    destruct Hout as [(-> & -> & pp & Hpp & Hppm & Hover)
                     | (Hr & Hrm & Hfit & Hmap6 & Hb6 & Hs6 & Ho6 & Hn6 & _ & _ & _ & Hframe6)].
    - exists 0, m5, fresh. split; [exact Hrun |]. split; [exact Hmap5 |].
      split; [now apply Hchain1 |]. split; [reflexivity |]. right.
      split; [| auto]. unfold has_room, fresh, bump_pointer.
      rewrite <- (bump_pointer_unique alignment (os + 32 + 0 + 32) pp) by (lia || assumption).
      lia.
    - assert (Hrp : r = bump_pointer alignment fresh).
      { unfold fresh, bump_pointer. apply bump_pointer_unique; [lia | lia | exact Hrm]. }
      exists r, m6, (bumped size alignment fresh).
      split; [exact Hrun |]. split; [congruence |].
      split; [| split].
      + change (bumped size alignment fresh)
          with (os, os + 32, nbs, bump_pointer alignment fresh + size - (os + 32)).
        rewrite <- Hrp.
        apply Hchain1; [congruence | exact Hb6 | exact Hs6 | exact Ho6 | exact Hn6].
      + intros x Hx. apply Hframe6; lia.
      + left. split; [change (bump_pointer alignment fresh + size ≤ os + 32 + nbs);
                      rewrite <- Hrp; lia |].
        split; [exact Hrp |]. split; [lia | reflexivity]. }
  subst head.
  destruct (Z.eqb_spec bh 0) as [-> | Hbh].
  - (* the pool had no region *)
    assert (l = []) as ->.
    { cbn [region_chain Z.eqb] in Hchain. now apply ret_Ok in Hchain as [<- _]. }
    rewrite bind_ret.
    destruct (Hnew m4 Hmap4 (λ _ _, eq_refl)) as (r & m6 & fresh' & Hrun & Hmap6 & Hc6 & _ & Hcase).
    exists r, m6, fresh'. rewrite (bind_step _ _ _ _ _ Hrun).
    split; [reflexivity |]. split; [exact Hmap6 |].
    split; [apply Hc6; lia |]. split; [intros g x [] | exact Hcase].
  - (* the new region is linked behind the last one *)
    assert (Hu4 : user_space m4 = true).
    { rewrite (user_space_mapped m0 m4 Hmap4). now apply user_space_VirtualAlloc. }
    assert (Hchain4 : region_chain (S fuel) bh m4 = Ok (l, m4)).
    { apply (region_chain_frame (S fuel) bh m); [exact Hu | exact Hok | exact Hchain
                                                | exact (Hok4 m4 Hmap4) |].
      intros x (g & Hgl & Hx). exact (Hkeep4 g Hgl x (Hdesc g x Hgl Hx)). }
    destruct (last_block_chain (S fuel) bh m4 l Hu4 Hbh Hchain4)
      as (l0 & g & -> & Hlast & Hnull).
    assert (Hgl : In g (l0 ++ [g])) by (apply in_or_app; right; now left).
    pose proof (chain_ok_size _ _ _ Hok Hgl) as [Hgs Hgb].
    set (last := g.1.1.1) in *.
    assert (Hvlast : valid m4 last 32 = true).
    { subst last. destruct g as [[[b base] rsize] off].
      destruct (chain_ok_In _ _ _ _ _ _ (Hok4 m4 Hmap4) Hgl) as (Hb & _ & Hrs & Hin).
      apply (valid_of_region m4 b (rsize + 32)); [exact Hin | cbn; lia | cbn; lia]. }
    pose proof (valid_user_space _ _ _ Hu4 Hvlast) as [_ Hlast_end].
    unfold USER_SPACE_END in Hlast_end.
    rewrite bind_assoc. rewrite (bind_step _ _ _ _ _ Hlast).
    unfold blk_next at 1. rewrite (wadd_small last 24) by word_lia.
    rewrite bind_assoc.
    rewrite (bind_step _ _ _ _ _
               (store64_Ok _ _ _ (valid_sub m4 last 32 (last + 24) 8 Hvlast ltac:(lia) ltac:(lia)))).
    set (m5 := mkMemory (store_le 8 (last + 24) os (contents m4)) (mapped m4)).
    rewrite bind_ret.
    assert (Hlast_out : ∀ x, last ≤ x < last + 32 → ¬ (os ≤ x < os + plen)).
    { intros x Hx. apply (Hold g Hgl). apply (Hdesc g x Hgl). exact Hx. }
    assert (Hsame5 : ∀ x, os ≤ x < os + 32 → byte_at (contents m5) x = byte_at (contents m4) x).
    { intros x Hx. subst m5. cbn [contents]. rewrite byte_at_store_le.
      rewrite decide_False; [reflexivity |]. change (Z.of_nat 8) with 8.
      intros Hc. apply (Hlast_out x); lia. }
    destruct (Hnew m5 Hmap4 Hsame5)
      as (r & m6 & fresh' & Hrun & Hmap6 & Hc6 & Hframe6 & Hcase).
    exists r, m6, fresh'. rewrite (bind_step _ _ _ _ _ Hrun).
    split; [reflexivity |]. split; [exact Hmap6 |].
    assert (Hkeep6 : ∀ x, ¬ (os ≤ x < os + plen) → ¬ (last + 24 ≤ x < last + 32) →
                       byte_at (contents m6) x = byte_at (contents m4) x).
    { intros x Hx1 Hx2. rewrite Hframe6 by exact Hx1. subst m5. cbn [contents].
      rewrite byte_at_store_le. rewrite decide_False; [reflexivity |].
      change (Z.of_nat 8) with 8. lia. }
    split; [| split; [| exact Hcase]].
    + replace (l0 ++ [g] ++ [fresh']) with (l0 ++ [g; fresh']) by reflexivity.
      rewrite <- app_assoc. cbn [app].
      apply (region_chain_snoc (S fuel) bh m l0 g m6 fresh' Hu Hok (Hok4 m6 Hmap6) Hchain).
      * intros x (g' & Hg' & Hx) Hn.
        rewrite Hkeep6; [| exact (Hold g' Hg' x (Hdesc g' x Hg' Hx)) | exact Hn].
        exact (Hkeep4 g' Hg' x (Hdesc g' x Hg' Hx)).
      * fold last. replace (load_le 8 (contents m6) (last + 24)) with os; [exact Hc6 |].
        symmetry. transitivity (load_le 8 (contents m5) (last + 24)).
        -- apply load_le_ext. intros x Hx. change (Z.of_nat 8) with 8 in Hx.
           apply Hframe6. apply Hlast_out. lia.
        -- subst m5. cbn [contents]. apply load_store_same. word_lia.
    + intros g' x Hg' Hx.
      assert (Hins : inside_region x g').
      { destruct g' as [[[b base] rsize] off].
        destruct (chain_ok_In _ _ _ _ _ _ Hok Hg') as (Hb & -> & Hrs & Hin).
        unfold in_usable in Hx. unfold inside_region. lia. }
      rewrite Hkeep6; [exact (Hkeep4 g' Hg' x Hins) | exact (Hold g' Hg' x Hins) |].
      (* a usable byte is no link field *)
      intros Hc. apply (chain_ok_usable m _ g g' x Hok Hgl Hg' Hx). fold last. lia.
Qed.
(** [pool_alloc] that finds room in an existing region. *)
Lemma pool_alloc_bump fuel p m l size alignment os :
  free_list p = 0 → user_space m = true → chain_ok m l → offsets_ok l →
  region_chain fuel (block_head p) m = Ok (l, m) →
  power_of_two alignment → 0 < size → alignment + size < 2 ^ 62 →
  Exists (has_room size alignment) l →
  ∃ l1 g l2 m',
    l = l1 ++ g :: l2 ∧
    Forall (λ g, ¬ has_room size alignment g) l1 ∧
    has_room size alignment g ∧
    pool_alloc fuel (Some p) size alignment os m
      = Ok ((bump_pointer alignment g, Some p), m') ∧
    mapped m' = mapped m ∧
    region_chain fuel (block_head p) m' = Ok (l1 ++ bumped size alignment g :: l2, m') ∧
    load_le 8 (contents m') (bump_pointer alignment g - 32) = size ∧
    load_le 8 (contents m') (bump_pointer alignment g - 16) = 0 ∧
    (∀ x, ¬ inside_region x g → byte_at (contents m') x = byte_at (contents m) x).
Proof.
  intros Hfl Hu Hok Hoffs Hchain Hpow Hsize Hbig Hex.
  pose proof (power_of_two_word alignment Hpow) as (k & Hk & Hak & Ha).
  destruct (bump_loop_chain fuel (block_head p) m l size alignment Hu Hok Hoffs Hchain Hpow
              ltac:(lia) ltac:(lia))
    as (r & m' & Hrun & [(_ & _ & Hall)
                        | (l1 & g & l2 & -> & Hl1 & Hroom & -> & Hrnz & Hmap & Hc & Hh & Hn & Hf)]).
  { exfalso. apply Forall_Exists_neg in Hall. contradiction. }
  exists l1, g, l2, m'. split; [reflexivity |]. split; [exact Hl1 |]. split; [exact Hroom |].
  split; [| auto 10].
  destruct fuel as [|fuel]; [discriminate Hchain |].
  destruct p as [bh fl ibs]. cbn [free_list block_head] in *. subst fl.
  unfold pool_alloc.
  destruct (Z.eqb_spec size 0) as [? | _]; [lia |].
  rewrite (proj2 (bit_test_power_of_two alignment ltac:(lia)) Hpow).
  cbn [Z.eqb negb orb].
  assert (Hmiss : remove_free_block (S fuel) (mkPool bh 0 ibs) size alignment m
                  = Ok ((0, mkPool bh 0 ibs), m)) by reflexivity.
  rewrite (bind_step _ _ _ _ _ Hmiss). cbn [Z.eqb negb block_head].
  rewrite (bind_step _ _ _ _ _ Hrun).
  destruct (Z.eqb_spec (bump_pointer alignment g) 0) as [? | _]; [contradiction |].
  reflexivity.
Qed.

(** [pool_alloc] on a pool whose free list is empty and of which some
    region has room for the request with its header and padding: the
    call returns the bump pointer of the first such region of the
    chain.  That region's offset moves to the end of the request, the
    header in front of the pointer records the size and a null link,
    and no byte outside that region changes. *)
Theorem pool_alloc_bumps_first_region fuel p m l size alignment os :
  free_list p = 0 → user_space m = true → chain_ok m l → offsets_ok l →
  region_chain fuel (block_head p) m = Ok (l, m) →
  power_of_two alignment → 0 < size → alignment + size < 2 ^ 62 →
  Exists (has_room size alignment) l →
  ∃ l1 g l2 m',
    l = l1 ++ g :: l2 ∧
    Forall (λ g, ¬ has_room size alignment g) l1 ∧
    has_room size alignment g ∧
    pool_alloc fuel (Some p) size alignment os m
      = Ok ((bump_pointer alignment g, Some p), m') ∧
    mapped m' = mapped m ∧
    region_chain fuel (block_head p) m' = Ok (l1 ++ bumped size alignment g :: l2, m') ∧
    load_le 8 (contents m') (bump_pointer alignment g - 32) = size ∧
    load_le 8 (contents m') (bump_pointer alignment g - 16) = 0 ∧
    (∀ x, ¬ inside_region x g → byte_at (contents m') x = byte_at (contents m) x).
Proof. exact (pool_alloc_bump fuel p m l size alignment os). Qed.

Lemma pool_alloc_bumps_first_region_witness :
  let m := memory_after (alloc_on_fresh_pool 5000 16 empty_memory) in
  let p := mkPool 65536 0 4096 in
  let l := [(65536, 65568, 4096, 0); (131072, 131104, 5032, 5032)] in
  (user_space m = true ∧ chain_ok m l ∧ offsets_ok l ∧
   region_chain 8 (block_head p) m = Ok (l, m) ∧ Exists (has_room 100 16) l) ∧
  ∃ l1 g l2 m',
    l = l1 ++ g :: l2 ∧
    Forall (λ g, ¬ has_room 100 16 g) l1 ∧
    has_room 100 16 g ∧
    pool_alloc 8 (Some p) 100 16 196608 m = Ok ((bump_pointer 16 g, Some p), m') ∧
    mapped m' = mapped m ∧
    region_chain 8 (block_head p) m' = Ok (l1 ++ bumped 100 16 g :: l2, m') ∧
    load_le 8 (contents m') (bump_pointer 16 g - 32) = 100 ∧
    load_le 8 (contents m') (bump_pointer 16 g - 16) = 0 ∧
    (∀ x, ¬ inside_region x g → byte_at (contents m') x = byte_at (contents m) x).
Proof.
  intros m p l.
  assert (Hu : user_space m = true) by (vm_compute; reflexivity).
  assert (Hok : chain_ok m l).
  { split; [| split].
    - split; [lia |]. split; [reflexivity |]. split; [lia |].
      vm_compute. right. left. reflexivity.
    - constructor; [unfold apart; lia | constructor].
    - split; [| split; [constructor | exact I]].
      split; [lia |]. split; [reflexivity |]. split; [lia |].
      vm_compute. left. reflexivity. }
  assert (Hoffs : offsets_ok l) by (repeat constructor; lia).
  assert (Hchain : region_chain 8 (block_head p) m = Ok (l, m)) by (vm_compute; reflexivity).
  assert (Hex : Exists (has_room 100 16) l) by (left; vm_compute; discriminate).
  split; [auto 10 |].
  apply (pool_alloc_bumps_first_region 8 p m l 100 16 196608); try assumption.
  - reflexivity.
  - exact sixteen_is_a_power_of_two.
  - lia.
  - lia.
Defined.

(** [pool_alloc] on a pool whose free list is empty and of which no
    region has room: the dynamic expansion, for a request with
    [alignment + size] below 2^62 on a pool whose initial block size is
    below 2^62 (so that no 64-bit sum wraps).  The call asks the system
    for one region of [max(initial_block_size, size + 32)] usable bytes.
    When the system refuses, the call returns 0 and nothing has changed.
    When it grants the region, the region is appended to the end of the
    chain, whatever the call returns, and the usable bytes of the older
    regions are untouched.  The call returns the bump pointer of the new
    region when the request with its padding fits there; otherwise it
    returns 0 and leaves the new region in the chain, unused. *)
Theorem pool_alloc_expands fuel p m l size alignment os :
  free_list p = 0 → user_space m = true → chain_ok m l → offsets_ok l →
  region_chain fuel (block_head p) m = Ok (l, m) →
  power_of_two alignment → 0 < size → alignment + size < 2 ^ 62 →
  0 ≤ initial_block_size p < 2 ^ 62 →
  Forall (λ g, ¬ has_room size alignment g) l →
  let nbs := Z.max (initial_block_size p) (size + 32) in
  let fresh : region := (os, os + 32, nbs, 0) in
  let head := if block_head p =? 0 then os else block_head p in
  (os_grants m os (nbs + 32) = false ∧
   pool_alloc fuel (Some p) size alignment os m = Ok ((0, Some p), m)) ∨
  (os_grants m os (nbs + 32) = true ∧
   ∃ r m' fresh',
     pool_alloc fuel (Some p) size alignment os m
       = Ok ((r, Some (mkPool head 0 (initial_block_size p))), m') ∧
     mapped m' = (os, nbs + 32) :: mapped m ∧
     region_chain (S fuel) head m' = Ok (l ++ [fresh'], m') ∧
     (∀ g x, In g l → in_usable x g → byte_at (contents m') x = byte_at (contents m) x) ∧
     ((has_room size alignment fresh ∧ r = bump_pointer alignment fresh ∧ r ≠ 0 ∧
       fresh' = bumped size alignment fresh) ∨
      (¬ has_room size alignment fresh ∧ r = 0 ∧ fresh' = fresh))).
Proof. exact (pool_alloc_grow fuel p m l size alignment os). Qed.

Lemma pool_alloc_expands_witness :
  let m := memory_after (fresh_pool empty_memory) in
  let p := mkPool 65536 0 4096 in
  let l := [(65536, 65568, 4096, 0)] in
  let nbs := Z.max (initial_block_size p) (5000 + 32) in
  let fresh : region := (131072, 131072 + 32, nbs, 0) in
  let head := if block_head p =? 0 then 131072 else block_head p in
  (user_space m = true ∧ chain_ok m l ∧ offsets_ok l ∧
   region_chain 8 (block_head p) m = Ok (l, m) ∧
   Forall (λ g, ¬ has_room 5000 128 g) l) ∧
  ((os_grants m 131072 (nbs + 32) = false ∧
    pool_alloc 8 (Some p) 5000 128 131072 m = Ok ((0, Some p), m)) ∨
   (os_grants m 131072 (nbs + 32) = true ∧
    ∃ r m' fresh',
      pool_alloc 8 (Some p) 5000 128 131072 m
        = Ok ((r, Some (mkPool head 0 (initial_block_size p))), m') ∧
      mapped m' = (131072, nbs + 32) :: mapped m ∧
      region_chain 9 head m' = Ok (l ++ [fresh'], m') ∧
      (∀ g x, In g l → in_usable x g → byte_at (contents m') x = byte_at (contents m) x) ∧
      ((has_room 5000 128 fresh ∧ r = bump_pointer 128 fresh ∧ r ≠ 0 ∧
        fresh' = bumped 5000 128 fresh) ∨
       (¬ has_room 5000 128 fresh ∧ r = 0 ∧ fresh' = fresh)))).
Proof.
  intros m p l nbs fresh head.
  assert (Hu : user_space m = true) by (vm_compute; reflexivity).
  assert (Hok : chain_ok m l).
  { split; [| split; [constructor | exact I]].
    split; [lia |]. split; [reflexivity |]. split; [lia |].
    vm_compute. left. reflexivity. }
  assert (Hoffs : offsets_ok l) by (repeat constructor; lia).
  assert (Hchain : region_chain 8 (block_head p) m = Ok (l, m)) by (vm_compute; reflexivity).
  assert (Hno : Forall (λ g, ¬ has_room 5000 128 g) l).
  { constructor; [| constructor]. vm_compute. intros H. apply H. reflexivity. }
  split; [auto 10 |].
  apply (pool_alloc_expands 8 p m l 5000 128 131072); try assumption.
  - reflexivity.
  - exists 7. split; [lia | reflexivity].
  - lia.
  - lia.
  - cbn. lia.
Defined.
End PoolGrowth.

Section PoolClients.
Import Pool PoolRuns PoolClient.

(** Enough fuel is any fuel above the length of the chain. *)
Lemma region_chain_fuel fuel : ∀ b m l fuel',
  user_space m = true →
  region_chain fuel b m = Ok (l, m) → (length l < fuel')%nat →
  region_chain fuel' b m = Ok (l, m).
Proof.
  induction fuel as [|fuel IH]; intros b m l fuel' Hu H Hlen; [discriminate H |].
  destruct fuel' as [|fuel']; [lia |].
  destruct (Z.eq_dec b 0) as [-> | Hbnz].
  { cbn [region_chain Z.eqb] in *. exact H. }
  destruct (region_chain_head _ _ _ _ Hu H Hbnz) as (Hb & Hw & rest & -> & Htail).
  cbn [length] in Hlen.
  pose proof (IH _ m rest fuel' Hu Htail ltac:(lia)) as Htail'.
  cbn [region_chain] in H |- *.
  destruct (Z.eqb_spec b 0) as [? | _]; [contradiction |].
  apply bind_Ok in H as (? & ? & H1 & H). rewrite (bind_step _ _ _ _ _ H1).
  apply load64_inv in H1 as [-> ->].
  apply bind_Ok in H as (? & ? & H1 & H). rewrite (bind_step _ _ _ _ _ H1).
  apply load64_inv in H1 as [-> ->].
  apply bind_Ok in H as (? & ? & H1 & H). rewrite (bind_step _ _ _ _ _ H1).
  apply load64_inv in H1 as [-> ->].
  apply bind_Ok in H as (? & ? & H1 & H). rewrite (bind_step _ _ _ _ _ H1).
  apply load64_inv in H1 as [-> ->].
  unfold blk_next, blk_base, blk_size, blk_offset. rewrite !wadd_small by lia.
  rewrite (bind_step _ _ _ _ _ Htail'). reflexivity.
Qed.
Lemma round_up_bounds a x : 0 < a → x ≤ (x + a - 1) / a * a < x + a.
Proof.
  intros Ha. pose proof (Z.div_mod (x + a - 1) a ltac:(lia)).
  pose proof (Z.mod_pos_bound (x + a - 1) a ltac:(lia)). lia.
Qed.

Lemma round_up_multiple a x : 0 < a → ((x + a - 1) / a * a) mod a = 0.
Proof. intros Ha. apply Z.mod_mul. lia. Qed.

Lemma apart_bumped_l size alignment g g' : apart g g' → apart (bumped size alignment g) g'.
Proof. destruct g as [[[b base] rsize] off], g' as [[[b' base'] rsize'] off']. auto. Qed.

Lemma apart_bumped_r size alignment g g' : apart g' g → apart g' (bumped size alignment g).
Proof. destruct g as [[[b base] rsize] off], g' as [[[b' base'] rsize'] off']. auto. Qed.

Lemma chain_ok_bumped m size alignment l1 g l2 :
  chain_ok m (l1 ++ g :: l2) → chain_ok m (l1 ++ bumped size alignment g :: l2).
Proof.
  induction l1 as [|h l1 IH]; cbn [app chain_ok].
  - intros (Hg & Hap & Hrest). split; [| split; [| exact Hrest]].
    + destruct g as [[[b base] rsize] off]. exact Hg.
    + eapply Forall_impl; [exact Hap |]. intros g'. apply apart_bumped_l.
  - intros (Hh & Hap & Hrest). split; [exact Hh |]. split; [| exact (IH Hrest)].
    apply Forall_app in Hap as [H1 H2]. apply Forall_cons in H2 as [Hg H2].
    apply Forall_app. split; [exact H1 |]. constructor; [| exact H2].
    now apply apart_bumped_r.
Qed.

Lemma offsets_ok_bumped size alignment l1 g l2 :
  0 < alignment → 0 ≤ size → has_room size alignment g →
  offsets_ok (l1 ++ g :: l2) → offsets_ok (l1 ++ bumped size alignment g :: l2).
Proof.
  intros Ha Hsize Hroom Hoffs. unfold offsets_ok in *.
  apply Forall_app in Hoffs as [H1 H2]. apply Forall_cons in H2 as [Hg H2].
  apply Forall_app. split; [exact H1 |]. constructor; [| exact H2].
  destruct g as [[[b base] rsize] off]. unfold bumped, has_room, bump_pointer in *.
  pose proof (round_up_bounds alignment (base + off + 32) Ha) as Hr.
  lia.
Qed.

(** A byte lies in one region of the chain at most. *)
Lemma chain_ok_disjoint m l g g' x :
  chain_ok m l → In g l → In g' l → inside_region x g → inside_region x g' → g = g'.
Proof.
  induction l as [|h l IH]; [intros _ [] |].
  intros (Hh & Hap & Hrest) Hg Hg' Hx Hx'.
  rewrite Forall_forall in Hap.
  destruct Hg as [Hg | Hg], Hg' as [Hg' | Hg'].
  - congruence.
  - subst h. specialize (Hap _ (proj2 (list_elem_of_In _ _) Hg')).
    destruct g as [[[b base] rsize] off], g' as [[[b' base'] rsize'] off'].
    unfold apart in Hap. unfold inside_region in *. lia.
  - subst h. specialize (Hap _ (proj2 (list_elem_of_In _ _) Hg)).
    destruct g as [[[b base] rsize] off], g' as [[[b' base'] rsize'] off'].
    unfold apart in Hap. unfold inside_region in *. lia.
  - exact (IH Hrest Hg Hg' Hx Hx').
Qed.

Lemma chain_ok_snoc m l g :
  chain_ok m l → Forall (λ h, apart h g) l → chain_ok m [g] → chain_ok m (l ++ [g]).
Proof.
  intros Hok Hap Hg. induction l as [|h l IH]; [exact Hg |].
  destruct Hok as (Hh & Hap' & Hrest). apply Forall_cons in Hap as [Hhg Hap].
  cbn [app chain_ok]. split; [exact Hh |]. split; [| exact (IH Hrest Hap)].
  apply Forall_app. split; [exact Hap' | now constructor].
Qed.

Lemma chain_ok_cons_mapped m m' r l :
  mapped m' = r :: mapped m → chain_ok m l → chain_ok m' l.
Proof.
  intros Hmap. induction l as [|[[[b base] rsize] off] l IH]; [auto |].
  cbn [chain_ok]. rewrite Hmap. intros ((Hb & Hbase & Hrs & Hin) & Hap & Hrest).
  split; [| split; [exact Hap | exact (IH Hrest)]]. repeat split; auto. now right.
Qed.

(** The chain with the region that the system has just granted. *)
Lemma chain_ok_grown m m' l os nbs off :
  chain_ok m l → os_grants m os (nbs + 32) = true → 0 ≤ nbs →
  mapped m' = (os, nbs + 32) :: mapped m →
  chain_ok m' (l ++ [(os, os + 32, nbs, off)]).
Proof.
  intros Hok Hg Hnbs Hmap.
  pose proof (os_grants_facts _ _ _ Hg) as (_ & Hos & _ & _).
  pose proof (page_round_ge (nbs + 32)) as Hpage.
  apply chain_ok_snoc.
  - exact (chain_ok_cons_mapped m m' _ l Hmap Hok).
  - apply Forall_forall. intros [[[b base] rsize] off'] Hin.
    apply list_elem_of_In in Hin.
    destruct (chain_ok_In _ _ _ _ _ _ Hok Hin) as (Hb & _ & Hrs & Hinm).
    pose proof (os_grants_disjoint _ _ _ _ _ Hg Hinm) as Hd.
    pose proof (page_round_ge (rsize + 32)). unfold apart. lia.
  - cbn [chain_ok]. split; [| split; [constructor | exact I]].
    rewrite Hmap. repeat split; auto. now left.
Qed.

Lemma has_room_dec size alignment (l : list region) :
  Exists (has_room size alignment) l ∨ Forall (λ g, ¬ has_room size alignment g) l.
Proof.
  induction l as [|g l [IH | IH]]; [right; constructor | left; now right |].
  destruct g as [[[b base] rsize] off].
  destruct (Z_le_gt_dec (bump_pointer alignment (b, base, rsize, off) + size) (base + rsize))
    as [Hle | Hgt].
  - left. left. exact Hle.
  - right. constructor; [| exact IH]. unfold has_room. lia.
Qed.
Lemma offsets_ok_In l b base rsize off :
  offsets_ok l → In (b, base, rsize, off) l → 0 ≤ off ≤ rsize.
Proof.
  unfold offsets_ok. rewrite Forall_forall. intros H Hin.
  exact (H _ (proj2 (list_elem_of_In _ _) Hin)).
Qed.

(** One [pool_alloc] on a pool that has served allocations only: the
    state stays of that kind, what was used stays used, and a block
    that is handed out is aligned and was unused. *)
Lemma pool_alloc_step fuel p m l size alignment os :
  pool_inv p m l → power_of_two alignment → 0 < size → alignment + size < 2 ^ 62 →
  (length l < fuel)%nat →
  ∃ r p' m' l',
    pool_alloc fuel (Some p) size alignment os m = Ok ((r, Some p'), m') ∧
    pool_inv p' m' l' ∧ (length l' ≤ S (length l))%nat ∧
    (∀ x, used l x → used l' x) ∧
    (r ≠ 0 → r mod alignment = 0 ∧ ∀ x, r ≤ x < r + size → used l' x ∧ ¬ used l x).
Proof.
  intros (Hfl & Hibs & Hu & Hok & Hoffs & Hchain) Hpow Hsize Hbig Hfuel.
  pose proof (power_of_two_word alignment Hpow) as (k & Hk & Hak & Ha).
  pose proof (region_chain_fuel _ _ _ _ fuel Hu Hchain Hfuel) as Hc.
  destruct (has_room_dec size alignment l) as [Hex | Hall].
  - (* room in a region of the chain *)
    destruct (pool_alloc_bump fuel p m l size alignment os Hfl Hu Hok Hoffs Hc Hpow Hsize Hbig Hex)
      as (l1 & g & l2 & m' & -> & Hl1 & Hroom & Hrun & Hmap & Hc' & _ & _ & _).
    exists (bump_pointer alignment g), p, m', (l1 ++ bumped size alignment g :: l2).
    assert (Hu' : user_space m' = true) by (rewrite (user_space_mapped m m' Hmap); exact Hu).
    assert (Hgin : In g (l1 ++ g :: l2)) by (apply in_or_app; right; now left).
    destruct g as [[[b base] rsize] off].
    destruct (chain_ok_In _ _ _ _ _ _ Hok Hgin) as (Hb & Hbase & Hrs & _).
    pose proof (offsets_ok_In _ _ _ _ _ Hoffs Hgin) as Hoff.
    pose proof (round_up_bounds alignment (base + off + 32) ltac:(lia)) as Hr.
    unfold has_room in Hroom.
    set (r := bump_pointer alignment (b, base, rsize, off)) in *.
    assert (Hrdef : r = (base + off + 32 + alignment - 1) / alignment * alignment) by reflexivity.
    split; [exact Hrun |]. split; [| split; [| split]].
    + split; [exact Hfl |]. split; [exact Hibs |]. split; [exact Hu' |].
      split; [apply (chain_ok_mapped m m' _ Hmap); now apply chain_ok_bumped |].
      split; [apply offsets_ok_bumped; [lia | lia | exact Hroom | exact Hoffs] |].
      apply (region_chain_fuel fuel); [exact Hu' | exact Hc' | apply Nat.lt_succ_diag_r].
    + rewrite !length_app. cbn [length]. lia.
    + intros x (b' & base' & rsize' & off' & Hin & Hx).
      apply in_app_or in Hin as [Hin | [Heq | Hin]].
      * exists b', base', rsize', off'. split; [apply in_or_app; now left | exact Hx].
      * injection Heq as <- <- <- <-.
        exists b, base, rsize, (r + size - base).
        split; [apply in_or_app; right; now left | lia].
      * exists b', base', rsize', off'. split; [apply in_or_app; right; now right | exact Hx].
    + intros _. split; [rewrite Hrdef; apply round_up_multiple; lia |].
      intros x Hx. split.
      * exists b, base, rsize, (r + size - base).
        split; [apply in_or_app; right; now left | lia].
      * intros (b' & base' & rsize' & off' & Hin & Hx').
        destruct (chain_ok_In _ _ _ _ _ _ Hok Hin) as (Hb' & Hbase' & Hrs' & _).
        pose proof (offsets_ok_In _ _ _ _ _ Hoffs Hin) as Hoff'.
        assert (Heq : (b', base', rsize', off') = (b, base, rsize, off)).
        { apply (chain_ok_disjoint m _ _ _ x Hok Hin Hgin); unfold inside_region; lia. }
        injection Heq as -> -> -> ->. lia.
  - (* the pool has to grow *)
    destruct (pool_alloc_grow fuel p m l size alignment os Hfl Hu Hok Hoffs Hc Hpow Hsize Hbig
                Hibs Hall)
      as [(Hg & Hrun) | (Hg & r & m' & fresh' & Hrun & Hmap & Hc' & _ & Hcase)].
    { exists 0, p, m, l. split; [exact Hrun |].
      split; [exact (conj Hfl (conj Hibs (conj Hu (conj Hok (conj Hoffs Hchain))))) |].
      split; [lia |]. split; [auto |]. intros []. reflexivity. }
    pose proof (os_grants_facts _ _ _ Hg) as (Hbytes & Hos & _ & Hend).
    pose proof (page_round_ge (Z.max (initial_block_size p) (size + 32) + 32)) as Hpage.
    set (nbs := Z.max (initial_block_size p) (size + 32)) in *.
    set (head := if block_head p =? 0 then os else block_head p) in *.
    pose proof (round_up_bounds alignment (os + 32 + 0 + 32) ltac:(lia)) as Hr.
    assert (Hfresh : ∃ off, fresh' = (os, os + 32, nbs, off) ∧ 0 ≤ off ≤ nbs ∧
                            (r ≠ 0 → r + size - (os + 32) = off ∧ os + 32 ≤ r)).
    { destruct Hcase as [(Hroom & -> & Hrnz & ->) | (_ & -> & ->)].
      - unfold has_room, bump_pointer in Hroom. unfold bumped, bump_pointer.
        eexists. split; [reflexivity |]. split; [lia |]. intros _. split; [reflexivity | lia].
      - exists 0. split; [reflexivity |]. split; [lia |]. intros []. reflexivity. }
    destruct Hfresh as (off & -> & Hoff & Hblock).
    exists r, (mkPool head 0 (initial_block_size p)), m', (l ++ [(os, os + 32, nbs, off)]).
    assert (Hu' : user_space m' = true).
    { unfold user_space. rewrite Hmap. cbn [forallb fst snd]. fold (user_space m).
      rewrite Hu, andb_true_r. apply andb_true_iff. split; apply Z.leb_le; lia. }
    split; [exact Hrun |]. split; [| split; [| split]].
    + split; [reflexivity |]. split; [exact Hibs |]. split; [exact Hu' |].
      split; [apply (chain_ok_grown m m' l os nbs off Hok Hg ltac:(lia) Hmap) |].
      split; [apply Forall_app; split; [exact Hoffs | constructor; [exact Hoff | constructor]] |].
      cbn [block_head]. apply (region_chain_fuel (S fuel));
        [exact Hu' | exact Hc' | apply Nat.lt_succ_diag_r].
    + rewrite length_app. cbn [length]. lia.
    + intros x (b' & base' & rsize' & off' & Hin & Hx).
      exists b', base', rsize', off'. split; [apply in_or_app; now left | exact Hx].
    + intros Hrnz. destruct (Hblock Hrnz) as (Hoffr & Hrlo).
      split.
      { destruct Hcase as [(_ & -> & _ & _) | (_ & -> & _)]; [| contradiction].
        unfold bump_pointer. apply round_up_multiple. lia. }
      intros x Hx. split.
      * exists os, (os + 32), nbs, off. split; [apply in_or_app; right; now left | lia].
      * intros (b' & base' & rsize' & off' & Hin & Hx').
        destruct (chain_ok_In _ _ _ _ _ _ Hok Hin) as (Hb' & Hbase' & Hrs' & Hinm).
        pose proof (offsets_ok_In _ _ _ _ _ Hoffs Hin) as Hoff'.
        pose proof (os_grants_disjoint _ _ _ _ _ Hg Hinm) as Hd.
        pose proof (page_round_ge (rsize' + 32)). lia.
Qed.
(** Blocks outside the used part are apart from a block inside it. *)
Lemma apart_from_used l r size : ∀ ptrs reqs,
  0 < size → (r ≠ 0 → ∀ x, r ≤ x < r + size → used l x) →
  Forall request_ok reqs →
  Forall2 (λ r' (q : request),
             r' ≠ 0 → r' mod q.1.2 = 0 ∧ ∀ x, r' ≤ x < r' + q.1.1 → ¬ used l x) ptrs reqs →
  Forall (λ b' : Z * Z, r ≠ 0 → b'.1 ≠ 0 → r + size ≤ b'.1 ∨ b'.1 + b'.2 ≤ r)
         (zip ptrs (map (λ q : request, q.1.1) reqs)).
Proof.
  intros ptrs reqs Hsize Hused Hreqs H2.
  induction H2 as [|r' [[size' alignment'] os'] ptrs reqs Hhead _ IH]; [constructor |].
  apply Forall_cons in Hreqs as [(_ & Hsize' & _) Hreqs].
  cbn [map zip zip_with fst snd]. constructor; [| exact (IH Hreqs)].
  cbn [fst snd] in *. intros Hr Hr'.
  destruct (Hhead Hr') as [_ Hfree]. specialize (Hused Hr).
  destruct (Z_le_gt_dec (r + size) r') as [? | Hgt]; [now left |].
  destruct (Z_le_gt_dec (r' + size') r) as [? | Hgt']; [now right |].
  exfalso. destruct (Z_le_gt_dec r r') as [Hle | Hlt].
  - apply (Hfree r'); [lia |]. apply Hused. lia.
  - apply (Hfree r); [lia |]. apply Hused. lia.
Qed.

(** Any run of requests on a pool that has served allocations only. *)
Lemma alloc_all_inv reqs : ∀ fuel p m l,
  pool_inv p m l → Forall request_ok reqs → (length l + length reqs < fuel)%nat →
  ∃ ptrs m',
    alloc_all fuel reqs (Some p) m = Ok (ptrs, m') ∧
    Forall2 (λ r (q : request),
               r ≠ 0 → r mod q.1.2 = 0 ∧ ∀ x, r ≤ x < r + q.1.1 → ¬ used l x) ptrs reqs ∧
    blocks_apart (zip ptrs (map (λ q : request, q.1.1) reqs)).
Proof.
  induction reqs as [|[[size alignment] os] reqs IH]; intros fuel p m l Hinv Hreqs Hfuel.
  { exists [], m. split; [reflexivity |]. split; [constructor | exact I]. }
  apply Forall_cons in Hreqs as [(Hpow & Hsize & Hbig) Hreqs]. cbn [length] in Hfuel.
  destruct (pool_alloc_step fuel p m l size alignment os Hinv Hpow Hsize Hbig ltac:(lia))
    as (r & p' & m' & l' & Hrun & Hinv' & Hlen & Hmono & Hblock).
  destruct (IH fuel p' m' l' Hinv' Hreqs ltac:(lia)) as (ptrs & m2 & Hrest & Hfree & Hapart).
  exists (r :: ptrs), m2. split; [| split].
  - cbn [alloc_all]. rewrite (bind_step _ _ _ _ _ Hrun).
    rewrite (bind_step _ _ _ _ _ Hrest). reflexivity.
  - constructor.
    + cbn [fst snd]. intros Hr. destruct (Hblock Hr) as [Hal Hb].
      split; [exact Hal |]. intros x Hx. exact (proj2 (Hb x Hx)).
    + eapply Forall2_impl; [exact Hfree |]. cbn beta.
      intros r' q Hq Hr'. destruct (Hq Hr') as [Hal Hb]. split; [exact Hal |].
      intros x Hx Hu. exact (Hb x Hx (Hmono x Hu)).
  - cbn [map zip zip_with fst snd blocks_apart]. split; [| exact Hapart].
    apply (apart_from_used l'); [exact Hsize | | exact Hreqs | exact Hfree].
    intros Hr x Hx. exact (proj1 (proj2 (Hblock Hr) x Hx)).
Qed.

(** A pool straight from [pool_init]. *)
Lemma pool_init_inv p0 pool_size os m pool m1 :
  user_space m = true → 0 < pool_size < 2 ^ 62 →
  pool_init (Some p0) pool_size os m = Ok ((1, pool), m1) →
  pool = Some (mkPool os 0 pool_size) ∧
  pool_inv (mkPool os 0 pool_size) m1 [(os, os + 32, pool_size, 0)].
Proof.
  intros Hu Hsize Hinit.
  destruct (pool_init_run p0 pool_size os m ltac:(word_lia))
    as [[Hrun _] | (Hnz & Hg & h & Hrun & Hb & Hs & Ho & Hn)].
  { rewrite Hrun in Hinit. discriminate. }
  rewrite Hrun in Hinit. injection Hinit as <- <-.
  pose proof (os_grants_facts _ _ _ Hg) as (Hbytes & Hos & Hgran & Hend).
  unfold USER_SPACE_END in Hend.
  rewrite (wadd_small pool_size 32) in * by word_lia.
  pose proof (page_round_ge (pool_size + 32)) as Hpage.
  split; [reflexivity |].
  split; [reflexivity |]. split; [cbn; lia |].
  split; [now apply user_space_VirtualAlloc |].
  split; [| split].
  - cbn [chain_ok mapped]. split; [| split; [constructor | exact I]].
    repeat split; auto; [lia | now left].
  - repeat constructor; lia.
  - cbn [length block_head]. apply region_chain_single; [lia | word_lia | | exact Hb | exact Hs | exact Ho | exact Hn].
    apply (valid_of_region _ os (pool_size + 32)); [now left | lia | lia].
Qed.

(** A client that only allocates, on a pool straight from [pool_init]
    of a size below 2^62: for requests with a size above zero, an
    alignment that is a power of two and [alignment + size] below 2^62,
    whatever the system answers when the pool wants to grow, every call
    returns, every block handed out starts at a multiple of its
    alignment, and no two blocks handed out overlap.  The bound keeps
    the 64-bit size test of the bump allocation from wrapping. *)
Theorem pool_blocks_never_overlap p0 pool_size os m pool m1 reqs fuel :
  user_space m = true → 0 < pool_size < 2 ^ 62 →
  pool_init (Some p0) pool_size os m = Ok ((1, pool), m1) →
  Forall request_ok reqs → (length reqs + 1 < fuel)%nat →
  ∃ ptrs m2,
    alloc_all fuel reqs pool m1 = Ok (ptrs, m2) ∧
    Forall2 (λ r (q : request), r ≠ 0 → r mod q.1.2 = 0) ptrs reqs ∧
    blocks_apart (zip ptrs (map (λ q : request, q.1.1) reqs)).
Proof.
  intros Hu Hsize Hinit Hreqs Hfuel.
  destruct (pool_init_inv p0 pool_size os m pool m1 Hu Hsize Hinit) as [-> Hinv].
  destruct (alloc_all_inv reqs fuel _ m1 _ Hinv Hreqs ltac:(cbn [length]; lia))
    as (ptrs & m2 & Hrun & Hfree & Hapart).
  exists ptrs, m2. split; [exact Hrun |]. split; [| exact Hapart].
  eapply Forall2_impl; [exact Hfree |]. cbn beta. intros r q Hq Hr. exact (proj1 (Hq Hr)).
Qed.

Lemma pool_blocks_never_overlap_witness :
  let reqs : list request := [(100, 16, 131072); (5000, 128, 131072); (64, 32, 196608)] in
  Forall request_ok reqs ∧
  ∃ pool m1,
    pool_init (Some unused_pool) 4096 65536 empty_memory = Ok ((1, pool), m1) ∧
    ∃ ptrs m2,
      alloc_all 8 reqs pool m1 = Ok (ptrs, m2) ∧
      Forall2 (λ r (q : request), r ≠ 0 → r mod q.1.2 = 0) ptrs reqs ∧
      blocks_apart (zip ptrs (map (λ q : request, q.1.1) reqs)).
Proof.
  intros reqs.
  assert (Hreqs : Forall request_ok reqs).
  { repeat constructor; try lia.
    - exists 4. split; [lia | reflexivity].
    - exists 7. split; [lia | reflexivity].
    - exists 5. split; [lia | reflexivity]. }
  split; [exact Hreqs |].
  eexists. eexists. split; [vm_compute; reflexivity |].
  apply (pool_blocks_never_overlap unused_pool 4096 65536 empty_memory).
  - reflexivity.
  - lia.
  - vm_compute. reflexivity.
  - exact Hreqs.
  - cbn. lia.
Defined.
End PoolClients.

Section PoolFreePush.
Import Pool PoolRuns.

Lemma free_blocks_head fuel a m fl :
  user_space m = true → free_blocks (S fuel) a m = Ok (fl, m) → a ≠ 0 →
  0 < a ∧ a + 24 < WORD ∧ valid m a 8 = true ∧ valid m (a + 16) 8 = true ∧
  ∃ rest,
    fl = (a, load_le 8 (contents m) a) :: rest ∧
    free_blocks fuel (load_le 8 (contents m) (a + 16)) m = Ok (rest, m).
Proof.
  intros Hu H Hanz. cbn [free_blocks] in H.
  destruct (Z.eqb_spec a 0) as [? | _]; [contradiction |].
  unfold hdr_size, hdr_next_free in H.
  apply bind_Ok in H as (sz & m1 & H1 & H).
  pose proof (load64_valid _ _ _ _ H1) as Hv. apply load64_inv in H1 as [-> ->].
  pose proof (valid_user_space _ _ _ Hu Hv) as [Ha0 Ha1]. unfold USER_SPACE_END in Ha1.
  rewrite (wadd_small a 16) in H by word_lia.
  apply bind_Ok in H as (nx & m1 & H1 & H).
  pose proof (load64_valid _ _ _ _ H1) as Hvn. apply load64_inv in H1 as [-> ->].
  apply bind_Ok in H as (rest & m1 & H1 & H). apply ret_Ok in H as [<- ->].
  split; [lia |]. split; [word_lia |]. split; [exact Hv |]. split; [exact Hvn |].
  exists rest. split; [reflexivity | exact H1].
Qed.

(** The counting pass of [coalesce_free_list] counts the blocks of the list. *)
Lemma count_free_blocks fuel : ∀ a m fl c,
  user_space m = true → free_blocks fuel a m = Ok (fl, m) →
  count_free fuel a c m = Ok (c + Z.of_nat (length fl), m).
Proof.
  induction fuel as [|fuel IH]; intros a m fl c Hu H; [discriminate H |].
  destruct (Z.eq_dec a 0) as [-> | Hanz].
  { cbn [free_blocks count_free Z.eqb] in *. apply ret_Ok in H as [<- _].
    cbn [length]. rewrite Z.add_0_r. reflexivity. }
  destruct (free_blocks_head _ _ _ _ Hu H Hanz) as (Ha & Hw & Hv & Hvn & rest & -> & Htail).
  cbn [count_free]. destruct (Z.eqb_spec a 0) as [? | _]; [contradiction |].
  unfold hdr_next_free. rewrite wadd_small by lia.
  rewrite (bind_step _ _ _ _ _ (load64_Ok _ _ Hvn)).
  rewrite (IH _ _ _ (c + 1) Hu Htail). cbn [length]. do 2 f_equal. lia.
Qed.

(** The free list reads the same in a memory that agrees on its headers. *)
Lemma free_blocks_frame fuel : ∀ a m fl m',
  user_space m = true → free_blocks fuel a m = Ok (fl, m) → mapped m' = mapped m →
  (∀ blk x, In blk fl → blk.1 ≤ x < blk.1 + 8 ∨ blk.1 + 16 ≤ x < blk.1 + 24 →
            byte_at (contents m') x = byte_at (contents m) x) →
  free_blocks fuel a m' = Ok (fl, m').
Proof.
  induction fuel as [|fuel IH]; intros a m fl m' Hu H Hmap Hagree; [discriminate H |].
  destruct (Z.eq_dec a 0) as [-> | Hanz].
  { cbn [free_blocks Z.eqb] in *. apply ret_Ok in H as [<- _]. reflexivity. }
  destruct (free_blocks_head _ _ _ _ Hu H Hanz) as (Ha & Hw & Hv & Hvn & rest & -> & Htail).
  assert (E0 : load_le 8 (contents m') a = load_le 8 (contents m) a).
  { apply load_le_ext. intros x Hx. change (Z.of_nat 8) with 8 in Hx.
    apply (Hagree (a, load_le 8 (contents m) a)); [now left | cbn; lia]. }
  assert (E16 : load_le 8 (contents m') (a + 16) = load_le 8 (contents m) (a + 16)).
  { apply load_le_ext. intros x Hx. change (Z.of_nat 8) with 8 in Hx.
    apply (Hagree (a, load_le 8 (contents m) a)); [now left | cbn; lia]. }
  rewrite <- E0. apply free_blocks_cons with (load_le 8 (contents m') (a + 16));
    [exact Hanz | lia | lia | rewrite (valid_mapped m m') by exact Hmap; exact Hv
    | rewrite (valid_mapped m m') by exact Hmap; exact Hvn | reflexivity | reflexivity |].
  rewrite E16. apply (IH _ m); [exact Hu | exact Htail | exact Hmap |].
  intros blk x Hin Hx. apply (Hagree blk x); [now right | exact Hx].
Qed.

(** [pool_free] when [malloc] gives no array to sort the free list in:
    the call only pushes the block.  [fl] is the free list before the
    call; the header of the freed block overlaps no header on it.
    Afterwards the free list is the freed block, with the size its
    header holds, followed by [fl]. *)
Theorem pool_free_pushes_without_malloc fuel bh ibs a ptr m fl :
  user_space m = true → 32 < ptr → valid m (ptr - 32) 32 = true →
  0 ≤ a < WORD → free_blocks fuel a m = Ok (fl, m) →
  Forall (λ blk : Z * Z, ptr ≤ blk.1 ∨ blk.1 + 32 ≤ ptr - 32) fl →
  ∃ m',
    pool_free (S fuel) false (Some (mkPool bh a ibs)) ptr m
      = Ok (Some (mkPool bh (ptr - 32) ibs), m') ∧
    mapped m' = mapped m ∧
    free_blocks (S fuel) (ptr - 32) m'
      = Ok ((ptr - 32, load_le 8 (contents m) (ptr - 32)) :: fl, m').
Proof.
  intros Hu Hptr Hvh Ha Hfl Hapart.
  pose proof (valid_user_space _ _ _ Hu Hvh) as [_ Hend]. unfold USER_SPACE_END in Hend.
  set (h := ptr - 32) in *.
  assert (Hv0 : valid m h 8 = true) by (apply (valid_sub m h 32); [assumption | lia..]).
  assert (Hv16 : valid m (h + 16) 8 = true) by (apply (valid_sub m h 32); [assumption | lia..]).
  set (m' := mkMemory (store_le 8 (h + 16) a (contents m)) (mapped m)).
  assert (Hfl' : free_blocks fuel a m' = Ok (fl, m')).
  { apply (free_blocks_frame fuel a m); [exact Hu | exact Hfl | reflexivity |].
    intros blk x Hin Hx. rewrite Forall_forall in Hapart.
    specialize (Hapart _ (proj2 (list_elem_of_In _ _) Hin)).
    subst m'. cbn [contents]. rewrite byte_at_store_le.
    rewrite decide_False; [reflexivity |]. change (Z.of_nat 8) with 8. lia. }
  assert (Hu' : user_space m' = true) by exact Hu.
  assert (Hnext : load_le 8 (contents m') (h + 16) = a)
    by (subst m'; cbn [contents]; apply load_store_same; exact Ha).
  assert (Hsz : load_le 8 (contents m') h = load_le 8 (contents m) h)
    by (subst m'; cbn [contents]; apply load_store_other; lia).
  exists m'. split; [| split; [reflexivity |]].
  - unfold pool_free, HEADER_SIZE.
    destruct (Z.eqb_spec ptr 0) as [? | _]; [lia |].
    rewrite wsub_small by word_lia. fold h. unfold hdr_next_free.
    rewrite wadd_small by word_lia. cbn [free_list block_head initial_block_size].
    rewrite (bind_step _ _ _ _ _ (store64_Ok _ _ _ Hv16)). fold m'.
    unfold coalesce_free_list. cbn [free_list count_free].
    destruct (Z.eqb_spec h 0) as [? | _]; [lia |].
    unfold hdr_next_free. rewrite wadd_small by word_lia.
    rewrite !bind_assoc.
    rewrite (bind_step _ _ _ _ _ (load64_Ok _ _ (Hv16 : valid m' (h + 16) 8 = true))), Hnext.
    rewrite ?bind_assoc.
    rewrite (bind_step _ _ _ _ _ (count_free_blocks fuel a m' fl (0 + 1) Hu' Hfl')).
    destruct (Z.eqb_spec (0 + 1 + Z.of_nat (length fl)) 0) as [? | _]; [lia |].
    cbn [negb]. rewrite bind_ret. reflexivity.
  - rewrite <- Hsz.
    apply free_blocks_cons with a; [lia | lia | word_lia | exact Hv0 | exact Hv16
                                   | reflexivity | exact Hnext | exact Hfl'].
Qed.

Lemma pool_free_pushes_without_malloc_witness :
  let m := memory_after (free_first_neighbour empty_memory) in
  let fl := [(65568, 64)] in
  (user_space m = true ∧ valid m (65696 - 32) 32 = true ∧
   free_blocks 7 65568 m = Ok (fl, m)) ∧
  ∃ m',
    pool_free 8 false (Some (mkPool 65536 65568 4096)) 65696 m
      = Ok (Some (mkPool 65536 (65696 - 32) 4096), m') ∧
    mapped m' = mapped m ∧
    free_blocks 8 (65696 - 32) m'
      = Ok ((65696 - 32, load_le 8 (contents m) (65696 - 32)) :: fl, m').
Proof.
  intros m fl.
  assert (Hu : user_space m = true) by (vm_compute; reflexivity).
  assert (Hv : valid m (65696 - 32) 32 = true) by (vm_compute; reflexivity).
  assert (Hfl : free_blocks 7 65568 m = Ok (fl, m)) by (vm_compute; reflexivity).
  split; [auto |].
  apply (pool_free_pushes_without_malloc 7 65536 4096 65568 65696 m fl Hu).
  - lia.
  - exact Hv.
  - word_lia.
  - exact Hfl.
  - constructor; [right; cbn; lia | constructor].
Defined.
End PoolFreePush.

Section PoolFailureEffect.
Import Pool PoolRuns.

(** What a [pool_alloc] that returns 0 has done, whatever the state of
    the pool: either nothing at all, handle and memory being as before;
    or the system has granted a new region at [os], and that region is
    still mapped when the call returns. *)
Theorem pool_alloc_failure_effect fuel pool size alignment os m pool' m' :
  user_space m = true →
  pool_alloc fuel pool size alignment os m = Ok ((0, pool'), m') →
  (pool' = pool ∧ m' = m) ∨
  (os ≠ 0 ∧ ∃ bytes, os_grants m os bytes = true ∧ mapped m' = (os, bytes) :: mapped m).
Proof.
  intros Hu H.
  destruct (pool_alloc_failure _ _ _ _ _ _ _ _ Hu H) as [? | (bytes & Hg & Hmap)]; [now left |].
  right. pose proof (os_grants_facts _ _ _ Hg) as (_ & Hos & _). split; [lia | eauto].
Qed.

Lemma pool_alloc_failure_effect_witness :
  let m := memory_after (fresh_pool empty_memory) in
  let pool := Some (mkPool 65536 0 4096) in
  let m' := memory_after (pool_alloc 8 pool 5000 128 131072 m) in
  (user_space m = true ∧ pool_alloc 8 pool 5000 128 131072 m = Ok ((0, pool), m')) ∧
  ((pool = pool ∧ m' = m) ∨
   (131072 ≠ 0 ∧
    ∃ bytes, os_grants m 131072 bytes = true ∧ mapped m' = (131072, bytes) :: mapped m)).
Proof.
  intros m pool m'.
  assert (Hu : user_space m = true) by (vm_compute; reflexivity).
  assert (Hrun : pool_alloc 8 pool 5000 128 131072 m = Ok ((0, pool), m'))
    by (vm_compute; reflexivity).
  split; [auto |].
  exact (pool_alloc_failure_effect 8 pool 5000 128 131072 m pool m' Hu Hrun).
Defined.
End PoolFailureEffect.

Section PoolSecondFit.
Import Pool PoolRuns.

(** First fit past the head of the free list.  The head block [h1] does
    not fit (misaligned, or smaller than the request); the block [h2]
    that it links to does.  [pool_alloc] returns the user pointer of
    [h2] and unlinks it: the link of [h1] now holds the link that [h2]
    held.  A block of less than [size + 48] bytes is handed out whole
    and the head stays [h1].  A larger one is split, and the leftover
    block, of [S2 - size - 32] bytes, is pushed in front of [h1] as the
    new head of the free list. *)
Theorem pool_alloc_second_fit fuel bh ibs h1 size alignment os m :
  power_of_two alignment → user_space m = true → bytes_ok m →
  0 < h1 → 0 < size → (2 ≤ fuel)%nat →
  let S1 := load_le 8 (contents m) h1 in
  let h2 := load_le 8 (contents m) (h1 + 16) in
  let S2 := load_le 8 (contents m) h2 in
  let n2 := load_le 8 (contents m) (h2 + 16) in
  valid m h1 32 = true → (h1 + 32) mod alignment ≠ 0 ∨ S1 < size →
  0 < h2 → (h2 + 32) mod alignment = 0 → size ≤ S2 → valid m h2 (32 + S2) = true →
  h1 + 32 ≤ h2 ∨ h2 + 32 + S2 ≤ h1 →
  ∃ p' m',
    pool_alloc fuel (Some (mkPool bh h1 ibs)) size alignment os m
      = Ok ((h2 + 32, Some p'), m') ∧
    block_head p' = bh ∧ initial_block_size p' = ibs ∧ mapped m' = mapped m ∧
    load_le 8 (contents m') (h1 + 16) = n2 ∧
    ((S2 < size + 48 ∧ free_list p' = h1 ∧ load_le 8 (contents m') h2 = S2) ∨
     (size + 48 ≤ S2 ∧ free_list p' = h2 + 32 + size ∧
      load_le 8 (contents m') h2 = size ∧
      load_le 8 (contents m') (h2 + 32 + size) = S2 - size - 32 ∧
      load_le 8 (contents m') (h2 + 32 + size + 8) = 0 ∧
      load_le 8 (contents m') (h2 + 32 + size + 16) = h1)).
Proof.
  intros Hpow Hu Hb Hh1 Hsize Hfuel S1 h2 S2 n2 Hv1 Hnofit Hh2 Hal2 Hfit Hv2 Hsep.
  pose proof (power_of_two_word alignment Hpow) as (k & Hk & Hak & Ha).
  destruct fuel as [|[|fuel]]; [lia | lia |].
  pose proof (valid_user_space _ _ _ Hu Hv1) as [_ Hend1].
  pose proof (valid_user_space _ _ _ Hu Hv2) as [_ Hend2]. unfold USER_SPACE_END in *.
  pose proof (loaded_word m (h2 + 16) Hb) as Hn2. fold n2 in Hn2.
  assert (Hv10 : valid m h1 8 = true) by (apply (valid_sub m h1 32); [assumption | lia..]).
  assert (Hv116 : valid m (h1 + 16) 8 = true) by (apply (valid_sub m h1 32); [assumption | lia..]).
  assert (Hv20 : valid m h2 8 = true) by (apply (valid_sub m h2 (32 + S2)); [assumption | lia..]).
  assert (Hv216 : valid m (h2 + 16) 8 = true)
    by (apply (valid_sub m h2 (32 + S2)); [assumption | lia..]).
  set (m1 := mkMemory (store_le 8 (h1 + 16) n2 (contents m)) (mapped m)).
  assert (HS2 : load_le 8 (contents m1) h2 = S2)
    by (subst m1; cbn [contents]; apply load_store_other; lia).
  assert (Hloop :
    ∃ p' m',
      remove_free_block (S (S fuel)) (mkPool bh h1 ibs) size alignment m
        = Ok ((h2 + 32, p'), m') ∧
      block_head p' = bh ∧ initial_block_size p' = ibs ∧ mapped m' = mapped m ∧
      load_le 8 (contents m') (h1 + 16) = n2 ∧
      ((S2 < size + 48 ∧ free_list p' = h1 ∧ load_le 8 (contents m') h2 = S2) ∨
       (size + 48 ≤ S2 ∧ free_list p' = h2 + 32 + size ∧
        load_le 8 (contents m') h2 = size ∧
        load_le 8 (contents m') (h2 + 32 + size) = S2 - size - 32 ∧
        load_le 8 (contents m') (h2 + 32 + size + 8) = 0 ∧
        load_le 8 (contents m') (h2 + 32 + size + 16) = h1))).
  { unfold remove_free_block. cbn [remove_free_block_loop free_list].
    destruct (Z.eqb_spec h1 0) as [? | _]; [lia |].
    destruct (Z.eqb_spec alignment 0) as [? | _]; [lia |].
    unfold HEADER_SIZE, MIN_SPLIT_THRESHOLD, hdr_size, hdr_next_free, hdr_padding.
    rewrite (wadd_small h1 16), (wadd_small h1 32) by word_lia.
    assert (Hfits1 : (if (h1 + 32) mod alignment =? 0
                      then do size0 <- load64 h1; ret (size0 >=? size)
                      else ret false) m = Ok (false, m)).
    { destruct (Z.eqb_spec ((h1 + 32) mod alignment) 0) as [Hal1 | _]; [| reflexivity].
      rewrite (bind_step _ _ _ _ _ (load64_Ok _ _ Hv10)). fold S1.
      destruct (Z.geb_spec S1 size) as [? | _]; [| reflexivity].
      destruct Hnofit; [contradiction | lia]. }
    rewrite (bind_step _ _ _ _ _ Hfits1).
    rewrite (bind_step _ _ _ _ _ (load64_Ok _ _ Hv116)). fold h2.
    destruct (Z.eqb_spec h2 0) as [? | _]; [lia |].
    rewrite (wadd_small h2 16), (wadd_small h2 32) by word_lia.
    rewrite Hal2. cbn [Z.eqb].
    assert (Hfits2 : (do size0 <- load64 h2; ret (size0 >=? size)) m = Ok (true, m)).
    { rewrite (bind_step _ _ _ _ _ (load64_Ok _ _ Hv20)). fold S2.
      rewrite (proj2 (Z.geb_le S2 size)) by lia. reflexivity. }
    rewrite (bind_step _ _ _ _ _ Hfits2).
    rewrite (bind_step _ _ _ _ _ (load64_Ok _ _ Hv216)). fold n2.
    rewrite bind_assoc.
    rewrite (bind_step _ _ _ _ _ (store64_Ok _ _ _ Hv116)). fold m1. rewrite bind_ret.
    rewrite (bind_step _ _ _ _ _ (load64_Ok _ _ (Hv20 : valid m1 h2 8 = true))), HS2.
    rewrite (wadd_small size 32), (wadd_small (size + 32) 16) by word_lia.
    cbn [block_head initial_block_size free_list].
    destruct (Z.geb_spec S2 (size + 32 + 16)) as [Hsplit | Hwhole].
    - rewrite (wadd_small (h2 + 32) size) by word_lia.
      rewrite (wsub_small S2 size), (wsub_small (S2 - size) 32) by word_lia.
      set (L := h2 + 32 + size).
      rewrite (wadd_small L 8), (wadd_small L 16) by (subst L; word_lia).
      assert (HvL : valid m L 8 = true)
        by (apply (valid_sub m h2 (32 + S2)); [assumption | subst L; lia..]).
      assert (HvL8 : valid m (L + 8) 8 = true)
        by (apply (valid_sub m h2 (32 + S2)); [assumption | subst L; lia..]).
      assert (HvL16 : valid m (L + 16) 8 = true)
        by (apply (valid_sub m h2 (32 + S2)); [assumption | subst L; lia..]).
      rewrite bind_assoc.
      rewrite (bind_step _ _ _ _ _ (store64_Ok _ _ _ (Hv20 : valid m1 h2 8 = true))).
      set (m2 := mkMemory _ _).
      rewrite bind_assoc.
      rewrite (bind_step _ _ _ _ _ (store64_Ok _ _ _ (HvL : valid m2 L 8 = true))).
      set (m3 := mkMemory _ _).
      rewrite bind_assoc.
      rewrite (bind_step _ _ _ _ _ (store64_Ok _ _ _ (HvL8 : valid m3 (L + 8) 8 = true))).
      set (m4 := mkMemory _ _).
      rewrite bind_assoc.
      rewrite (bind_step _ _ _ _ _ (store64_Ok _ _ _ (HvL16 : valid m4 (L + 16) 8 = true))).
      set (m5 := mkMemory _ _). rewrite bind_ret.
      eexists. exists m5. split; [reflexivity |]. cbn [block_head initial_block_size free_list].
      split; [reflexivity |]. split; [reflexivity |]. split; [reflexivity |].
      subst m5 m4 m3 m2 m1. cbn [contents]. subst L.
      split; [rewrite !load_store_other by lia; apply load_store_same; exact Hn2 |].
      right. split; [lia |]. split; [reflexivity |].
      split; [| split; [| split]].
      + rewrite !load_store_other by lia. apply load_store_same. word_lia.
      + rewrite !load_store_other by lia. apply load_store_same. word_lia.
      + rewrite load_store_other by lia. apply load_store_same. word_lia.
      + apply load_store_same. word_lia.
    - rewrite bind_ret.
      eexists. exists m1. split; [reflexivity |]. cbn [block_head initial_block_size free_list].
      split; [reflexivity |]. split; [reflexivity |]. split; [reflexivity |].
      split; [subst m1; cbn [contents]; apply load_store_same; exact Hn2 |].
      left. split; [lia |]. split; [reflexivity | exact HS2]. }
  destruct Hloop as (p' & m' & Hrun & Hrest).
  exists p', m'. split; [| exact Hrest].
  unfold pool_alloc.
  destruct (Z.eqb_spec size 0) as [? | _]; [lia |].
  rewrite (proj2 (bit_test_power_of_two alignment ltac:(lia)) Hpow).
  cbn [Z.eqb negb orb].
  rewrite (bind_step _ _ _ _ _ Hrun).
  destruct (Z.eqb_spec (h2 + 32) 0) as [? | _]; [lia |]. reflexivity.
Qed.
Lemma pool_alloc_second_fit_witness :
  let m := memory_after (free_first_last empty_memory) in
  let S1 := load_le 8 (contents m) 65568 in
  let h2 := load_le 8 (contents m) (65568 + 16) in
  let S2 := load_le 8 (contents m) h2 in
  let n2 := load_le 8 (contents m) (h2 + 16) in
  (user_space m = true ∧ bytes_ok m ∧ valid m 65568 32 = true ∧
   (65568 + 32) mod 256 ≠ 0 ∧ h2 = 65760 ∧ S2 = 64 ∧
   valid m h2 (32 + S2) = true) ∧
  ∃ p' m',
    pool_alloc 8 (Some (mkPool 65536 65568 4096)) 32 256 131072 m
      = Ok ((h2 + 32, Some p'), m') ∧
    block_head p' = 65536 ∧ initial_block_size p' = 4096 ∧ mapped m' = mapped m ∧
    load_le 8 (contents m') (65568 + 16) = n2 ∧
    ((S2 < 32 + 48 ∧ free_list p' = 65568 ∧ load_le 8 (contents m') h2 = S2) ∨
     (32 + 48 ≤ S2 ∧ free_list p' = h2 + 32 + 32 ∧
      load_le 8 (contents m') h2 = 32 ∧
      load_le 8 (contents m') (h2 + 32 + 32) = S2 - 32 - 32 ∧
      load_le 8 (contents m') (h2 + 32 + 32 + 8) = 0 ∧
      load_le 8 (contents m') (h2 + 32 + 32 + 16) = 65568)).
Proof.
  intros m S1 h2 S2 n2.
  assert (Hu : user_space m = true) by (vm_compute; reflexivity).
  assert (Hb : bytes_ok m) by (apply (bool_decide_unpack _); vm_compute; reflexivity).
  assert (Hv1 : valid m 65568 32 = true) by (vm_compute; reflexivity).
  assert (Hmis : (65568 + 32) mod 256 ≠ 0) by (vm_compute; discriminate).
  assert (Hh2 : h2 = 65760) by (vm_compute; reflexivity).
  assert (HS2 : S2 = 64) by (vm_compute; reflexivity).
  assert (Hv2 : valid m h2 (32 + S2) = true) by (vm_compute; reflexivity).
  split; [auto 10 |].
  apply (pool_alloc_second_fit 8 65536 4096 65568 32 256 131072 m).
  - exists 8. split; [lia | reflexivity].
  - exact Hu.
  - exact Hb.
  - lia.
  - lia.
  - lia.
  - exact Hv1.
  - left. exact Hmis.
  - fold h2. lia.
  - fold h2. rewrite Hh2. reflexivity.
  - fold h2 S2. lia.
  - exact Hv2.
  - fold h2. lia.
Defined.
End PoolSecondFit.

Section PoolResetAlloc.
Import Pool PoolRuns.

(** [pool_reset] followed by [pool_alloc].  Wherever the bump offsets
    stood and whatever was on the free list, after the reset a request
    that the first region can hold from its start is served there: the
    call returns the first multiple of [alignment] at or after
    [base + 32] of the first region, so an address handed out before the
    reset is handed out again, and every byte of the returned block is
    zero. *)
Theorem pool_reset_then_alloc fuel p m b base rsize off rest size alignment os :
  user_space m = true → chain_ok m ((b, base, rsize, off) :: rest) →
  region_chain fuel (block_head p) m = Ok ((b, base, rsize, off) :: rest, m) →
  power_of_two alignment → 0 < size → alignment + size < 2 ^ 62 →
  has_room size alignment (b, base, rsize, 0) →
  let r := bump_pointer alignment (b, base, rsize, 0) in
  ∃ p1 m1 m2,
    pool_reset fuel (Some p) m = Ok (Some p1, m1) ∧
    pool_alloc fuel (Some p1) size alignment os m1 = Ok ((r, Some p1), m2) ∧
    base + 32 ≤ r < base + 32 + alignment ∧ r mod alignment = 0 ∧
    (∀ x, r ≤ x < r + size → byte_at (contents m2) x = 0).
Proof.
  intros Hu Hok Hchain Hpow Hsize Hbig Hroom r.
  pose proof (power_of_two_word alignment Hpow) as (k & Hk & Hak & Ha).
  destruct fuel as [|fuel]; [discriminate Hchain |].
  destruct p as [bh fl ibs]. cbn [block_head] in Hchain.
  assert (Hbh : bh ≠ 0).
  { intros ->. cbn [region_chain Z.eqb] in Hchain. discriminate Hchain. }
  destruct (region_chain_head _ _ _ _ Hu Hchain Hbh) as (_ & _ & rest0 & Heq & _).
  assert (Hbb : b = bh) by congruence. subst bh. clear Heq rest0.
  destruct (reset_loop_chain (S fuel) b m _ Hu Hok Hchain)
    as (m1 & Hloop & Hmap1 & Hchain1 & Hzero & _).
  cbn [map zero_offset] in Hchain1.
  assert (Hu1 : user_space m1 = true) by (rewrite (user_space_mapped m m1 Hmap1); exact Hu).
  destruct (region_chain_head _ _ _ _ Hu1 Hchain1 Hbh) as (Hb & Hw & rest1 & Heq & _).
  assert (Hbase1 : load_le 8 (contents m1) b = base) by congruence.
  assert (Hrsize1 : load_le 8 (contents m1) (b + 8) = rsize) by congruence.
  assert (Hoff1 : load_le 8 (contents m1) (b + 16) = 0) by congruence.
  clear Heq rest1.
  destruct Hok as ((_ & Hbase & Hrsize & Hin) & _ & _).
  rewrite <- Hmap1 in Hin.
  assert (Hvalid : valid m1 b 32 = true)
    by (apply (valid_of_region m1 b (rsize + 32)); [assumption | lia..]).
  assert (Hwhole : valid m1 b (rsize + 32) = true)
    by (apply (valid_of_region m1 b (rsize + 32)); [assumption | lia..]).
  pose proof (valid_user_space _ _ _ Hu1 Hwhole) as [_ Hend]. unfold USER_SPACE_END in Hend.
  pose proof (page_round_ge (rsize + 32)) as Hpage.
  destruct (alloc_from_block_returns b size alignment m1 b (rsize + 32) Hpow)
    as (r' & m2 & Hbump);
    [lia | rewrite Hbase1; lia | rewrite Hoff1; lia | lia
    | rewrite Hbase1, Hoff1; word_lia | exact Hvalid | exact Hin | rewrite Hbase1; lia
    | rewrite Hbase1, Hrsize1; lia |].
  pose proof (alloc_from_block_outcome b size alignment m1 r' m2 Hpow) as Hout.
  cbv zeta in Hout. rewrite Hbase1, Hrsize1, Hoff1 in Hout.
  specialize (Hout ltac:(lia) ltac:(lia) ltac:(lia) ltac:(lia) ltac:(word_lia) Hbump).
  unfold has_room in Hroom. fold r in Hroom.
  destruct Hout as [(_ & _ & q & Hq & Hqm & Hover)
                   | (Hr & Hrm & Hfit & Hmap & _ & _ & _ & _ & _ & _ & _ & Hframe)].
  { exfalso.
    assert (q = r)
      by (subst r; unfold bump_pointer; apply bump_pointer_unique; [lia | lia | exact Hqm]).
    lia. }
  assert (Hrr : r' = r)
    by (subst r; unfold bump_pointer; apply bump_pointer_unique; [lia | lia | exact Hrm]).
  subst r'.
  exists (mkPool b 0 ibs), m1, m2.
  split.
  { unfold pool_reset. cbn [block_head initial_block_size].
    rewrite (bind_step _ _ _ _ _ Hloop). reflexivity. }
  split.
  { unfold pool_alloc.
    destruct (Z.eqb_spec size 0) as [? | _]; [lia |].
    rewrite (proj2 (bit_test_power_of_two alignment ltac:(lia)) Hpow).
    cbn [Z.eqb negb orb].
    assert (Hmiss : remove_free_block (S fuel) (mkPool b 0 ibs) size alignment m1
                    = Ok ((0, mkPool b 0 ibs), m1)) by reflexivity.
    rewrite (bind_step _ _ _ _ _ Hmiss). cbn [Z.eqb negb block_head].
    assert (Hrun : bump_loop (S fuel) b size alignment m1 = Ok (r, m2)).
    { cbn [bump_loop]. destruct (Z.eqb_spec b 0) as [? | _]; [contradiction |].
      rewrite (bind_step _ _ _ _ _ Hbump).
      destruct (Z.eqb_spec r 0) as [? | _]; [lia |]. reflexivity. }
    rewrite (bind_step _ _ _ _ _ Hrun).
    destruct (Z.eqb_spec r 0) as [? | _]; [lia |]. reflexivity. }
  split; [lia |]. split; [exact Hrm |].
  intros x Hx. rewrite Hframe by lia.
  apply (Hzero (b, base, rsize, off) x); [now left | unfold in_usable; lia].
Qed.
Lemma pool_reset_then_alloc_witness :
  let m := memory_after (free_first_last empty_memory) in
  let p := mkPool 65536 65568 4096 in
  let l := [(65536, 65568, 4096, 288)] in
  (user_space m = true ∧ chain_ok m l ∧ region_chain 8 (block_head p) m = Ok (l, m) ∧
   has_room 64 16 (65536, 65568, 4096, 0)) ∧
  let r := bump_pointer 16 (65536, 65568, 4096, 0) in
  ∃ p1 m1 m2,
    pool_reset 8 (Some p) m = Ok (Some p1, m1) ∧
    pool_alloc 8 (Some p1) 64 16 131072 m1 = Ok ((r, Some p1), m2) ∧
    65568 + 32 ≤ r < 65568 + 32 + 16 ∧ r mod 16 = 0 ∧
    (∀ x, r ≤ x < r + 64 → byte_at (contents m2) x = 0).
Proof.
  intros m p l.
  assert (Hu : user_space m = true) by (vm_compute; reflexivity).
  assert (Hok : chain_ok m l).
  { split; [| split; [constructor | exact I]].
    split; [lia |]. split; [reflexivity |]. split; [lia |].
    vm_compute. left. reflexivity. }
  assert (Hchain : region_chain 8 (block_head p) m = Ok (l, m)) by (vm_compute; reflexivity).
  assert (Hroom : has_room 64 16 (65536, 65568, 4096, 0)) by (vm_compute; discriminate).
  split; [auto |].
  apply (pool_reset_then_alloc 8 p m 65536 65568 4096 288 [] 64 16 131072 Hu Hok Hchain).
  - exact sixteen_is_a_power_of_two.
  - lia.
  - lia.
  - exact Hroom.
Defined.
End PoolResetAlloc.

Section SlabCapacityExact.
Import Slab SlabRuns.

(** A freshly initialised slab of capacity [N] serves exactly [N]
    allocations: [N + 1] calls of [slab_alloc] in a row return [N]
    non-null pointers and then null, change no byte of the memory, and
    leave a slab on which every further [slab_alloc] returns null.  The
    slab is any slab that [slab_init] set up with success in a memory
    whose regions lie in the user address space. *)
Theorem fresh_slab_capacity s0 N osz os m slab m1 :
  0 ≤ N < WORD → 0 ≤ osz < WORD → user_space m = true →
  slab_init (Some s0) N osz os m = Ok ((1, slab), m1) →
  ∃ ptrs full,
    alloc_many (Z.to_nat N + 1) slab m1 = Ok ((ptrs ++ [0], full), m1) ∧
    length ptrs = Z.to_nat N ∧
    Forall (λ p, p ≠ 0) ptrs ∧
    slab_alloc full m1 = Ok ((0, full), m1).
Proof.
  intros HN0 Hosz0 Huser Hinit.
  pose proof (slab_init_guard _ _ _ _ _ _ _ Hinit) as [HN1 Hosz8].
  assert (HN : 1 ≤ N < WORD) by lia. assert (Hosz : 8 ≤ osz < WORD) by lia.
  pose proof (fresh_slab_is s0 N osz os m slab m1 HN Hosz Hinit) as ->.
  pose proof (fresh_slab_shape s0 N osz os m _ m1 HN Hosz Huser Hinit) as Hshape.
  pose proof (fresh_slab_links s0 N osz os m _ m1 HN Hosz Huser Hinit) as Hlinks.
  set (s := mkSlab os (align_size osz) N os) in *.
  assert (Hs : s = with_head_at s 0) by (apply fresh_slab_head; [cbn; lia | reflexivity]).
  pose proof (alloc_many_ascending s m1 Hshape Hlinks (Z.to_nat N) 0 ltac:(lia)) as Hmany.
  rewrite Z2Nat.id, Z.add_0_l in Hmany by lia.
  specialize (Hmany ltac:(cbn; lia)). rewrite <- Hs in Hmany.
  pose proof (slab_alloc_empty s m1 N ltac:(cbn; lia)) as Hempty.
  exists ((λ j, cell s j + HEADER_SIZE) <$> seqZ 0 N), (Some (with_head_at s N)).
  split; [exact (alloc_many_snoc _ _ _ _ _ _ _ _ _ Hmany Hempty) |].
  split; [now rewrite length_fmap, length_seqZ |].
  split; [| exact Hempty].
  apply Forall_fmap, Forall_seqZ. intros j Hj. cbn.
  pose proof (cell_word s m1 Hshape j ltac:(cbn; lia)). unfold HEADER_SIZE. lia.
Qed.

Lemma fresh_slab_capacity_witness :
  ∃ slab m1,
    slab_init (Some unused_slab) 3 64 65536 empty_memory = Ok ((1, slab), m1) ∧
    ∃ ptrs full,
      alloc_many (Z.to_nat 3 + 1) slab m1 = Ok ((ptrs ++ [0], full), m1) ∧
      length ptrs = Z.to_nat 3 ∧
      Forall (λ p, p ≠ 0) ptrs ∧
      slab_alloc full m1 = Ok ((0, full), m1).
Proof.
  eexists. eexists. split; [vm_compute; reflexivity |].
  apply (fresh_slab_capacity unused_slab 3 64 65536 empty_memory).
  - word_lia.
  - word_lia.
  - vm_compute. reflexivity.
  - vm_compute. reflexivity.
Defined.
End SlabCapacityExact.

Section PoolAligned.
Import Pool PoolRuns.

(** Every [pool_alloc(size, alignment)] with [alignment] a power of two
    that returns a non-null pointer returns a multiple of [alignment],
    whichever path served it: first fit from the free list, bump in an
    existing region, or bump in a new region.  The pool, the memory and
    the size are arbitrary. *)
Theorem pool_alloc_result_aligned fuel pool size alignment os m r pool' m' :
  power_of_two alignment →
  pool_alloc fuel pool size alignment os m = Ok ((r, pool'), m') →
  r ≠ 0 → r mod alignment = 0.
Proof.
  intros Hpow H Hr.
  destruct (pool_alloc_aligned alignment Hpow _ _ _ _ _ _ _ _ H); [contradiction | assumption].
Qed.

Lemma pool_alloc_result_aligned_witness :
  let m := memory_after (free_first_last empty_memory) in
  let pool := Some (mkPool 65536 65568 4096) in
  (power_of_two 256 ∧
   returned (pool_alloc 8 pool 32 256 131072 m) = Ok (65792, pool) ∧ 65792 ≠ 0) ∧
  65792 mod 256 = 0.
Proof.
  intros m pool.
  assert (Hpow : power_of_two 256) by (exists 8; split; [lia | reflexivity]).
  assert (Hrun : returned (pool_alloc 8 pool 32 256 131072 m) = Ok (65792, pool))
    by (vm_compute; reflexivity).
  assert (Hnz : 65792 ≠ 0) by lia.
  split; [auto |].
  apply (pool_alloc_result_aligned 8 pool 32 256 131072 m 65792 pool
           (memory_after (pool_alloc 8 pool 32 256 131072 m)) Hpow); [| exact Hnz].
  vm_compute. reflexivity.
Defined.

(** The size test of the bump allocation is done on 64-bit words, which
    wrap.  [r] is the aligned pointer for the region's bump offset.  When
    the request is so large that offset, header, padding and size
    together pass 2^64, and the wrapped sum is at most the region's
    size, the test passes: the call returns [r] although the request
    ends past the end of the region, writes the header in front of [r],
    and sets the bump offset to the wrapped sum. *)
Theorem bump_allocation_wraps b size alignment m :
  power_of_two alignment →
  let base := load_le 8 (contents m) b in
  let rsize := load_le 8 (contents m) (b + 8) in
  let off := load_le 8 (contents m) (b + 16) in
  let r := bump_pointer alignment (b, base, rsize, off) in
  0 ≤ b → b + 32 ≤ base → 0 ≤ off → 0 ≤ size < WORD →
  base + off + 32 + alignment < WORD → base + rsize < WORD →
  WORD ≤ r - base + size → r - base + size - WORD ≤ rsize →
  valid m b 32 = true → valid m (r - 32) 24 = true →
  ∃ m',
    alloc_from_block b size alignment m = Ok (r, m') ∧
    r ≠ 0 ∧ r mod alignment = 0 ∧
    base + rsize < r + size ∧
    mapped m' = mapped m ∧
    load_le 8 (contents m') (b + 16) = r - base + size - WORD ∧
    load_le 8 (contents m') (r - 32) = size.
Proof.
  intros Hpow base rsize off r Hb Hbase Hoff Hsize Hword Hend Hwrap Hfit Hstruct Hhdr.
  pose proof (power_of_two_word alignment Hpow) as (k & Hk & Hak & Ha).
  assert (Hfield : ∀ d, 0 ≤ d ≤ 24 → valid m (b + d) 8 = true)
    by (intros d Hd; apply (valid_sub m b 32); [exact Hstruct | lia..]).
  unfold alloc_from_block, blk_offset, blk_base, blk_size.
  rewrite (wadd_small b 16), (wadd_small b 8) by lia.
  rewrite (bind_step _ _ _ _ _ (load64_Ok _ _ (Hfield 16 ltac:(lia)))). cbv zeta.
  pose proof (Hfield 0 ltac:(lia)) as H0. rewrite Z.add_0_r in H0.
  rewrite (bind_step _ _ _ _ _ (load64_Ok _ _ H0)). cbv zeta.
  rewrite (bind_step _ _ _ _ _ (load64_Ok _ _ (Hfield 8 ltac:(lia)))).
  fold base rsize off.
  rewrite (wadd_small off base), (wadd_small (off + base) 32) by lia.
  pose proof (align_up_pow2 alignment (off + base + 32) Hpow ltac:(lia) ltac:(lia)) as Hup.
  cbv zeta in Hup.
  rewrite (wadd_small (off + base + 32)) in Hup by (rewrite wsub_small by lia; lia).
  rewrite (wadd_small (off + base + 32)) by (rewrite wsub_small by lia; lia).
  set (r9 := wand (off + base + 32 + wsub alignment 1) (wnot (wsub alignment 1))) in *.
  destruct Hup as [Hr9 Hal].
  assert (Hrr : r9 = r).
  { subst r. unfold bump_pointer. apply bump_pointer_unique; [lia | lia | exact Hal]. }
  rewrite (wsub_small r9) by lia.
  rewrite (wadd_small 32) by lia.
  assert (Hsum : wadd off (wadd (32 + (r9 - (off + base + 32))) size)
                 = r9 - base + size - WORD).
  { unfold wadd, wrap. rewrite Zplus_mod_idemp_r.
    symmetry. apply Z.mod_unique with 1; lia. }
  rewrite Hsum.
  destruct (Z.gtb_spec (r9 - base + size - WORD) rsize) as [Hgt | _]; [lia |].
  rewrite (wsub_small r9 32) by lia.
  unfold hdr_size, hdr_padding, hdr_next_free.
  rewrite (wadd_small (r9 - 32) 8), (wadd_small (r9 - 32) 16) by lia.
  rewrite (bind_step _ _ _ _ _ (store64_Ok _ _ _ (Hfield 16 ltac:(lia)))).
  rewrite Hrr in *.
  assert (Hh : ∀ d mm, mapped mm = mapped m → 0 ≤ d ≤ 16 → valid mm (r - 32 + d) 8 = true).
  { intros d mm Hmm Hd. rewrite (valid_mapped m mm) by exact Hmm.
    apply (valid_sub m (r - 32) 24); [exact Hhdr | lia..]. }
  pose proof (Hh 0) as Hh0. rewrite Z.add_0_r in Hh0.
  set (m1 := mkMemory _ _).
  rewrite (bind_step _ _ _ _ _ (store64_Ok _ _ _ (Hh0 m1 eq_refl ltac:(lia)))).
  set (m2 := mkMemory _ _).
  rewrite (bind_step _ _ _ _ _ (store64_Ok _ _ _ (Hh 8 m2 eq_refl ltac:(lia)))).
  set (m3 := mkMemory _ _).
  rewrite (bind_step _ _ _ _ _ (store64_Ok _ _ _ (Hh 16 m3 eq_refl ltac:(lia)))).
  eexists. split; [reflexivity |].
  split; [lia |]. split; [exact Hal |]. split; [lia |]. split; [reflexivity |].
  subst m3 m2 m1. cbn [contents].
  split.
  - rewrite !load_store_other by lia. apply load_store_same. lia.
  - rewrite !load_store_other by lia. apply load_store_same. lia.
Qed.

Lemma bump_allocation_wraps_witness :
  let m := memory_after (fresh_pool empty_memory) in
  let size := 2 ^ 64 - 16 in
  let base := load_le 8 (contents m) 65536 in
  let rsize := load_le 8 (contents m) (65536 + 8) in
  let off := load_le 8 (contents m) (65536 + 16) in
  let r := bump_pointer 16 (65536, base, rsize, off) in
  (base = 65568 ∧ rsize = 4096 ∧ off = 0 ∧ r = 65600 ∧
   WORD ≤ r - base + size ∧ r - base + size - WORD ≤ rsize ∧
   valid m 65536 32 = true ∧ valid m (r - 32) 24 = true) ∧
  ∃ m',
    alloc_from_block 65536 size 16 m = Ok (r, m') ∧
    r ≠ 0 ∧ r mod 16 = 0 ∧
    base + rsize < r + size ∧
    mapped m' = mapped m ∧
    load_le 8 (contents m') (65536 + 16) = r - base + size - WORD ∧
    load_le 8 (contents m') (r - 32) = size.
Proof.
  intros m size base rsize off r.
  assert (Hbase : base = 65568) by (vm_compute; reflexivity).
  assert (Hrsize : rsize = 4096) by (vm_compute; reflexivity).
  assert (Hoff : off = 0) by (vm_compute; reflexivity).
  assert (Hr : r = 65600) by (vm_compute; reflexivity).
  assert (Hsz : size = 18446744073709551600) by (vm_compute; reflexivity).
  assert (Hw : WORD ≤ r - base + size) by (rewrite Hr, Hbase, Hsz; word_lia).
  assert (Hf : r - base + size - WORD ≤ rsize) by (rewrite Hr, Hbase, Hsz, Hrsize; word_lia).
  assert (Hv1 : valid m 65536 32 = true) by (vm_compute; reflexivity).
  assert (Hv2 : valid m (r - 32) 24 = true) by (vm_compute; reflexivity).
  split; [auto 10 |].
  apply (bump_allocation_wraps 65536 size 16 m).
  - exact sixteen_is_a_power_of_two.
  - lia.
  - fold base. lia.
  - fold off. lia.
  - rewrite Hsz. word_lia.
  - fold base off. rewrite Hbase, Hoff. word_lia.
  - fold base rsize. rewrite Hbase, Hrsize. word_lia.
  - exact Hw.
  - exact Hf.
  - exact Hv1.
  - exact Hv2.
Defined.
End PoolAligned.
